(** * Cloud sync of the wish-history export: a shallow embedding

    The development follows the three source files of the repository:

    - the Electron main-process module that talks to the Apps Script
      endpoint ([calculateHash], [countRecords], [makeRequest],
      [getCloudMetadata], [getLocalMetadata], [createLocalBackup],
      [uploadToCloud], [downloadFromCloud] and the IPC handlers);
    - the Apps Script itself (GOOGLE_APPS_SCRIPT.gs: [uploadData],
      [downloadData], [getMetadata]);
    - the older OAuth based module (uploadFile, downloadFile and its three
      handlers), in [Module LegacyDrive];
    - the cloud-sync functions of the settings view (Setting.vue), in
      [Module SettingView].

    JavaScript values are modelled by the type [value]; numbers are the
    integers (record counts, schema versions, millisecond time stamps), a
    string is its sequence of UTF-8 bytes, and the fields of an object are
    listed in the order in which JavaScript enumerates them.  What the
    modules only call (network, clock, file export and import, the JSON
    reader of the engine, the Drive services) is an oracle of their
    environment. *)

From Stdlib Require Import ZArith String Ascii List Lia DecimalString.
From stdpp Require Import base tactics option list strings gmap sorting.

Local Open Scope string_scope.
Local Open Scope Z_scope.
Local Set Warnings "-register-all".

(** ** JavaScript values *)

Inductive value : Type :=
| VUndef
| VNull
| VBool (b : bool)
| VNum (n : Z)
| VStr (s : string)
| VArr (xs : list value)
| VObj (fields : list (string * value)).

(** ToBoolean: [undefined], [null], [false], [0] and [''] are falsy. *)
Definition truthy (v : value) : bool :=
  match v with
  | VUndef | VNull => false
  | VBool b => b
  | VNum n => negb (n =? 0)
  | VStr s => negb (String.eqb s EmptyString)
  | VArr _ | VObj _ => true
  end.

(** [a && b] and [a || b] return one of their operands. *)
Definition js_and (a b : value) : value := if truthy a then b else a.
Definition js_or (a b : value) : value := if truthy a then a else b.

(** [a === b]. Two compound values met by this program never are the same
    reference (one side always comes fresh out of [JSON.parse]), so they
    compare unequal. *)
Definition strict_eq (a b : value) : bool :=
  match a, b with
  | VUndef, VUndef => true
  | VNull, VNull => true
  | VBool x, VBool y => Bool.eqb x y
  | VNum x, VNum y => x =? y
  | VStr x, VStr y => String.eqb x y
  | _, _ => false
  end.

Definition is_array (v : value) : bool :=
  match v with VArr _ => true | _ => false end.

Definition type_is_string (v : value) : bool :=
  match v with VStr _ => true | _ => false end.

(** Own property lookup in an object's field list. *)
Fixpoint lookup_field (k : string) (fs : list (string * value)) : option value :=
  match fs with
  | [] => None
  | (k', v) :: fs' => if String.eqb k k' then Some v else lookup_field k fs'
  end.

(** [obj.k = v]: an existing property keeps its place, a new one goes last. *)
Fixpoint assign_field (k : string) (v : value) (fs : list (string * value))
  : list (string * value) :=
  match fs with
  | [] => [(k, v)]
  | (k', v') :: fs' =>
      if String.eqb k k' then (k, v) :: fs' else (k', v') :: assign_field k v fs'
  end.

Fixpoint remove_field (k : string) (fs : list (string * value))
  : list (string * value) :=
  match fs with
  | [] => []
  | (k', v') :: fs' =>
      if String.eqb k k' then remove_field k fs' else (k', v') :: remove_field k fs'
  end.

(** ** Errors

    Everything this program throws or catches is an [Error] object; only
    its [message] (and, in the OAuth module, its [code]) is ever read.
    [kind] is a ghost tag that records where the error was raised; the
    program itself never looks at it. *)

Inductive err_kind : Type :=
| ConfigurationError      (* no endpoint / credentials configured *)
| TransportError          (* 'error' event of the request, invalid URL *)
| TimeoutError            (* 30 s socket timeout *)
| ResponseFormatError     (* body of a 2xx answer is not JSON *)
| RequestFailedError      (* answer that is neither 2xx nor a followed 3xx *)
| RemoteError             (* answer carries status: 'error' *)
| MalformedResponseError  (* download answer without payload *)
| IncompatibleVersionError
| UnrecognizedFormatError
| GenerationError         (* generateUigf30Json / generateUigf41Json *)
| ImportError             (* importUgif30Json / importUgif41Json *)
| SaveError               (* config.save *)
| TypeError               (* property read on null / undefined and the like *)
| DriveApiError.          (* googleapis client of the OAuth module *)

Record exn : Type := Exn {
  kind : err_kind;
  message : string;
  code : option Z
}.

Definition error (k : err_kind) (msg : string) : exn :=
  {| kind := k; message := msg; code := None |}.

Inductive res (A : Type) : Type :=
| Ok (a : A)
| Err (e : exn).
Arguments Ok {A} a.
Arguments Err {A} e.

Definition res_bind {A B} (r : res A) (k : A -> res B) : res B :=
  match r with Ok a => k a | Err e => Err e end.

(** [v.k] for the property names this program reads (identifiers, never an
    array index): reading from [null] or [undefined] throws, a primitive or
    an array has no such property. *)
Definition cannot_read (v : value) (k : string) : exn :=
  error TypeError
    ("Cannot read properties of "
     +:+ (match v with VNull => "null" | _ => "undefined" end)
     +:+ " (reading '" +:+ k +:+ "')").

Definition get_prop (v : value) (k : string) : res value :=
  match v with
  | VUndef | VNull => Err (cannot_read v k)
  | VObj fs => Ok (default VUndef (lookup_field k fs))
  | _ => Ok VUndef
  end.

(** For a value known not to be [null] or [undefined]. *)
Definition prop (v : value) (k : string) : value :=
  match v with
  | VObj fs => default VUndef (lookup_field k fs)
  | _ => VUndef
  end.
Arguments prop : simpl never.

(** [v.k = x] in sloppy mode: silently ignored on a primitive; on an array
    it would add a non-index property, which [JSON.stringify] never
    prints, so the array is left as it is. *)
Definition set_prop (v : value) (k : string) (x : value) : res value :=
  match v with
  | VUndef | VNull =>
      Err (error TypeError
             ("Cannot set properties of "
              +:+ (match v with VNull => "null" | _ => "undefined" end)
              +:+ " (setting '" +:+ k +:+ "')"))
  | VObj fs => Ok (VObj (assign_field k x fs))
  | _ => Ok v
  end.

(** ** Number and string conversions *)

(** Decimal notation, as JavaScript prints the integers below 10^21. *)
Definition Z_to_string (n : Z) : string :=
  NilZero.string_of_int (Z.to_int n).

Definition join (sep : string) (l : list string) : string := String.concat sep l.

(** ToString, as applied by [new Error(x)] and by template literals. *)
Fixpoint js_to_string (v : value) : string :=
  match v with
  | VUndef => "undefined"
  | VNull => "null"
  | VBool true => "true"
  | VBool false => "false"
  | VNum n => Z_to_string n
  | VStr s => s
  | VArr xs =>
      join "," (map (fun x => match x with
                              | VUndef | VNull => EmptyString
                              | _ => js_to_string x
                              end) xs)
  | VObj _ => "[object Object]"
  end.

(** [new Error(x).message]: empty when [x] is [undefined]. *)
Definition error_message_of (v : value) : string :=
  match v with VUndef => EmptyString | _ => js_to_string v end.

(** ** JSON.stringify *)

Definition hex_digit (n : N) : ascii :=
  (if n <? 10 then ascii_of_N (48 + n) else ascii_of_N (87 + n))%N.

Definition dquote : ascii := ascii_of_N 34.

Definition escape_char (c : ascii) : string :=
  let n := N_of_ascii c in
  if (n =? 34)%N then String (ascii_of_N 92) (String dquote EmptyString)
  else if (n =? 92)%N then "\\"
  else if (n =? 8)%N then "\b"
  else if (n =? 9)%N then "\t"
  else if (n =? 10)%N then "\n"
  else if (n =? 12)%N then "\f"
  else if (n =? 13)%N then "\r"
  else if (n <? 32)%N then
    "\u00" +:+ String (hex_digit (n / 16)) (String (hex_digit (n mod 16)) EmptyString)
  else String c EmptyString.

Fixpoint escape_string (s : string) : string :=
  match s with
  | EmptyString => EmptyString
  | String c s' => escape_char c +:+ escape_string s'
  end.

Definition quote (s : string) : string :=
  String dquote (escape_string s +:+ String dquote EmptyString).

(** [JSON.stringify(v)]: [None] stands for the result [undefined].  A
    property whose value is [undefined] is left out; an [undefined] array
    element is printed as [null]. *)
Fixpoint JSON_stringify (v : value) : option string :=
  match v with
  | VUndef => None
  | VNull => Some "null"
  | VBool true => Some "true"
  | VBool false => Some "false"
  | VNum n => Some (Z_to_string n)
  | VStr s => Some (quote s)
  | VArr xs =>
      Some ("[" +:+ join "," (map (fun x => default "null" (JSON_stringify x)) xs)
              +:+ "]")
  | VObj fs =>
      Some ("{" +:+ join ","
                  (omap (fun kv => match JSON_stringify (snd kv) with
                                   | Some t => Some (quote (fst kv) +:+ ":" +:+ t)
                                   | None => None
                                   end) fs)
              +:+ "}")
  end.

(** ** SHA-256 (FIPS 180-4), on 32-bit words kept in [Z] *)

Module SHA256.

Definition w32 (x : Z) : Z := x mod 2 ^ 32.
Definition add32 (x y : Z) : Z := w32 (x + y).
Definition rotr (n x : Z) : Z :=
  w32 (Z.lor (Z.shiftr x n) (Z.shiftl x (32 - n))).
Definition not32 (x : Z) : Z := 2 ^ 32 - 1 - x.

Definition Ch (x y z : Z) : Z := Z.lxor (Z.land x y) (Z.land (not32 x) z).
Definition Maj (x y z : Z) : Z :=
  Z.lxor (Z.lxor (Z.land x y) (Z.land x z)) (Z.land y z).
Definition Sigma0 (x : Z) : Z := Z.lxor (Z.lxor (rotr 2 x) (rotr 13 x)) (rotr 22 x).
Definition Sigma1 (x : Z) : Z := Z.lxor (Z.lxor (rotr 6 x) (rotr 11 x)) (rotr 25 x).
Definition sigma0 (x : Z) : Z := Z.lxor (Z.lxor (rotr 7 x) (rotr 18 x)) (Z.shiftr x 3).
Definition sigma1 (x : Z) : Z := Z.lxor (Z.lxor (rotr 17 x) (rotr 19 x)) (Z.shiftr x 10).

(** The constants are derived as the standard defines them, from the first
    sixty-four primes. *)
Fixpoint primes_from (fuel : nat) (count : nat) (n : Z) (found : list Z) : list Z :=
  match fuel, count with
  | S fuel', S count' =>
      if forallb (fun p => negb (n mod p =? 0)) found
      then primes_from fuel' count' (n + 1) (found ++ [n])
      else primes_from fuel' count (n + 1) found
  | _, _ => found
  end.

Definition first_primes (count : nat) : list Z := primes_from 400 count 2 [].

(** The integer cube root, one bit at a time from bit [bits - 1] down. *)
Fixpoint cube_root (bits : nat) (n r : Z) : Z :=
  match bits with
  | O => r
  | S bits' =>
      let r' := r + 2 ^ Z.of_nat bits' in
      cube_root bits' n (if r' * r' * r' <=? n then r' else r)
  end.

(** The first 32 bits of the fractional part of the cube root of each of
    the first 64 primes. *)
Definition K : list Z :=
  Eval vm_compute in map (fun p => w32 (cube_root 36 (p * 2 ^ 96) 0)) (first_primes 64).

(** The first 32 bits of the fractional part of the square root of each of
    the first 8 primes. *)
Definition H0 : list Z :=
  Eval vm_compute in map (fun p => w32 (Z.sqrt (p * 2 ^ 64))) (first_primes 8).

Definition bytes_of_string (s : string) : list Z :=
  map (fun c => Z.of_N (N_of_ascii c)) (list_ascii_of_string s).

(** Big-endian bytes of [x], [n] of them. *)
Fixpoint be_bytes (n : nat) (x : Z) : list Z :=
  match n with
  | O => []
  | S n' => be_bytes n' (x / 256) ++ [x mod 256]
  end.

(** The message, the byte 0x80, zeros up to 56 modulo 64, the bit length. *)
Definition pad (msg : list Z) : list Z :=
  let len := Z.of_nat (length msg) in
  let zeros := Z.to_nat ((55 - len) mod 64) in
  msg ++ [0x80] ++ repeat 0 zeros ++ be_bytes 8 (8 * len).

Fixpoint words_of_bytes (fuel : nat) (bs : list Z) : list Z :=
  match fuel, bs with
  | S fuel', b0 :: b1 :: b2 :: b3 :: rest =>
      (((b0 * 256 + b1) * 256 + b2) * 256 + b3) :: words_of_bytes fuel' rest
  | _, _ => []
  end.

Fixpoint blocks_of_words (fuel : nat) (ws : list Z) : list (list Z) :=
  match fuel, ws with
  | S fuel', _ :: _ => take 16 ws :: blocks_of_words fuel' (drop 16 ws)
  | _, _ => []
  end.

(** The message schedule, newest word first. *)
Fixpoint extend (n : nat) (rev_w : list Z) : list Z :=
  match n with
  | O => rev_w
  | S n' =>
      let at_ i := nth i rev_w 0 in
      let w := add32 (add32 (sigma1 (at_ 1%nat)) (at_ 6%nat))
                     (add32 (sigma0 (at_ 14%nat)) (at_ 15%nat)) in
      extend n' (w :: rev_w)
  end.

Definition schedule (block : list Z) : list Z := rev (extend 48 (rev block)).

Record regs : Type := Regs { ra : Z; rb : Z; rc : Z; rd : Z; re : Z; rf : Z; rg : Z; rh : Z }.

Definition round (r : regs) (kw : Z * Z) : regs :=
  let t1 := add32 (add32 (add32 (rh r) (Sigma1 (re r)))
                         (add32 (Ch (re r) (rf r) (rg r)) (fst kw))) (snd kw) in
  let t2 := add32 (Sigma0 (ra r)) (Maj (ra r) (rb r) (rc r)) in
  {| ra := add32 t1 t2; rb := ra r; rc := rb r; rd := rc r;
     re := add32 (rd r) t1; rf := re r; rg := rf r; rh := rg r |}.

Definition regs_of (h : list Z) : regs :=
  let at_ i := nth i h 0 in
  {| ra := at_ 0%nat; rb := at_ 1%nat; rc := at_ 2%nat; rd := at_ 3%nat;
     re := at_ 4%nat; rf := at_ 5%nat; rg := at_ 6%nat; rh := at_ 7%nat |}.

Definition list_of (r : regs) : list Z :=
  [ra r; rb r; rc r; rd r; re r; rf r; rg r; rh r].

Definition compress (h : list Z) (block : list Z) : list Z :=
  let r := fold_left round (combine K (schedule block)) (regs_of h) in
  map (fun xy => add32 (fst xy) (snd xy)) (combine h (list_of r)).

Definition digest (msg : list Z) : list Z :=
  let bs := pad msg in
  let ws := words_of_bytes (length bs) bs in
  fold_left compress (blocks_of_words (length ws) ws) H0.

Definition hex_of_byte (b : Z) : string :=
  String (hex_digit (Z.to_N (b / 16))) (String (hex_digit (Z.to_N (b mod 16))) EmptyString).

Definition hex (ws : list Z) : string :=
  join EmptyString (map hex_of_byte (concat (map (be_bytes 4) ws))).

(** [crypto.createHash('sha256').update(s).digest('hex')] *)
Definition sha256_hex (s : string) : string := hex (digest (bytes_of_string s)).

End SHA256.

(** ** Content hash and record count (both files define them) *)

Definition in_dquotes (s : string) : string :=
  String dquote (s +:+ String dquote EmptyString).

(** [calculateHash]: a string is hashed as it is, anything else through
    [JSON.stringify]; when that yields [undefined], [update] throws. *)
Definition calculateHash (data : value) : res string :=
  let content :=
    match data with
    | VStr s => Some s
    | _ => JSON_stringify data
    end in
  match content with
  | Some c => Ok (SHA256.sha256_hex c)
  | None =>
      Err (error TypeError
             ("The " +:+ in_dquotes "data"
              +:+ " argument must be of type string or an instance of Buffer, TypedArray, or DataView. Received undefined"))
  end.

Definition array_length (v : value) : Z :=
  match v with VArr xs => Z.of_nat (length xs) | _ => 0 end.

(** The [forEach] loop of [countRecords] over the account buckets. *)
Fixpoint count_accounts (accounts : list value) (count : Z) : res Z :=
  match accounts with
  | [] => Ok count
  | account :: rest =>
      res_bind (get_prop account "list") (fun l =>
        if truthy l && is_array l
        then count_accounts rest (count + array_length l)
        else count_accounts rest count)
  end.

Definition countRecords (data : value) : res Z :=
  if truthy data && truthy (prop data "hk4e") && is_array (prop data "hk4e") then
    match prop data "hk4e" with
    | VArr accounts => count_accounts accounts 0
    | _ => Ok 0
    end
  else if truthy data && truthy (prop data "list") && is_array (prop data "list") then
    Ok (array_length (prop data "list"))
  else Ok 0.

(** ** A reference JSON reader

    [JSON.parse] belongs to the JavaScript engine; the program model takes
    it from its environment.  [JSONRef.parse] is a small reader for
    integer-valued JSON text with which environments are instantiated in
    the examples.  Numbers with a fraction or an exponent and [\u] escapes
    outside ASCII are not covered and make it fail. *)

Module JSONRef.

Definition is_ws (c : ascii) : bool :=
  let n := N_of_ascii c in
  ((n =? 32) || (n =? 9) || (n =? 10) || (n =? 13))%N.

Fixpoint skip_ws (s : string) : string :=
  match s with
  | String c s' => if is_ws c then skip_ws s' else s
  | EmptyString => s
  end.

Definition digit_of (c : ascii) : option Z :=
  let n := N_of_ascii c in
  if ((48 <=? n) && (n <=? 57))%N then Some (Z.of_N n - 48) else None.

Definition hex_of (c : ascii) : option N :=
  let n := N_of_ascii c in
  if ((48 <=? n) && (n <=? 57))%N then Some (n - 48)%N
  else if ((97 <=? n) && (n <=? 102))%N then Some (n - 87)%N
  else if ((65 <=? n) && (n <=? 70))%N then Some (n - 55)%N
  else None.

Fixpoint digits (s : string) (acc : Z) : Z * string :=
  match s with
  | String c s' =>
      match digit_of c with
      | Some d => digits s' (10 * acc + d)
      | None => (acc, s)
      end
  | EmptyString => (acc, s)
  end.

Definition starts_fraction (s : string) : bool :=
  match s with
  | String c _ => let n := N_of_ascii c in ((n =? 46) || (n =? 101) || (n =? 69))%N
  | EmptyString => false
  end.

(** An optional minus sign, then 0 or a digit string without leading zero,
    not followed by a fraction or an exponent. *)
Definition number (s : string) : option (Z * string) :=
  let '(neg, s1) :=
    match s with
    | String c s' => if (N_of_ascii c =? 45)%N then (true, s') else (false, s)
    | EmptyString => (false, s)
    end in
  match s1 with
  | String c s2 =>
      match digit_of c with
      | Some 0 =>
          if starts_fraction s2 then None
          else match s2 with
               | String c2 _ => match digit_of c2 with
                                | Some _ => None
                                | None => Some (0, s2)
                                end
               | EmptyString => Some (0, s2)
               end
      | Some d =>
          let '(n, rest) := digits s2 d in
          if starts_fraction rest then None
          else Some (if neg then - n else n, rest)
      | None => None
      end
  | EmptyString => None
  end.

(** The characters after an opening quote, up to the closing one. *)
Fixpoint string_body (s : string) (acc : string) : option (string * string) :=
  match s with
  | EmptyString => None
  | String c s' =>
      let n := N_of_ascii c in
      if (n =? 34)%N then Some (acc, s')
      else if (n <? 32)%N then None
      else if (n =? 92)%N then
        match s' with
        | String e s2 =>
            let m := N_of_ascii e in
            let lit (k : N) := string_body s2 (acc +:+ String (ascii_of_N k) EmptyString) in
            if (m =? 34)%N then lit 34%N
            else if (m =? 92)%N then lit 92%N
            else if (m =? 47)%N then lit 47%N
            else if (m =? 98)%N then lit 8%N
            else if (m =? 102)%N then lit 12%N
            else if (m =? 110)%N then lit 10%N
            else if (m =? 114)%N then lit 13%N
            else if (m =? 116)%N then lit 9%N
            else if (m =? 117)%N then
              match s2 with
              | String h1 (String h2 (String h3 (String h4 s3))) =>
                  match hex_of h1, hex_of h2, hex_of h3, hex_of h4 with
                  | Some a, Some b, Some c', Some d =>
                      let cp := (((a * 16 + b) * 16 + c') * 16 + d)%N in
                      if (cp <? 128)%N
                      then string_body s3 (acc +:+ String (ascii_of_N cp) EmptyString)
                      else None
                  | _, _, _, _ => None
                  end
              | _ => None
              end
            else None
        | EmptyString => None
        end
      else string_body s' (acc +:+ String c EmptyString)
  end.

Definition literal (lit : string) (v : value) (s : string) : option (value * string) :=
  if String.prefix lit s
  then Some (v, String.substring (String.length lit) (String.length s - String.length lit) s)
  else None.

Definition first_is (n : N) (s : string) : option string :=
  match s with
  | String c s' => if (N_of_ascii c =? n)%N then Some s' else None
  | EmptyString => None
  end.

Fixpoint value_of (fuel : nat) (s : string) : option (value * string) :=
  match fuel with
  | O => None
  | S fuel' =>
      match skip_ws s with
      | EmptyString => None
      | String c rest as s0 =>
          let n := N_of_ascii c in
          if (n =? 91)%N then
            match first_is 93 (skip_ws rest) with
            | Some r => Some (VArr [], r)
            | None => elements fuel' rest []
            end
          else if (n =? 123)%N then
            match first_is 125 (skip_ws rest) with
            | Some r => Some (VObj [], r)
            | None => members fuel' rest []
            end
          else if (n =? 34)%N then
            match string_body rest EmptyString with
            | Some (str, r) => Some (VStr str, r)
            | None => None
            end
          else if (n =? 110)%N then literal "null" VNull s0
          else if (n =? 116)%N then literal "true" (VBool true) s0
          else if (n =? 102)%N then literal "false" (VBool false) s0
          else match number s0 with
               | Some (z, r) => Some (VNum z, r)
               | None => None
               end
      end
  end
with elements (fuel : nat) (s : string) (acc : list value) : option (value * string) :=
  match fuel with
  | O => None
  | S fuel' =>
      match value_of fuel' s with
      | Some (v, r) =>
          match skip_ws r with
          | String c r' =>
              if (N_of_ascii c =? 44)%N then elements fuel' r' (acc ++ [v])
              else if (N_of_ascii c =? 93)%N then Some (VArr (acc ++ [v]), r')
              else None
          | EmptyString => None
          end
      | None => None
      end
  end
with members (fuel : nat) (s : string) (acc : list (string * value))
  : option (value * string) :=
  match fuel with
  | O => None
  | S fuel' =>
      match first_is 34 (skip_ws s) with
      | Some r0 =>
          match string_body r0 EmptyString with
          | Some (k, r1) =>
              match first_is 58 (skip_ws r1) with
              | Some r2 =>
                  match value_of fuel' r2 with
                  | Some (v, r3) =>
                      match skip_ws r3 with
                      | String c r' =>
                          if (N_of_ascii c =? 44)%N
                          then members fuel' r' (assign_field k v acc)
                          else if (N_of_ascii c =? 125)%N
                          then Some (VObj (assign_field k v acc), r')
                          else None
                      | EmptyString => None
                      end
                  | None => None
                  end
              | None => None
              end
          | None => None
          end
      | None => None
      end
  end.

Definition parse (s : string) : res value :=
  match value_of (2 * String.length s + 2) s with
  | Some (v, r) =>
      match skip_ws r with
      | EmptyString => Ok v
      | _ => Err (error ResponseFormatError "Unexpected non-whitespace character after JSON")
      end
  | None => Err (error ResponseFormatError "Unexpected token in JSON")
  end.

End JSONRef.

Definition sample_doc : value :=
  VObj [("info", VObj [("uid", VStr "100000001"); ("lang", VStr "en-us")]);
        ("list", VArr [VObj [("id", VStr "1"); ("name", VStr "Jean"); ("rank_type", VNum 5)];
                       VObj [("id", VStr "2"); ("name", VStr "a\b"); ("rank_type", VNum (-4))]])].

(** JSON text is written below with apostrophes in place of double quotes. *)
Fixpoint json_text (s : string) : string :=
  match s with
  | EmptyString => EmptyString
  | String c s' =>
      String (if (N_of_ascii c =? 39)%N then dquote else c) (json_text s')
  end.

(** ** The environment of the main-process module

    Everything the module only calls is an oracle of the [world]: the
    network, the URL and JSON primitives of the runtime, the clock, the
    export/import functions of [./UIGFJson] and [config.save].  Each call
    is answered according to the logical time [tick] at which it is made,
    so an oracle may answer differently from one call to the next. *)

Inductive answer (A : Type) : Type :=
| Returns (a : A)
| Throws (msg : string) (errcode : option Z).
Arguments Returns {A} a.
Arguments Throws {A} msg errcode.

Inductive method : Type := GET | POST.

(** What [https.request] is given: only the host name and the path with
    the query are taken from the URL. *)
Record request : Type := Request {
  req_method : method;
  req_hostname : string;
  req_path : string;
  req_body : option string
}.

Inductive net_reply : Type :=
| NetError (msg : string)                 (* the request emits 'error' *)
| NetTimeout                              (* the 30 s timer fires first *)
| NetResponse (statusCode : Z) (location : option string) (body : string).

(** The [config] singleton of [./config]. [googleDriveLastSync] holds a
    number, or [undefined] before the first sync; an unset string setting
    is the empty string (both are falsy). *)
Record config : Type := Config {
  googleAppsScriptUrl : string;
  cloudSyncClientId : string;
  googleDriveLastSync : value;
  uigfVersion : string;
  uigfAllAccounts : value;
  googleClientId : string;
  googleClientSecret : string;
  googleRefreshToken : string;
  googleDriveFileId : string
}.

Record world : Type := World {
  JSON_parse : string -> answer value;
  URL_parse : string -> option (string * string);
  URL_resolve : string -> string -> option string;
  net : nat -> request -> net_reply;
  generateUigf30Json : nat -> answer value;
  generateUigf41Json : nat -> value -> answer value;
  importUgif41Json : nat -> value -> answer unit;
  importUgif30Json : nat -> value -> answer unit;
  config_save : nat -> config -> answer unit;
  Date_now : nat -> Z;
  Date_toISOString : nat -> string;
  toLocaleString : value -> string;
  randomUUID : nat -> string;
  greater_than : value -> Z -> bool;
  APP_VERSION : string;
  userDataPath : string
}.

(** What the module does to the outside, in order. *)
Inductive event : Type :=
| EvRequest (r : request)
| EvGenerate
| EvImport41 (data : value)
| EvImport30 (data : value)
| EvWriteBackup (name : string)
| EvRemoveBackup (name : string)
| EvSave (c : config)
| EvDriveApi (call : string).

Record state : Type := State {
  cfg : config;
  backupDir : gmap string value;
  tick : nat;
  log : list event
}.

(** A promise is fulfilled, rejected, or not settled (yet, when the fuel
    of [makeRequest] is used up; ever, when a callback throws outside the
    promise chain). *)
Inductive outcome (A : Type) : Type :=
| Fulfilled (a : A)
| Rejected (e : exn)
| Unsettled.
Arguments Fulfilled {A} a.
Arguments Rejected {A} e.
Arguments Unsettled {A}.

Definition M (A : Type) : Type := state -> outcome A * state.

Definition ret {A} (a : A) : M A := fun st => (Fulfilled a, st).
Definition throw {A} (e : exn) : M A := fun st => (Rejected e, st).
Definition never {A} : M A := fun st => (Unsettled, st).

Definition bind {A B} (m : M A) (k : A -> M B) : M B :=
  fun st =>
    match m st with
    | (Fulfilled a, st') => k a st'
    | (Rejected e, st') => (Rejected e, st')
    | (Unsettled, st') => (Unsettled, st')
    end.

(** [try { m } catch (e) { h e }] *)
Definition try_catch {A} (m : M A) (h : exn -> M A) : M A :=
  fun st =>
    match m st with
    | (Rejected e, st') => h e st'
    | r => r
    end.

Definition lift {A} (r : res A) : M A :=
  match r with Ok a => ret a | Err e => throw e end.

Notation "'await' x <- m ; k" := (bind m (fun x => k))
  (at level 10, x name, m at level 100, k at level 200).
Notation "'perform' m ; k" := (bind m (fun _ => k))
  (at level 10, m at level 100, k at level 200).

Definition get_cfg : M config := fun st => (Fulfilled (cfg st), st).

Definition set_cfg (c : config) : M unit :=
  fun st => (Fulfilled tt,
             {| cfg := c; backupDir := backupDir st; tick := tick st; log := log st |}).

Definition emit (e : event) (st : state) : state :=
  {| cfg := cfg st; backupDir := backupDir st; tick := tick st; log := log st ++ [e] |}.

Definition advance (st : state) : state :=
  {| cfg := cfg st; backupDir := backupDir st; tick := S (tick st); log := log st |}.

Definition set_backupDir (d : gmap string value) (st : state) : state :=
  {| cfg := cfg st; backupDir := d; tick := tick st; log := log st |}.

(** Calling a collaborator: it is asked at the current tick, the call is
    logged, and what it throws is tagged with the kind [k]. *)
Definition call {A} (k : err_kind) (ev : event) (oracle : nat -> answer A) : M A :=
  fun st =>
    let st' := advance (emit ev st) in
    match oracle (tick st) with
    | Returns a => (Fulfilled a, st')
    | Throws msg c => (Rejected {| kind := k; message := msg; code := c |}, st')
    end.

(** Reading the clock. *)
Definition read_clock {A} (clock : nat -> A) : M A :=
  fun st => (Fulfilled (clock (tick st)), advance st).

Definition str_truthy (s : string) : bool := negb (String.eqb s EmptyString).

Definition opt_truthy (o : option string) : bool :=
  match o with Some s => str_truthy s | None => false end.

Definition with_lastSync (c : config) (v : value) : config :=
  {| googleAppsScriptUrl := googleAppsScriptUrl c;
     cloudSyncClientId := cloudSyncClientId c;
     googleDriveLastSync := v;
     uigfVersion := uigfVersion c;
     uigfAllAccounts := uigfAllAccounts c;
     googleClientId := googleClientId c;
     googleClientSecret := googleClientSecret c;
     googleRefreshToken := googleRefreshToken c;
     googleDriveFileId := googleDriveFileId c |}.

Definition with_clientId (c : config) (id : string) : config :=
  {| googleAppsScriptUrl := googleAppsScriptUrl c;
     cloudSyncClientId := id;
     googleDriveLastSync := googleDriveLastSync c;
     uigfVersion := uigfVersion c;
     uigfAllAccounts := uigfAllAccounts c;
     googleClientId := googleClientId c;
     googleClientSecret := googleClientSecret c;
     googleRefreshToken := googleRefreshToken c;
     googleDriveFileId := googleDriveFileId c |}.

Definition with_fileId (c : config) (id : string) : config :=
  {| googleAppsScriptUrl := googleAppsScriptUrl c;
     cloudSyncClientId := cloudSyncClientId c;
     googleDriveLastSync := googleDriveLastSync c;
     uigfVersion := uigfVersion c;
     uigfAllAccounts := uigfAllAccounts c;
     googleClientId := googleClientId c;
     googleClientSecret := googleClientSecret c;
     googleRefreshToken := googleRefreshToken c;
     googleDriveFileId := id |}.

(** ** The main-process module *)

Definition SCHEMA_VERSION : Z := 1.

(** [path.join] on two segments that need no normalisation. *)
Definition path_join (a b : string) : string := a +:+ "/" +:+ b.

(** [s.replace(/[:.]/g, '-')] *)
Fixpoint replace_colon_dot (s : string) : string :=
  match s with
  | EmptyString => EmptyString
  | String c s' =>
      let n := N_of_ascii c in
      String (if ((n =? 58) || (n =? 46))%N then ascii_of_N 45 else c)
             (replace_colon_dot s')
  end.

(** The order of [Array.prototype.sort] on strings: code unit by code
    unit, which on the ASCII names this program writes is byte by byte. *)
Definition str_le (a b : string) : Prop := String.leb a b = true.

#[global] Instance str_le_dec : RelDecision str_le.
Proof. intros a b. unfold str_le. apply _. Defined.

(** [s.startsWith(p)] *)
Fixpoint starts_with (p s : string) : bool :=
  match p, s with
  | EmptyString, _ => true
  | String a p', String b s' => Ascii.eqb a b && starts_with p' s'
  | String _ _, EmptyString => false
  end.

Definition is_backup_name (f : string) : bool := starts_with "backup_" f.

(** [files.filter(f => f.startsWith('backup_')).sort().reverse()] *)
Definition desc (l : list string) : list string := rev (merge_sort str_le l).

Definition sorted_backups (files : list string) : list string :=
  desc (List.filter is_backup_name files).

(** What is left of the backup directory after the [for] loop. *)
Definition prune (d : gmap string value) : gmap string value :=
  foldl (fun d' name => delete name d') d
        (drop 10 (sorted_backups (elements (dom d)))).

(** The backups in a directory, newest name first. *)
Definition backups_kept (d : gmap string value) : list string :=
  sorted_backups (elements (dom d)).

Definition error_result (e : exn) : value :=
  VObj [("status", VStr "error"); ("error", VStr (message e))].

Definition metadata_request : value := VObj [("action", VStr "metadata")].
Definition download_request : value := VObj [("action", VStr "download")].

Section MainProcess.

Variable w : world.

(** [a > n] for a number [n]: ToNumber of [undefined] is NaN, of [null] 0,
    of a boolean 0 or 1; for strings and compound values the conversion
    is left to the engine. *)
Definition js_gt (a : value) (n : Z) : bool :=
  match a with
  | VUndef => false
  | VNull => n <? 0
  | VBool b => n <? (if b then 1 else 0)
  | VNum x => n <? x
  | VStr _ | VArr _ | VObj _ => greater_than w a n
  end.

Definition config_save_call : M unit :=
  await c <- get_cfg;
  call SaveError (EvSave c) (fun t => config_save w t c).

(** [config.save()] whose promise nobody awaits. *)
Definition config_save_unawaited : M unit :=
  try_catch config_save_call (fun _ => ret tt).

Definition getClientId : M string :=
  await c <- get_cfg;
  if negb (str_truthy (cloudSyncClientId c)) then
    await id <- read_clock (randomUUID w);
    perform set_cfg (with_clientId c id);
    perform config_save_unawaited;
    ret id
  else ret (cloudSyncClientId c).

(** One run of the promise executor of [makeRequest(payload, requestUrl)]
    and of the callbacks of its request: the promise is settled, or the
    response is a redirect and [makeRequest(null, newUrl)] takes over.
    When [new URL(location, targetUrlStr)] throws inside the response
    callback, nothing settles the promise. *)
Inductive exchange : Type :=
| Settled (o : outcome value)
| Redirect (newUrl : string).

Definition send (payload : value) (requestUrl : option string)
  : state -> exchange * state :=
  fun st =>
    let configured := googleAppsScriptUrl (cfg st) in
    if negb (str_truthy configured) && negb (opt_truthy requestUrl) then
      (Settled (Rejected (error ConfigurationError
                            "Please set Google Apps Script URL in settings.")), st)
    else
      let targetUrlStr :=
        match requestUrl with
        | Some u => if str_truthy u then u else configured
        | None => configured
        end in
      match URL_parse w targetUrlStr with
      | None => (Settled (Rejected (error TypeError "Invalid URL")), st)
      | Some (hostname, path) =>
          let isRedirect := opt_truthy requestUrl in
          let req :=
            {| req_method := if isRedirect then GET else POST;
               req_hostname := hostname;
               req_path := path;
               req_body := if truthy payload && negb isRedirect
                           then JSON_stringify payload else None |} in
          let st' := advance (emit (EvRequest req) st) in
          match net w (tick st) req with
          | NetError msg => (Settled (Rejected (error TransportError msg)), st')
          | NetTimeout =>
              (Settled (Rejected (error TimeoutError "Request timeout")), st')
          | NetResponse statusCode location body =>
              if (300 <=? statusCode) && (statusCode <? 400)
                 && opt_truthy location then
                match URL_resolve w (default EmptyString location) targetUrlStr with
                | None => (Settled Unsettled, st')
                | Some newUrl => (Redirect newUrl, st')
                end
              else if (200 <=? statusCode) && (statusCode <? 300) then
                match JSON_parse w body with
                | Returns v => (Settled (Fulfilled v), st')
                | Throws msg _ =>
                    (Settled (Rejected (error ResponseFormatError
                                          ("Failed to parse JSON response: " +:+ msg))),
                     st')
                end
              else
                (Settled (Rejected (error RequestFailedError
                                      ("Request failed with status "
                                       +:+ Z_to_string statusCode
                                       +:+ ": " +:+ body))), st')
          end
      end.

(** [makeRequest(payload, requestUrl)]: a redirect is answered by calling
    [makeRequest(null, newUrl)] and adopting its result. One unit of fuel
    is one request; without fuel the promise is left unsettled. *)
Fixpoint makeRequest (fuel : nat) (payload : value) (requestUrl : option string)
  : M value :=
  fun st =>
    match fuel with
    | O => (Unsettled, st)
    | S fuel' =>
        match send payload requestUrl st with
        | (Settled o, st') => (o, st')
        | (Redirect newUrl, st') => makeRequest fuel' VNull (Some newUrl) st'
        end
    end.

(** The state of the client after [n] redirects in a row, if the first [n]
    answers are redirects. *)
Fixpoint follow (n : nat) (payload : value) (requestUrl : option string)
    (st : state) : option (value * option string * state) :=
  match n with
  | O => Some (payload, requestUrl, st)
  | S n' =>
      match send payload requestUrl st with
      | (Redirect newUrl, st') => follow n' VNull (Some newUrl) st'
      | (Settled _, _) => None
      end
  end.

(** The check shared by the three callers of [makeRequest]:
    [if (response.status === 'error') throw new Error(response.error)]. *)
Definition check_status (response : value) : M unit :=
  await status <- lift (get_prop response "status");
  if strict_eq status (VStr "error")
  then throw (error RemoteError (error_message_of (prop response "error")))
  else ret tt.

Definition getCloudMetadata (fuel : nat) : M value :=
  await response <- makeRequest fuel metadata_request None;
  perform check_status response;
  ret response.

(** The export the settings ask for:
    [config.uigfVersion === '3.0' ? generateUigf30Json()
                                  : generateUigf41Json(config.uigfAllAccounts)] *)
Definition generateData : M value :=
  await c <- get_cfg;
  if String.eqb (uigfVersion c) "3.0"
  then call GenerationError EvGenerate (generateUigf30Json w)
  else call GenerationError EvGenerate
            (fun t => generateUigf41Json w t (uigfAllAccounts c)).

Definition no_local_metadata : value :=
  VObj [("exists", VBool false); ("localTimestamp", VNull); ("localHash", VNull);
        ("recordCount", VNum 0); ("data", VNull)].

Definition getLocalMetadata : M value :=
  try_catch
    (await data <- generateData;
     let content := match JSON_stringify data with Some s => VStr s | None => VUndef end in
     await c <- get_cfg;
     await localTimestamp <-
       (if truthy (googleDriveLastSync c) then ret (googleDriveLastSync c)
        else await now <- read_clock (Date_now w); ret (VNum now));
     await localHash <- lift (calculateHash content);
     await recordCount <- lift (countRecords data);
     ret (VObj [("exists", VBool true); ("localTimestamp", localTimestamp);
                ("localHash", VStr localHash); ("recordCount", VNum recordCount);
                ("data", data)]))
    (fun _ => ret no_local_metadata).

(** [fs.writeJson(path, data, { spaces: 2 })]: the file named [name] of the
    backup directory now holds [data]; a document that [JSON.stringify]
    maps to [undefined] makes it throw. The file system itself is taken
    not to fail. *)
Definition writeJson (name : string) (data : value) : M unit :=
  fun st =>
    match JSON_stringify data with
    | None =>
        (Rejected (error TypeError
                     "Cannot read properties of undefined (reading 'replace')"), st)
    | Some _ =>
        (Fulfilled tt,
         emit (EvWriteBackup name) (set_backupDir (<[name := data]> (backupDir st)) st))
    end.

Definition readdir : M (list string) :=
  fun st => (Fulfilled (elements (dom (backupDir st))), st).

Definition remove (name : string) : M unit :=
  fun st =>
    (Fulfilled tt,
     emit (EvRemoveBackup name) (set_backupDir (delete name (backupDir st)) st)).

(** [for (let i = 10; i < backups.length; i++) await fs.remove(backups[i])],
    given [backups.slice(10)]. *)
Fixpoint remove_each (names : list string) : M unit :=
  match names with
  | [] => ret tt
  | name :: rest => perform remove name; remove_each rest
  end.

Definition backup_dir_path : string := path_join (userDataPath w) "cloud-sync-backups".

Definition backupFileName (iso : string) : string :=
  "backup_" +:+ replace_colon_dot iso +:+ ".json".

(** Returns the path of the new backup, or [null]. *)
Definition createLocalBackup : M value :=
  try_catch
    (await iso <- read_clock (Date_toISOString w);
     let backupPath := path_join backup_dir_path (backupFileName iso) in
     await data <- generateData;
     perform writeJson (backupFileName iso) data;
     await files <- readdir;
     perform remove_each (drop 10 (sorted_backups files));
     ret (VStr backupPath))
    (fun _ => ret VNull).

Definition stamp_lastSync : M unit :=
  await now <- read_clock (Date_now w);
  await c <- get_cfg;
  perform set_cfg (with_lastSync c (VNum now));
  config_save_call.

Definition uploadToCloud (fuel : nat) : M value :=
  await data <- generateData;
  await clientId <- getClientId;
  await timestamp <- read_clock (Date_now w);
  await dataHash <- lift (calculateHash data);
  let payload :=
    VObj [("action", VStr "upload");
          ("schemaVersion", VNum SCHEMA_VERSION);
          ("appVersion", VStr (APP_VERSION w));
          ("clientId", VStr clientId);
          ("timestamp", VNum timestamp);
          ("dataHash", VStr dataHash);
          ("payload", data)] in
  await response <- makeRequest fuel payload None;
  perform check_status response;
  perform stamp_lastSync;
  ret response.

(** Lines 272-285 of the module: the import, chosen by the payload's shape. *)
Definition import_payload (data : value) : M unit :=
  if truthy data && truthy (prop data "info") then
    if truthy (prop data "hk4e") then
      call ImportError (EvImport41 data) (fun t => importUgif41Json w t data)
    else if truthy (prop data "list") then
      call ImportError (EvImport30 data) (fun t => importUgif30Json w t data)
    else throw (error UnrecognizedFormatError "Invalid data format")
  else throw (error UnrecognizedFormatError "Invalid data format: missing info field").

Definition incompatible_version : exn :=
  error IncompatibleVersionError
        "Incompatible data format version. Please update the application.".

(** What [downloadFromCloud] does with the response it received. *)
Definition accept_download (response : value) : M value :=
  perform check_status response;
  if negb (truthy (prop response "payload")) then
    throw (error MalformedResponseError "No data payload in response")
  else if truthy (prop response "schemaVersion")
          && js_gt (prop response "schemaVersion") SCHEMA_VERSION then
    throw incompatible_version
  else
    perform import_payload (prop response "payload");
    perform stamp_lastSync;
    ret response.

Definition downloadFromCloud (fuel : nat) : M value :=
  await response <- makeRequest fuel download_request None;
  accept_download response.

(** [formatTimestamp] *)
Definition formatTimestamp (ts : value) : string :=
  if negb (truthy ts) then "Never" else toLocaleString w ts.

(** ** IPC handlers *)

Definition degraded (e : exn) : value :=
  VObj [("exists", VBool false); ("error", VStr (message e))].

(** The object built from the two metadata values, lines 315-332. *)
Definition comparison (cloudMeta localMeta : value) : res value :=
  res_bind (get_prop cloudMeta "exists") (fun cloudExists =>
  res_bind (get_prop localMeta "exists") (fun localExists =>
    Ok (VObj
      [("status", VStr "ok");
       ("cloud", VObj
          [("exists", js_or cloudExists (VBool false));
           ("timestamp", prop cloudMeta "cloudTimestamp");
           ("timestampFormatted", VStr (formatTimestamp (prop cloudMeta "cloudTimestamp")));
           ("hash", prop cloudMeta "cloudHash");
           ("recordCount", js_or (prop cloudMeta "recordCount") (VNum 0))]);
       ("local", VObj
          [("exists", js_or localExists (VBool false));
           ("timestamp", prop localMeta "localTimestamp");
           ("timestampFormatted", VStr (formatTimestamp (prop localMeta "localTimestamp")));
           ("hash", prop localMeta "localHash");
           ("recordCount", js_or (prop localMeta "recordCount") (VNum 0))]);
       ("hasConflict",
        js_and cloudExists
               (js_and localExists
                       (VBool (negb (strict_eq (prop cloudMeta "cloudHash")
                                               (prop localMeta "localHash"))))))]))).

(** The two fetches of [Promise.all], each with its own [catch]; they share
    no state, and are run here one after the other. *)
Definition fetch_cloud (fuel : nat) : M value :=
  try_catch (getCloudMetadata fuel) (fun e => ret (degraded e)).

Definition fetch_local : M value :=
  try_catch getLocalMetadata (fun e => ret (degraded e)).

Definition CLOUD_SYNC_GET_METADATA (fuel : nat) : M value :=
  try_catch
    (await cloudMeta <- fetch_cloud fuel;
     await localMeta <- fetch_local;
     lift (comparison cloudMeta localMeta))
    (fun e => ret (error_result e)).

Definition CLOUD_SYNC_UPLOAD (fuel : nat) : M value :=
  try_catch
    (await result <- uploadToCloud fuel;
     ret (VObj [("status", VStr "ok");
                ("cloudTimestamp", prop result "cloudTimestamp");
                ("recordCount", prop result "recordCount")]))
    (fun e => ret (error_result e)).

Definition CLOUD_SYNC_DOWNLOAD (fuel : nat) : M value :=
  try_catch
    (await backupPath <- createLocalBackup;
     try_catch
       (await result <- downloadFromCloud fuel;
        ret (VObj [("status", VStr "ok");
                   ("cloudTimestamp", prop result "cloudTimestamp");
                   ("recordCount", prop result "recordCount");
                   ("backupPath", backupPath)]))
       (fun importError =>
          ret (VObj [("status", VStr "error");
                     ("error", VStr (message importError));
                     ("backupPath", backupPath);
                     ("backupPreserved", VBool true)])))
    (fun e => ret (error_result e)).

(** The handlers kept for backward compatibility answer with a string. *)
Definition GOOGLE_DRIVE_AUTH : M value :=
  await c <- get_cfg;
  if negb (str_truthy (googleAppsScriptUrl c))
  then ret (VStr "Please enter the Apps Script URL in settings.")
  else ret (VStr "success").

Definition GOOGLE_DRIVE_UPLOAD (fuel : nat) : M value :=
  try_catch
    (perform uploadToCloud fuel; ret (VStr "success"))
    (fun e => ret (VStr (message e))).

Definition GOOGLE_DRIVE_DOWNLOAD (fuel : nat) : M value :=
  try_catch
    (perform createLocalBackup; perform downloadFromCloud fuel; ret (VStr "success"))
    (fun e => ret (VStr (message e))).

End MainProcess.

(** ** The Apps Script endpoint (GOOGLE_APPS_SCRIPT.gs) *)

Module AppsScript.

Definition FILE_NAME : string := "genshin-wish-export-data.json".
Definition BACKUP_FOLDER_NAME : string := "genshin-wish-export-backups".
Definition CURRENT_SCHEMA_VERSION : Z := 1.

Record file : Type := File {
  file_name : string;
  file_content : string;
  file_updated : Z;
  file_id : string
}.

(** The user's Drive, as far as the script looks at it: the files in the
    order in which [getFilesByName] enumerates them, and the backup folder
    once it exists. Drive calls are taken not to fail. *)
Record drive : Type := Drive {
  files : list file;
  backup_folder : option (list file);
  clock : nat
}.

(** Services of the Apps Script runtime. *)
Record services : Type := Services {
  JSON_parse : string -> answer value;
  computeDigest_SHA_256 : string -> list Z;
  Date_now : nat -> Z;
  formatDate : nat -> string;
  new_file_id : nat -> string;
  greater_than : value -> Z -> bool
}.

Definition Act (A : Type) : Type := drive -> res A * drive.

Definition sret {A} (a : A) : Act A := fun d => (Ok a, d).
Definition sthrow {A} (e : exn) : Act A := fun d => (Err e, d).
Definition sbind {A B} (m : Act A) (k : A -> Act B) : Act B :=
  fun d => match m d with
           | (Ok a, d') => k a d'
           | (Err e, d') => (Err e, d')
           end.
Definition slift {A} (r : res A) : Act A := fun d => (r, d).

Notation "'let*' x := m 'in' k" := (sbind m (fun x => k))
  (at level 10, x name, m at level 100, k at level 200).

Definition tock (d : drive) : drive :=
  {| files := files d; backup_folder := backup_folder d; clock := S (clock d) |}.

Definition now {A} (oracle : nat -> A) : Act A :=
  fun d => (Ok (oracle (clock d)), tock d).

Section Script.

Variable sv : services.

Definition js_gt (a : value) (n : Z) : bool :=
  match a with
  | VUndef => false
  | VNull => n <? 0
  | VBool b => n <? (if b then 1 else 0)
  | VNum x => n <? x
  | VStr _ | VArr _ | VObj _ => greater_than sv a n
  end.

(** [getDataFile]: the first file of that name, or [null]. *)
Definition getDataFile (d : drive) : option file :=
  List.find (fun f => String.eqb (file_name f) FILE_NAME) (files d).

(** [n.toString(16)] for a byte. *)
Definition byte_to_hex (n : Z) : string :=
  if n <? 16 then String (hex_digit (Z.to_N n)) EmptyString
  else String (hex_digit (Z.to_N (n / 16)))
              (String (hex_digit (Z.to_N (n mod 16))) EmptyString).

(** [s.slice(-2)] *)
Definition last_two (s : string) : string :=
  String.substring (String.length s - 2) 2 s.

Definition calculateHash (content : string) : string :=
  join EmptyString
       (map (fun byte => last_two ("0" +:+ byte_to_hex (Z.land byte 255)))
            (computeDigest_SHA_256 sv content)).

Definition parse (content : string) : Act value :=
  match JSON_parse sv content with
  | Returns v => sret v
  | Throws msg c => sthrow {| kind := ResponseFormatError; message := msg; code := c |}
  end.

Definition getMetadata : Act value :=
  fun d =>
    match getDataFile d with
    | None =>
        (Ok (VObj [("status", VStr "ok"); ("exists", VBool false);
                   ("cloudTimestamp", VNull); ("cloudHash", VNull);
                   ("recordCount", VNum 0)]), d)
    | Some f =>
        (let* data := parse (file_content f) in
         let* recordCount := slift (countRecords data) in
         let* version := slift (get_prop data "_schemaVersion") in
         sret (VObj [("status", VStr "ok"); ("exists", VBool true);
                     ("cloudTimestamp", VNum (file_updated f));
                     ("cloudHash", VStr (calculateHash (file_content f)));
                     ("recordCount", VNum recordCount);
                     ("schemaVersion", js_or version (VNum 1))])) d
    end.

(** [getBackupFolder]: the folder, created empty when missing. *)
Definition getBackupFolder : Act (list file) :=
  fun d =>
    match backup_folder d with
    | Some folder => (Ok folder, d)
    | None =>
        (Ok [], {| files := files d; backup_folder := Some []; clock := clock d |})
    end.

(** [createBackupOfFile]: the folder gets a copy named after the current
    time. *)
Definition createBackupOfFile (f : file) : Act file :=
  fun d0 =>
    let '(_, d) := getBackupFolder d0 in
    let folder := default [] (backup_folder d) in
    let backup :=
      {| file_name := "backup_" +:+ formatDate sv (clock d) +:+ "_" +:+ FILE_NAME;
         file_content := file_content f;
         file_updated := Date_now sv (clock d);
         file_id := new_file_id sv (clock d) |} in
    (Ok backup,
     tock {| files := files d; backup_folder := Some (folder ++ [backup])%list;
             clock := clock d |}).

(** [existingFile.setContent(content)] *)
Definition setContent (content : string) : Act file :=
  fun d =>
    let updated (f : file) :=
      {| file_name := file_name f; file_content := content;
         file_updated := Date_now sv (clock d); file_id := file_id f |} in
    match getDataFile d with
    | Some f =>
        (Ok (updated f),
         tock {| files := (fix go (l : list file) :=
                             match l with
                             | [] => []
                             | g :: l' =>
                                 if String.eqb (file_name g) FILE_NAME
                                 then updated g :: l' else g :: go l'
                             end) (files d);
                 backup_folder := backup_folder d; clock := clock d |})
    | None => (Err (error DriveApiError "No such file"), d)
    end.

(** [DriveApp.createFile(FILE_NAME, content, MimeType.PLAIN_TEXT)] *)
Definition createFile (content : string) : Act file :=
  fun d =>
    let f := {| file_name := FILE_NAME; file_content := content;
                file_updated := Date_now sv (clock d);
                file_id := new_file_id sv (clock d) |} in
    (Ok f, tock {| files := (files d ++ [f])%list; backup_folder := backup_folder d;
                   clock := clock d |}).

Definition error_response (msg : string) : value :=
  VObj [("status", VStr "error"); ("error", VStr msg)].

(** The four provenance fields the script writes into the payload. *)
Definition stamp (request : value) (uploadTimestamp : Z) (payload : value) : res value :=
  res_bind (set_prop payload "_schemaVersion" (VNum CURRENT_SCHEMA_VERSION)) (fun p1 =>
  res_bind (set_prop p1 "_uploadTimestamp" (VNum uploadTimestamp)) (fun p2 =>
  res_bind (set_prop p2 "_clientId" (js_or (prop request "clientId") (VStr "unknown"))) (fun p3 =>
  set_prop p3 "_appVersion" (js_or (prop request "appVersion") (VStr "unknown"))))).

Definition uploadData (request : value) : Act value :=
  let* schemaVersion := slift (get_prop request "schemaVersion") in
  if truthy schemaVersion && js_gt schemaVersion CURRENT_SCHEMA_VERSION then
    sret (error_response "Incompatible schema version. Please update the Apps Script.")
  else
    let payload := prop request "payload" in
    if negb (truthy payload) then
      sret (error_response "Missing payload in upload request")
    else
      let* uploadTimestamp := now (Date_now sv) in
      let* payload := slift (stamp request uploadTimestamp payload) in
      match JSON_stringify payload with
      | None => sthrow (error TypeError "Cannot convert undefined to a string")
      | Some content =>
          let hash := calculateHash content in
          fun d =>
            match getDataFile d with
            | Some existingFile =>
                (let* _ := createBackupOfFile existingFile in
                 let* f := setContent content in
                 let* recordCount := slift (countRecords payload) in
                 sret (VObj [("status", VStr "ok");
                             ("cloudTimestamp", VNum (file_updated f));
                             ("cloudHash", VStr hash);
                             ("recordCount", VNum recordCount);
                             ("fileId", VStr (file_id f))])) d
            | None =>
                (let* f := createFile content in
                 let* recordCount := slift (countRecords payload) in
                 sret (VObj [("status", VStr "ok");
                             ("cloudTimestamp", VNum (file_updated f));
                             ("cloudHash", VStr hash);
                             ("recordCount", VNum recordCount);
                             ("fileId", VStr (file_id f))])) d
            end
      end.

Definition downloadData : Act value :=
  fun d =>
    match getDataFile d with
    | None =>
        (Ok (VObj [("status", VStr "error");
                   ("error", VStr "No data file found in cloud storage");
                   ("exists", VBool false)]), d)
    | Some f =>
        (let* data := parse (file_content f) in
         let* recordCount := slift (countRecords data) in
         let* version := slift (get_prop data "_schemaVersion") in
         sret (VObj [("status", VStr "ok");
                     ("cloudTimestamp", VNum (file_updated f));
                     ("cloudHash", VStr (calculateHash (file_content f)));
                     ("recordCount", VNum recordCount);
                     ("schemaVersion", js_or version (VNum 1));
                     ("payload", data)])) d
    end.

Definition createBackup : Act value :=
  fun d =>
    match getDataFile d with
    | None =>
        (Ok (VObj [("status", VStr "ok"); ("message", VStr "No file to backup");
                   ("backupCreated", VBool false)]), d)
    | Some f =>
        (let* backupFile := createBackupOfFile f in
         sret (VObj [("status", VStr "ok"); ("backupCreated", VBool true);
                     ("backupFileName", VStr (file_name backupFile));
                     ("backupFileId", VStr (file_id backupFile))])) d
    end.

(** [err.toString()]: the name of the error class, then the message. *)
Definition err_toString (e : exn) : string :=
  (match kind e with
   | TypeError => "TypeError"
   | ResponseFormatError => "SyntaxError"
   | DriveApiError => "Exception"
   | _ => "Error"
   end) +:+ ": " +:+ message e.

(** [jsonResponse]: the text output of the answer. *)
Definition jsonResponse (data : value) : option string := JSON_stringify data.

(** [doPost], from the text of the request body to the text of the answer. *)
Definition doPost (contents : string) (d : drive) : option string * drive :=
  let handled :=
    (let* request := parse contents in
     let* action := slift (get_prop request "action") in
     if strict_eq action (VStr "metadata") then getMetadata
     else if strict_eq action (VStr "upload") then uploadData request
     else if strict_eq action (VStr "download") then downloadData
     else if strict_eq action (VStr "backup") then createBackup
     else sret (error_response ("Invalid action: " +:+ js_to_string action))) d in
  match handled with
  | (Ok response, d') => (jsonResponse response, d')
  | (Err e, d') => (jsonResponse (error_response (err_toString e)), d')
  end.

(** [doGet]: the metadata, whatever the request. *)
Definition doGet (d : drive) : option string * drive :=
  match getMetadata d with
  | (Ok response, d') => (jsonResponse response, d')
  | (Err e, d') => (jsonResponse (error_response (err_toString e)), d')
  end.

End Script.

(** Removing the provenance fields again, for comparisons of content. *)
Definition strip_provenance (v : value) : value :=
  match v with
  | VObj fs =>
      VObj (remove_field "_schemaVersion"
             (remove_field "_uploadTimestamp"
               (remove_field "_clientId"
                 (remove_field "_appVersion" fs))))
  | _ => v
  end.

End AppsScript.

(** ** The OAuth based module and its handlers *)

Module LegacyDrive.

(** The googleapis client and the OAuth round trip through the browser.
    [oauth_flow] answers [None] when the browser never calls back. *)
Record drive_api : Type := DriveApi {
  oauth_flow : nat -> option (answer string);
  files_update : nat -> string -> string -> option string -> answer unit;
  files_create : nat -> string -> option string -> answer string;
  files_get : nat -> string -> answer value
}.

Section Module_.

Variable w : world.
Variable api : drive_api.

Definition getAuthClient : M unit :=
  await c <- get_cfg;
  if negb (str_truthy (googleClientId c)) || negb (str_truthy (googleClientSecret c))
  then throw (error ConfigurationError
                    "Please set Google Client ID and Secret in settings.")
  else ret tt.

Definition with_refreshToken (c : config) (t : string) : config :=
  {| googleAppsScriptUrl := googleAppsScriptUrl c;
     cloudSyncClientId := cloudSyncClientId c;
     googleDriveLastSync := googleDriveLastSync c;
     uigfVersion := uigfVersion c;
     uigfAllAccounts := uigfAllAccounts c;
     googleClientId := googleClientId c;
     googleClientSecret := googleClientSecret c;
     googleRefreshToken := t;
     googleDriveFileId := googleDriveFileId c |}.

Definition authenticate : M unit :=
  perform getAuthClient;
  fun st =>
    match oauth_flow api (tick st) with
    | None => (Unsettled, advance (emit (EvDriveApi "oauth") st))
    | Some a =>
        (await token <- call DriveApiError (EvDriveApi "oauth") (fun _ => a);
         await c <- get_cfg;
         perform set_cfg (with_refreshToken c token);
         config_save_call w) st
    end.

Definition getDriveClient : M unit :=
  perform getAuthClient;
  await c <- get_cfg;
  if str_truthy (googleRefreshToken c) then ret tt
  else throw (error ConfigurationError "Not authenticated. Please auth first.").

(** [err.code === 404] *)
Definition code_is_404 (e : exn) : bool :=
  match code e with Some c => c =? 404 | None => false end.

Fixpoint uploadFile (fuel : nat) : M value :=
  match fuel with
  | O => never
  | S fuel' =>
      perform getDriveClient;
      await data <- call GenerationError EvGenerate (generateUigf30Json w);
      await info <- lift (get_prop data "info");
      await uid <- lift (get_prop info "uid");
      let name := "genshin-wish-export-data-" +:+ js_to_string uid +:+ ".json" in
      let body := JSON_stringify data in
      try_catch
        (await c <- get_cfg;
         perform
           (if str_truthy (googleDriveFileId c) then
              call DriveApiError (EvDriveApi "files.update")
                   (fun t => files_update api t (googleDriveFileId c) name body)
            else
              await id <- call DriveApiError (EvDriveApi "files.create")
                               (fun t => files_create api t name body);
              await c' <- get_cfg;
              perform set_cfg (with_fileId c' id);
              config_save_call w);
         ret (VStr "success"))
        (fun err =>
           await c <- get_cfg;
           if code_is_404 err && str_truthy (googleDriveFileId c) then
             perform set_cfg (with_fileId c EmptyString);
             uploadFile fuel'
           else throw err)
  end.

Definition downloadFile : M value :=
  perform getDriveClient;
  await c <- get_cfg;
  if negb (str_truthy (googleDriveFileId c)) then
    throw (error ConfigurationError "No synced file found.")
  else
    await data <- call DriveApiError (EvDriveApi "files.get")
                       (fun t => files_get api t (googleDriveFileId c));
    if truthy data && truthy (prop data "info") && truthy (prop data "list") then
      perform call ImportError (EvImport30 data) (fun t => importUgif30Json w t data);
      ret (VStr "success")
    else throw (error UnrecognizedFormatError "Invalid file format from Drive").

Definition GOOGLE_DRIVE_AUTH : M value :=
  try_catch (perform authenticate; ret (VStr "success"))
            (fun e => ret (VStr (message e))).

Definition GOOGLE_DRIVE_UPLOAD (fuel : nat) : M value :=
  try_catch (uploadFile fuel) (fun e => ret (VStr (message e))).

Definition GOOGLE_DRIVE_DOWNLOAD : M value :=
  try_catch downloadFile (fun e => ret (VStr (message e))).

End Module_.

End LegacyDrive.

(** ** The settings view (Setting.vue): the cloud-sync functions

    The view talks to the main process through [ipcRenderer.invoke] only,
    which is an oracle here, as are the clock, the texts of [cloudSync]
    and the [toLocaleString] of the engine.  Of an error the view reads
    nothing but its [message]. *)

Module SettingView.

Inductive shown : Type :=
| Invoke (channel : string) (args : list value)   (* ipcRenderer.invoke *)
| Message (level : string) (text : value)         (* ElMessage.error, ... *)
| Emit (name : string).                           (* emit('close'), ... *)

(** [cloudSyncState], [cloudSyncDialog] and [settingForm]. *)
Record view : Type := View {
  loading : bool;
  uploading : bool;
  downloading : bool;
  dialog_visible : bool;
  dialog_action : string;
  dialog_hasConflict : value;
  dialog_comparisonData : value;
  dialog_metadata : value;
  settingForm : list (string * value);
  moment : nat;
  trace : list shown
}.

(** [invoke] answers [None] when the promise is never settled. *)
Record renderer : Type := Renderer {
  invoke : nat -> string -> list value -> option (answer value);
  Date_now : nat -> Z;
  cloudSync : string -> value;
  toLocaleString : value -> string
}.

Inductive result (A : Type) : Type :=
| Done (a : A)
| Thrown (message : string)
| Pending.
Arguments Done {A} a.
Arguments Thrown {A} message.
Arguments Pending {A}.

Definition V (A : Type) : Type := view -> result A * view.

Definition vret {A} (a : A) : V A := fun v => (Done a, v).
Definition vthrow {A} (msg : string) : V A := fun v => (Thrown msg, v).

Definition vbind {A B} (m : V A) (k : A -> V B) : V B :=
  fun v =>
    match m v with
    | (Done a, v') => k a v'
    | (Thrown msg, v') => (Thrown msg, v')
    | (Pending, v') => (Pending, v')
    end.

Notation "'wait' x <- m ; k" := (vbind m (fun x => k))
  (at level 10, x name, m at level 100, k at level 200).
Notation "'run' m ; k" := (vbind m (fun _ => k))
  (at level 10, m at level 100, k at level 200).

Definition vlift {A} (r : res A) : V A :=
  match r with Ok a => vret a | Err e => vthrow (message e) end.

(** [try { body } catch (e) { handler e.message } finally { after }] *)
Definition try_catch_finally {A} (body : V A) (handler : string -> V A)
    (after : view -> view) : V A :=
  fun v =>
    match body v with
    | (Done a, v') => (Done a, after v')
    | (Thrown msg, v') =>
        match handler msg v' with
        | (Pending, v'') => (Pending, v'')
        | (r, v'') => (r, after v'')
        end
    | (Pending, v') => (Pending, v')
    end.

Definition modify (f : view -> view) : V unit := fun v => (Done tt, f v).

Definition note (ev : shown) (v : view) : view :=
  {| loading := loading v; uploading := uploading v; downloading := downloading v;
     dialog_visible := dialog_visible v; dialog_action := dialog_action v;
     dialog_hasConflict := dialog_hasConflict v;
     dialog_comparisonData := dialog_comparisonData v;
     dialog_metadata := dialog_metadata v; settingForm := settingForm v;
     moment := moment v; trace := (trace v ++ [ev])%list |}.

Definition later (v : view) : view :=
  {| loading := loading v; uploading := uploading v; downloading := downloading v;
     dialog_visible := dialog_visible v; dialog_action := dialog_action v;
     dialog_hasConflict := dialog_hasConflict v;
     dialog_comparisonData := dialog_comparisonData v;
     dialog_metadata := dialog_metadata v; settingForm := settingForm v;
     moment := S (moment v); trace := trace v |}.

Definition set_loading (b : bool) (v : view) : view :=
  {| loading := b; uploading := uploading v; downloading := downloading v;
     dialog_visible := dialog_visible v; dialog_action := dialog_action v;
     dialog_hasConflict := dialog_hasConflict v;
     dialog_comparisonData := dialog_comparisonData v;
     dialog_metadata := dialog_metadata v; settingForm := settingForm v;
     moment := moment v; trace := trace v |}.

Definition set_uploading (b : bool) (v : view) : view :=
  {| loading := loading v; uploading := b; downloading := downloading v;
     dialog_visible := dialog_visible v; dialog_action := dialog_action v;
     dialog_hasConflict := dialog_hasConflict v;
     dialog_comparisonData := dialog_comparisonData v;
     dialog_metadata := dialog_metadata v; settingForm := settingForm v;
     moment := moment v; trace := trace v |}.

Definition set_downloading (b : bool) (v : view) : view :=
  {| loading := loading v; uploading := uploading v; downloading := b;
     dialog_visible := dialog_visible v; dialog_action := dialog_action v;
     dialog_hasConflict := dialog_hasConflict v;
     dialog_comparisonData := dialog_comparisonData v;
     dialog_metadata := dialog_metadata v; settingForm := settingForm v;
     moment := moment v; trace := trace v |}.

Definition set_visible (b : bool) (v : view) : view :=
  {| loading := loading v; uploading := uploading v; downloading := downloading v;
     dialog_visible := b; dialog_action := dialog_action v;
     dialog_hasConflict := dialog_hasConflict v;
     dialog_comparisonData := dialog_comparisonData v;
     dialog_metadata := dialog_metadata v; settingForm := settingForm v;
     moment := moment v; trace := trace v |}.

Definition set_action (a : string) (v : view) : view :=
  {| loading := loading v; uploading := uploading v; downloading := downloading v;
     dialog_visible := dialog_visible v; dialog_action := a;
     dialog_hasConflict := dialog_hasConflict v;
     dialog_comparisonData := dialog_comparisonData v;
     dialog_metadata := dialog_metadata v; settingForm := settingForm v;
     moment := moment v; trace := trace v |}.

Definition set_hasConflict (x : value) (v : view) : view :=
  {| loading := loading v; uploading := uploading v; downloading := downloading v;
     dialog_visible := dialog_visible v; dialog_action := dialog_action v;
     dialog_hasConflict := x;
     dialog_comparisonData := dialog_comparisonData v;
     dialog_metadata := dialog_metadata v; settingForm := settingForm v;
     moment := moment v; trace := trace v |}.

Definition set_comparisonData (x : value) (v : view) : view :=
  {| loading := loading v; uploading := uploading v; downloading := downloading v;
     dialog_visible := dialog_visible v; dialog_action := dialog_action v;
     dialog_hasConflict := dialog_hasConflict v;
     dialog_comparisonData := x;
     dialog_metadata := dialog_metadata v; settingForm := settingForm v;
     moment := moment v; trace := trace v |}.

Definition set_metadata (x : value) (v : view) : view :=
  {| loading := loading v; uploading := uploading v; downloading := downloading v;
     dialog_visible := dialog_visible v; dialog_action := dialog_action v;
     dialog_hasConflict := dialog_hasConflict v;
     dialog_comparisonData := dialog_comparisonData v;
     dialog_metadata := x; settingForm := settingForm v;
     moment := moment v; trace := trace v |}.

Definition set_form (k : string) (x : value) (v : view) : view :=
  {| loading := loading v; uploading := uploading v; downloading := downloading v;
     dialog_visible := dialog_visible v; dialog_action := dialog_action v;
     dialog_hasConflict := dialog_hasConflict v;
     dialog_comparisonData := dialog_comparisonData v;
     dialog_metadata := dialog_metadata v;
     settingForm := assign_field k x (settingForm v);
     moment := moment v; trace := trace v |}.

Section View.

Variable r : renderer.

(** [await ipcRenderer.invoke(channel, ...args)] *)
Definition ipc (channel : string) (args : list value) : V value :=
  fun v =>
    let v' := later (note (Invoke channel args) v) in
    match invoke r (moment v) channel args with
    | None => (Pending, v')
    | Some (Returns a) => (Done a, v')
    | Some (Throws msg _) => (Thrown msg, v')
    end.

Definition message_box (level : string) (text : value) : V unit :=
  modify (note (Message level text)).

Definition emit_event (name : string) : V unit := modify (note (Emit name)).

Definition now : V value :=
  fun v => (Done (VNum (Date_now r (moment v))), later v).

Definition keys : list string :=
  ["lang"; "logType"; "proxyMode"; "autoUpdate"; "fetchFullHistory"; "hideNovice";
   "gistsToken"; "readableJSON"; "googleAppsScriptUrl"; "googleDriveLastSync"].

(** The loop of [saveSetting]. *)
Fixpoint save_keys (ks : list string) : V unit :=
  match ks with
  | [] => vret tt
  | key :: rest =>
      run (fun v =>
             ipc "SAVE_CONFIG"
                 [VArr [VStr key; default VUndef (lookup_field key (settingForm v))]] v);
      save_keys rest
  end.

Definition saveSetting : V unit := save_keys keys.

Definition closeSetting : V unit := emit_event "close".

(** [e.message || cloudSync.value.networkError] *)
Definition shown_error (msg : string) : value :=
  js_or (VStr msg) (cloudSync r "networkError").

(** [x.toLocaleString()] *)
Definition call_toLocaleString (x : value) : V value :=
  match x with
  | VUndef | VNull => vthrow (message (cannot_read x "toLocaleString"))
  | _ => vret (VStr (toLocaleString r x))
  end.

(** [settingForm.googleDriveLastSync = result.cloudTimestamp || Date.now()] *)
Definition record_sync (result : value) : V unit :=
  wait ts <- (if truthy (prop result "cloudTimestamp")
              then vret (prop result "cloudTimestamp") else now);
  modify (set_form "googleDriveLastSync" ts).

Definition performUpload : V unit :=
  run modify (set_uploading true);
  try_catch_finally
    (wait result <- ipc "CLOUD_SYNC_UPLOAD" [];
     wait status <- vlift (get_prop result "status");
     if strict_eq status (VStr "error") then
       message_box "error" (prop result "error")
     else
       run record_sync result;
       run saveSetting;
       message_box "success" (cloudSync r "uploadSuccess"))
    (fun msg => message_box "error" (shown_error msg))
    (set_uploading false).

Definition performDownload : V unit :=
  run modify (set_downloading true);
  try_catch_finally
    (wait result <- ipc "CLOUD_SYNC_DOWNLOAD" [];
     wait status <- vlift (get_prop result "status");
     if strict_eq status (VStr "error") then
       message_box "error" (prop result "error")
     else
       run record_sync result;
       run saveSetting;
       run message_box "success" (cloudSync r "downloadSuccess");
       run emit_event "dataUpdated";
       closeSetting)
    (fun msg => message_box "error" (shown_error msg))
    (set_downloading false).

(** The two rows of the comparison table. *)
Definition comparisonData (result : value) : V value :=
  wait local <- vlift (get_prop result "local");
  wait localFormatted <- vlift (get_prop local "timestampFormatted");
  wait cloud <- vlift (get_prop result "cloud");
  wait cloudFormatted <- vlift (get_prop cloud "timestampFormatted");
  wait localCount <- call_toLocaleString (prop local "recordCount");
  wait cloudCount <- call_toLocaleString (prop cloud "recordCount");
  vret (VArr [VObj [("label", cloudSync r "lastModified");
                    ("local", localFormatted); ("cloud", cloudFormatted)];
              VObj [("label", cloudSync r "recordCount");
                    ("local", localCount); ("cloud", cloudCount)]]).

(** The dialog is filled in and shown. *)
Definition open_dialog (action : string) (result : value) : V unit :=
  run modify (set_action action);
  run modify (set_hasConflict (prop result "hasConflict"));
  run modify (set_metadata result);
  wait rows <- comparisonData result;
  run modify (set_comparisonData rows);
  modify (set_visible true).

Definition handleCloudUpload : V unit :=
  run modify (set_loading true);
  try_catch_finally
    (wait result <- ipc "CLOUD_SYNC_GET_METADATA" [];
     wait status <- vlift (get_prop result "status");
     if strict_eq status (VStr "error") then
       message_box "error" (js_or (prop result "error") (cloudSync r "networkError"))
     else
       wait cloud <- vlift (get_prop result "cloud");
       wait exists_ <- vlift (get_prop cloud "exists");
       if truthy exists_ then open_dialog "upload" result
       else performUpload)
    (fun msg => message_box "error" (shown_error msg))
    (set_loading false).

Definition handleCloudDownload : V unit :=
  run modify (set_loading true);
  try_catch_finally
    (wait result <- ipc "CLOUD_SYNC_GET_METADATA" [];
     wait status <- vlift (get_prop result "status");
     if strict_eq status (VStr "error") then
       message_box "error" (js_or (prop result "error") (cloudSync r "networkError"))
     else
       wait cloud <- vlift (get_prop result "cloud");
       wait exists_ <- vlift (get_prop cloud "exists");
       if negb (truthy exists_) then
         message_box "warning" (cloudSync r "noCloudData")
       else open_dialog "download" result)
    (fun msg => message_box "error" (shown_error msg))
    (set_loading false).

Definition confirmCloudUpload : V unit :=
  run modify (set_visible false); performUpload.

Definition confirmCloudDownload : V unit :=
  run modify (set_visible false); performDownload.

End View.

End SettingView.

(** ** Concrete environments, for the examples *)

Definition two_digits (n : nat) : string :=
  (if (n <? 10)%nat then "0" else EmptyString) +:+ Z_to_string (Z.of_nat n).

Definition demo_config : config :=
  {| googleAppsScriptUrl := "https://script.example/exec";
     cloudSyncClientId := "client-1";
     googleDriveLastSync := VNum 1700000000000;
     uigfVersion := "3.0";
     uigfAllAccounts := VBool false;
     googleClientId := "id";
     googleClientSecret := "secret";
     googleRefreshToken := "token";
     googleDriveFileId := "file-1" |}.

Definition demo_state : state :=
  {| cfg := demo_config; backupDir := ∅; tick := 0%nat; log := [] |}.

Definition parse_with_reference (s : string) : answer value :=
  match JSONRef.parse s with
  | Ok v => Returns v
  | Err e => Throws (message e) None
  end.

(** A world given by its network, its export and its import; URLs are
    their own path, a [Location] is taken as the next URL. *)
Definition demo_world (network : nat -> request -> net_reply)
    (export : answer value) (import : value -> answer unit) : world :=
  {| JSON_parse := parse_with_reference;
     URL_parse := fun u => Some ("script.example", u);
     URL_resolve := fun location _ => Some location;
     net := network;
     generateUigf30Json := fun _ => export;
     generateUigf41Json := fun _ _ => export;
     importUgif41Json := fun _ => import;
     importUgif30Json := fun _ => import;
     config_save := fun _ _ => Returns tt;
     Date_now := fun t => 1700000000000 + Z.of_nat t;
     Date_toISOString := fun t => "2024-05-01T10:00:" +:+ two_digits t +:+ ".000Z";
     toLocaleString := js_to_string;
     randomUUID := fun _ => "00000000-0000-4000-8000-000000000000";
     greater_than := fun _ _ => false;
     APP_VERSION := "0.13.4";
     userDataPath := "/home/user/.config/app/userData" |}.

(** A network that answers every request with one 200 response. *)
Definition answering (body : string) : nat -> request -> net_reply :=
  fun _ _ => NetResponse 200 None body.

(** A network that redirects the first [n] requests and then answers. *)
Definition redirecting (n : nat) (body : string) : nat -> request -> net_reply :=
  fun t _ => if (t <? n)%nat
             then NetResponse 302 (Some ("/hop" +:+ two_digits t)) EmptyString
             else NetResponse 200 None body.

(** A network that redirects for ever. *)
Definition looping : nat -> request -> net_reply :=
  fun _ _ => NetResponse 302 (Some "/again") EmptyString.

Definition refusing : nat -> request -> net_reply :=
  fun _ _ => NetError "connect ECONNREFUSED".

Definition no_data : answer value := Throws "No data" None.

Definition accepting : value -> answer unit := fun _ => Returns tt.

Arguments js_gt : simpl never.

(** ** Notions used in the statements *)

(** *** Events *)

Definition is_request (ev : event) : Prop := exists rq, ev = EvRequest rq.

Definition is_import (ev : event) : Prop :=
  match ev with
  | EvImport41 _ | EvImport30 _ => True
  | _ => False
  end.

(** What [createLocalBackup] may do to the outside. *)
Definition backup_event (ev : event) : Prop :=
  match ev with
  | EvGenerate | EvWriteBackup _ | EvRemoveBackup _ => True
  | _ => False
  end.

(** *** The time of the last sync *)

Definition save_keeps (v : value) (ev : event) : Prop :=
  match ev with
  | EvSave c => googleDriveLastSync c = v
  | _ => True
  end.

(** From [st] to [st'] the time stamp was neither changed in memory nor
    written out with another value. *)
Definition keeps_sync (st st' : state) : Prop :=
  googleDriveLastSync (cfg st') = googleDriveLastSync (cfg st) /\
  exists evs, log st' = (log st ++ evs)%list /\
              Forall (save_keeps (googleDriveLastSync (cfg st))) evs.

(** *** What a handler resolves to *)

(** The result shape of the [CLOUD_SYNC_*] operations. *)
Definition normalized (v : value) : Prop :=
  prop v "status" = VStr "ok" \/
  (prop v "status" = VStr "error" /\ exists msg, prop v "error" = VStr msg).

Definition bare_string (v : value) : Prop := exists s, v = VStr s.

(** The promise is not rejected, and if fulfilled its value satisfies [P]. *)
Definition resolves_with (P : value -> Prop) (r : outcome value * state) : Prop :=
  match fst r with
  | Fulfilled v => P v
  | Rejected _ => False
  | Unsettled => True
  end.

Definition settles {A} (m : M A) : Prop := forall st, fst (m st) <> Unsettled.

(** *** Backups in a row *)

Definition str_ge : relation string := flip str_le.

(** Insertion into a descending list. *)
Fixpoint ins (x : string) (l : list string) : list string :=
  match l with
  | [] => [x]
  | y :: l' => if decide (str_le y x) then x :: y :: l' else y :: ins x l'
  end.

(** [n] calls of [createLocalBackup] in a row: for each, the file name it
    used and what it returned. *)
Fixpoint repeat_backup (w : world) (n : nat) (st : state)
  : list (string * value) * state :=
  match n with
  | O => ([], st)
  | S n' =>
      let name := backupFileName (Date_toISOString w (tick st)) in
      let '(o, st1) := createLocalBackup w st in
      let '(rs, st2) := repeat_backup w n' st1 in
      ((name, match o with Fulfilled v => v | _ => VNull end) :: rs, st2)
  end.

(** *** Documents *)

Definition is_provenance (k : string) : bool :=
  String.eqb "_schemaVersion" k || String.eqb "_uploadTimestamp" k
  || String.eqb "_clientId" k || String.eqb "_appVersion" k.

Definition strip_fields (fs : list (string * value)) : list (string * value) :=
  remove_field "_schemaVersion"
    (remove_field "_uploadTimestamp"
      (remove_field "_clientId" (remove_field "_appVersion" fs))).

(** The engine reads back what it has written: [JSON.parse] of the text
    that [JSON.stringify] made of [v] is [v] again. *)
Definition parses_back (sv : AppsScript.services) (v : value) : Prop :=
  forall content,
    JSON_stringify v = Some content -> AppsScript.JSON_parse sv content = Returns v.

(** Two documents with the same content, whose top-level properties may
    have been inserted in another order. *)
Inductive same_content : value -> value -> Prop :=
| same_document v : same_content v v
| same_reordered fs gs : fs ≡ₚ gs -> same_content (VObj fs) (VObj gs).

(** *** Records *)

Definition nullish (v : value) : bool :=
  match v with VUndef | VNull => true | _ => false end.

(** The records of one account bucket: the length of its [list], when that
    is an array. *)
Definition bucket_size (account : value) : Z := array_length (prop account "list").

Definition sum_of (sizes : list Z) : Z := foldr Z.add 0 sizes.

(** *** Requests *)

(** The request that carries the payload, and a request that follows a
    redirect. *)
Definition carries (payload : value) (ev : event) : Prop :=
  exists rq, ev = EvRequest rq /\ req_method rq = POST /\
             req_body rq = (if truthy payload then JSON_stringify payload else None).

Definition bodiless_get (ev : event) : Prop :=
  exists rq, ev = EvRequest rq /\ req_method rq = GET /\ req_body rq = None.

(** [new URL(location, base).toString()] is never the empty string. *)
Definition resolves_to_urls (w : world) : Prop :=
  forall location base newUrl,
    str_truthy location = true -> URL_resolve w location base = Some newUrl ->
    str_truthy newUrl = true.

Definition no_endpoint : exn :=
  error ConfigurationError "Please set Google Apps Script URL in settings.".

(** The log of [st'] continues the log of [st]. *)
Definition grows (st st' : state) : Prop := exists evs, log st' = (log st ++ evs)%list.

(** *** Handlers *)

(** What a [GOOGLE_DRIVE_*] handler makes of the result of the
    [CLOUD_SYNC_*] handler of the same operation. *)
Definition legacy_answer (v : value) : value :=
  if strict_eq (prop v "status") (VStr "ok") then VStr "success" else prop v "error".

Definition map_outcome {A B} (f : A -> B) (o : outcome A) : outcome B :=
  match o with
  | Fulfilled a => Fulfilled (f a)
  | Rejected e => Rejected e
  | Unsettled => Unsettled
  end.

(** *** The Drive of the script *)

(** The files of a Drive that are not the data file, and its backups. *)
Definition other_files (d : AppsScript.drive) : list AppsScript.file :=
  List.filter (fun f => negb (String.eqb (AppsScript.file_name f) AppsScript.FILE_NAME))
              (AppsScript.files d).

Definition backups_of (d : AppsScript.drive) : list AppsScript.file :=
  default [] (AppsScript.backup_folder d).

(** The answer of [uploadData] after a write. *)
Definition upload_answer (sv : AppsScript.services) (content : string)
    (f : AppsScript.file) (recordCount : Z) : value :=
  VObj [("status", VStr "ok");
        ("cloudTimestamp", VNum (AppsScript.file_updated f));
        ("cloudHash", VStr (AppsScript.calculateHash sv content));
        ("recordCount", VNum recordCount);
        ("fileId", VStr (AppsScript.file_id f))].

(** The Drive after [uploadData] has written [content]: the data file
    holds it and no other file has changed; a file that was there before
    has kept its id and has been copied into the backup folder first. *)
Definition written (sv : AppsScript.services) (d : AppsScript.drive) (content : string)
    (f : AppsScript.file) (d1 : AppsScript.drive) : Prop :=
  AppsScript.getDataFile d1 = Some f /\
  AppsScript.file_content f = content /\
  other_files d1 = other_files d /\
  match AppsScript.getDataFile d with
  | Some old =>
      AppsScript.file_id f = AppsScript.file_id old /\
      exists backup,
        backups_of d1 = (backups_of d ++ [backup])%list /\
        AppsScript.file_content backup = AppsScript.file_content old /\
        AppsScript.file_name backup
        = "backup_" +:+ AppsScript.formatDate sv (S (AppsScript.clock d))
          +:+ "_" +:+ AppsScript.FILE_NAME
  | None => backups_of d1 = backups_of d
  end.

(** The SHA-256 digest as a list of bytes, and a byte as the signed number
    in which [Utilities.computeDigest] returns it. *)
Definition sha256_bytes (s : string) : list Z :=
  concat (map (SHA256.be_bytes 4) (SHA256.digest (SHA256.bytes_of_string s))).

Definition signed_byte (b : Z) : Z := if 128 <=? b then b - 256 else b.

(** *** The OAuth based module *)

(** [config.save] does not fail with the number 404 as its error code (the
    codes of file-system errors are strings). *)
Definition save_is_no_http_error (w : world) : Prop :=
  forall t c msg, config_save w t c <> Throws msg (Some 404).

(** The [try] block of [uploadFile], and one round of [uploadFile] in
    which the recursive call is [retry]: [uploadFile (S fuel)] is
    [upload_round (uploadFile fuel)]. *)
Definition attempt (w : world) (api : LegacyDrive.drive_api)
    (name : string) (body : option string) : M value :=
  await c <- get_cfg;
  perform
    (if str_truthy (googleDriveFileId c) then
       call DriveApiError (EvDriveApi "files.update")
            (fun t => LegacyDrive.files_update api t (googleDriveFileId c) name body)
     else
       await id <- call DriveApiError (EvDriveApi "files.create")
                        (fun t => LegacyDrive.files_create api t name body);
       await c' <- get_cfg;
       perform set_cfg (with_fileId c' id);
       config_save_call w);
  ret (VStr "success").

Definition upload_round (w : world) (api : LegacyDrive.drive_api)
    (retry : M value) : M value :=
  perform LegacyDrive.getDriveClient;
  await data <- call GenerationError EvGenerate (generateUigf30Json w);
  await info <- lift (get_prop data "info");
  await uid <- lift (get_prop info "uid");
  try_catch
    (attempt w api ("genshin-wish-export-data-" +:+ js_to_string uid +:+ ".json")
             (JSON_stringify data))
    (fun err =>
       await c <- get_cfg;
       if LegacyDrive.code_is_404 err && str_truthy (googleDriveFileId c) then
         perform set_cfg (with_fileId c EmptyString);
         retry
       else throw err).

(** *** The settings view *)

Definition is_message (ev : SettingView.shown) : Prop :=
  match ev with SettingView.Message _ _ => True | _ => False end.

(** The step settles, shows nothing and leaves the form alone. *)
Definition silent {A} (m : SettingView.V A) : Prop :=
  forall v, exists o v',
    m v = (o, v') /\ o <> SettingView.Pending /\
    SettingView.trace v' = SettingView.trace v /\
    SettingView.settingForm v' = SettingView.settingForm v.

(** What was shown from [v] to [v'] is the query for the metadata and then
    at most one message; the form is as it was. *)
Definition only_asked (v v' : SettingView.view) : Prop :=
  exists rest,
    SettingView.trace v'
    = (SettingView.trace v
       ++ SettingView.Invoke "CLOUD_SYNC_GET_METADATA" [] :: rest)%list /\
    Forall is_message rest /\ (length rest <= 1)%nat /\
    SettingView.settingForm v' = SettingView.settingForm v.

(** The main process did not carry out what [channel] asks for: the
    promise was rejected, or fulfilled with [status: 'error'] or with
    nothing at all. *)
Definition answered_with_failure (r : SettingView.renderer) (v : SettingView.view)
    (channel : string) (text : value) : Prop :=
  match SettingView.invoke r (SettingView.moment v) channel [] with
  | Some (Throws msg _) => text = SettingView.shown_error r msg
  | Some (Returns result) =>
      (nullish result = true /\
       text = SettingView.shown_error r (message (cannot_read result "status"))) \/
      (prop result "status" = VStr "error" /\ text = prop result "error")
  | None => False
  end.

(** ** More environments and documents *)

Definition online_world : world :=
  demo_world (answering (json_text "{'status':'ok','cloudTimestamp':1700000000555,'recordCount':2}"))
             (Returns sample_doc) accepting.

Definition world_without_local_data : world :=
  demo_world (answering (json_text "{'status':'ok','exists':true,'cloudTimestamp':1700000000555,'cloudHash':'ab','recordCount':2}"))
             no_data accepting.

Definition bare_answer_world : world :=
  demo_world (answering (json_text "{'status':'ok'}")) (Returns sample_doc) accepting.

Definition six_hops_world : world :=
  demo_world (redirecting 6 (json_text "{'status':'ok','exists':false}"))
             (Returns sample_doc) accepting.

Definition looping_world : world :=
  demo_world looping (Returns sample_doc) accepting.

Definition offline_world : world :=
  demo_world refusing (Returns sample_doc) accepting.

Definition info_first : value :=
  VObj [("info", VObj [("uid", VStr "100000001")]); ("list", VArr [])].

Definition list_first : value :=
  VObj [("list", VArr []); ("info", VObj [("uid", VStr "100000001")])].

Definition sample_doc_with_undefined : value :=
  match sample_doc with
  | VObj fs => VObj (fs ++ [("export_app", VUndef)])
  | v => v
  end.

Definition newer_schema_response : value :=
  VObj [("status", VStr "ok"); ("cloudTimestamp", VNum 1700000000555);
        ("schemaVersion", VNum 2);
        ("payload", VObj [("info", VObj [("uid", VStr "100000001")]);
                          ("list", VArr [])])].

Definition newer_schema_world : world :=
  demo_world
    (answering (json_text "{'status':'ok','cloudTimestamp':1700000000555,'schemaVersion':2,'payload':{'info':{'uid':'100000001'},'list':[]}}"))
    (Returns sample_doc) accepting.

Definition unversioned_response : value :=
  VObj [("status", VStr "ok"); ("cloudTimestamp", VNum 1700000000555);
        ("payload", VObj [("info", VObj [("uid", VStr "100000001")]);
                          ("list", VArr []); ("_schemaVersion", VNum 7)])].

Definition unversioned_world : world :=
  demo_world
    (answering (json_text "{'status':'ok','cloudTimestamp':1700000000555,'payload':{'info':{'uid':'100000001'},'list':[],'_schemaVersion':7}}"))
    (Returns sample_doc) accepting.

Definition conflicting_world : world :=
  demo_world
    (answering (json_text "{'status':'ok','exists':true,'cloudTimestamp':1700000000555,'cloudHash':'ab','recordCount':120}"))
    (Returns sample_doc) accepting.

Definition no_drive_api : LegacyDrive.drive_api :=
  {| LegacyDrive.oauth_flow := fun _ => None;
     LegacyDrive.files_update := fun _ _ _ _ => Throws "Not Found" (Some 404);
     LegacyDrive.files_create := fun _ _ _ => Returns "file-2";
     LegacyDrive.files_get := fun _ _ => Throws "Not Found" (Some 404) |}.

Definition demo_services : AppsScript.services :=
  {| AppsScript.JSON_parse := parse_with_reference;
     AppsScript.computeDigest_SHA_256 :=
       fun s => map (fun b => if 128 <=? b then b - 256 else b)
                    (concat (map (SHA256.be_bytes 4)
                                 (SHA256.digest (SHA256.bytes_of_string s))));
     AppsScript.Date_now := fun t => 1700000000000 + Z.of_nat t;
     AppsScript.formatDate := fun t => "2024-05-01_10-00-" +:+ two_digits t;
     AppsScript.new_file_id := fun t => "id-" +:+ two_digits t;
     AppsScript.greater_than := fun _ _ => false |}.

Definition empty_drive : AppsScript.drive :=
  {| AppsScript.files := []; AppsScript.backup_folder := None;
     AppsScript.clock := 0%nat |}.

Definition upload_request : value :=
  VObj [("action", VStr "upload"); ("schemaVersion", VNum 1);
        ("appVersion", VStr "0.13.4"); ("clientId", VStr "client-1");
        ("timestamp", VNum 1700000000001);
        ("dataHash", VStr "0000"); ("payload", sample_doc)].

(** *** Further documents, states and environments *)

(** A UIGF 4 document: two accounts with records, one without a list, and
    one bucket that is no object at all. *)
Definition uigf4_doc : value :=
  VObj [("info", VObj [("version", VStr "v4.1")]);
        ("hk4e",
         VArr [VObj [("uid", VStr "100000001");
                     ("list", VArr [VObj [("id", VStr "1")]; VObj [("id", VStr "2")]])];
               VObj [("uid", VStr "100000002")];
               VNum 7;
               VObj [("uid", VStr "100000003");
                     ("list", VArr [VObj [("id", VStr "3")]])]]);
        ("list", VArr [VNum 1])].

Definition doc_with_null_bucket : value :=
  VObj [("info", VObj [("version", VStr "v4.1")]);
        ("hk4e", VArr [VObj [("uid", VStr "100000001"); ("list", VArr [])]; VNull])].

Definition with_url (st : state) (url : string) : state :=
  {| cfg := {| googleAppsScriptUrl := url;
               cloudSyncClientId := cloudSyncClientId (cfg st);
               googleDriveLastSync := googleDriveLastSync (cfg st);
               uigfVersion := uigfVersion (cfg st);
               uigfAllAccounts := uigfAllAccounts (cfg st);
               googleClientId := googleClientId (cfg st);
               googleClientSecret := googleClientSecret (cfg st);
               googleRefreshToken := googleRefreshToken (cfg st);
               googleDriveFileId := googleDriveFileId (cfg st) |};
     backupDir := backupDir st; tick := tick st; log := log st |}.

Definition unconfigured_state : state := with_url demo_state EmptyString.

(** Before the first upload: no client id yet. *)
Definition first_run_state : state :=
  {| cfg := with_clientId demo_config EmptyString; backupDir := ∅;
     tick := 0%nat; log := [] |}.

(** Credentials set, but never authenticated. *)
Definition signed_out_state : state :=
  {| cfg := LegacyDrive.with_refreshToken demo_config EmptyString; backupDir := ∅;
     tick := 0%nat; log := [] |}.

Definition newer_upload_request : value :=
  VObj [("action", VStr "upload"); ("schemaVersion", VNum 2);
        ("payload", sample_doc)].


(** The Drive after a first upload. *)
Definition drive_with_file : AppsScript.drive :=
  snd (AppsScript.uploadData demo_services upload_request empty_drive).

(** A Drive API that serves the sample document. *)
Definition serving_api : LegacyDrive.drive_api :=
  {| LegacyDrive.oauth_flow := fun _ => None;
     LegacyDrive.files_update := fun _ _ _ _ => Returns tt;
     LegacyDrive.files_create := fun _ _ _ => Returns "file-2";
     LegacyDrive.files_get := fun _ _ => Returns sample_doc |}.

Definition demo_view : SettingView.view :=
  {| SettingView.loading := false; SettingView.uploading := false;
     SettingView.downloading := false; SettingView.dialog_visible := false;
     SettingView.dialog_action := EmptyString;
     SettingView.dialog_hasConflict := VBool false;
     SettingView.dialog_comparisonData := VArr [];
     SettingView.dialog_metadata := VNull;
     SettingView.settingForm :=
       [("lang", VStr "en-us"); ("googleAppsScriptUrl", VStr "https://script.example/exec");
        ("googleDriveLastSync", VNum 0)];
     SettingView.moment := 0%nat; SettingView.trace := [] |}.

(** A main process that answers every channel with [answer]. *)
Definition renderer_answering (answer : value) : SettingView.renderer :=
  {| SettingView.invoke := fun _ _ _ => Some (Returns answer);
     SettingView.Date_now := fun t => 1700000000000 + Z.of_nat t;
     SettingView.cloudSync := fun k => VStr k;
     SettingView.toLocaleString := js_to_string |}.

Definition metadata_with_cloud_data : value :=
  VObj [("status", VStr "ok");
        ("cloud", VObj [("exists", VBool true); ("timestamp", VNum 1700000000555);
                        ("timestampFormatted", VStr "14/11/2023"); ("hash", VStr "ab");
                        ("recordCount", VNum 120)]);
        ("local", VObj [("exists", VBool true); ("timestamp", VNum 1700000000000);
                        ("timestampFormatted", VStr "14/11/2023"); ("hash", VStr "cd");
                        ("recordCount", VNum 2)]);
        ("hasConflict", VBool true)].

Definition failure_answer : value :=
  VObj [("status", VStr "error"); ("error", VStr "Request timeout")].

(** * Properties *)

(** ** The primitives on known inputs *)

Example sha256_abc :
  SHA256.sha256_hex "abc"
  = "ba7816bf8f01cfea414140de5dae2223b00361a396177a9cb410ff61f20015ad".
Proof. vm_compute. reflexivity. Qed.

Example sha256_two_blocks :
  SHA256.sha256_hex "abcdbcdecdefdefgefghfghighijhijkijkljklmklmnlmnomnopnopq"
  = "248d6a61d20638b8e5c026930c3e6039a33ce45964ff2167f6ecedd419db06c1".
Proof. vm_compute. reflexivity. Qed.

Example stringify_sample :
  JSON_stringify sample_doc
  = Some (json_text "{'info':{'uid':'100000001','lang':'en-us'},'list':[{'id':'1','name':'Jean','rank_type':5},{'id':'2','name':'a\\b','rank_type':-4}]}").
Proof. vm_compute. reflexivity. Qed.

Example parse_stringify_sample :
  option_map JSONRef.parse (JSON_stringify sample_doc) = Some (Ok sample_doc).
Proof. vm_compute. reflexivity. Qed.

Example countRecords_sample : countRecords sample_doc = Ok 2.
Proof. reflexivity. Qed.

(** ** Requests leave the local state alone *)

Section Frames.
Variable w : world.

(** One exchange touches neither the configuration nor the backups, and
    logs at most its request. *)
Lemma send_frame payload url st x st' :
  send w payload url st = (x, st') ->
  cfg st' = cfg st /\ backupDir st' = backupDir st /\
  exists evs, log st' = (log st ++ evs)%list /\ Forall is_request evs.
Proof.
  unfold send. intros H.
  assert (Hone : forall rq x0, (x0, advance (emit (EvRequest rq) st)) = (x, st') ->
            cfg st' = cfg st /\ backupDir st' = backupDir st /\
            exists evs, log st' = (log st ++ evs)%list /\ Forall is_request evs).
  { intros rq x0 E. inversion E; subst. repeat split; auto.
    exists [EvRequest rq]. split; auto. repeat constructor. exists rq; auto. }
  assert (Hzero : forall x0, (x0, st) = (x, st') ->
            cfg st' = cfg st /\ backupDir st' = backupDir st /\
            exists evs, log st' = (log st ++ evs)%list /\ Forall is_request evs).
  { intros x0 E. inversion E; subst. repeat split; auto.
    exists []. rewrite app_nil_r. auto. }
  destruct (negb (str_truthy (googleAppsScriptUrl (cfg st))) && negb (opt_truthy url));
    [eapply Hzero; eauto|].
  destruct (URL_parse w _) as [[hostname path]|]; [|eapply Hzero; eauto].
  destruct (net w (tick st) _) as [msg| |statusCode location body];
    [eapply Hone; eauto | eapply Hone; eauto |].
  destruct ((300 <=? statusCode) && (statusCode <? 400) && opt_truthy location).
  - destruct (URL_resolve w _ _) as [newUrl|]; eapply Hone; eauto.
  - destruct ((200 <=? statusCode) && (statusCode <? 300)).
    + destruct (JSON_parse w body); eapply Hone; eauto.
    + eapply Hone; eauto.
Qed.

(** So does [makeRequest], however many redirects it follows. *)
Lemma makeRequest_frame fuel : forall payload url st o st',
  makeRequest w fuel payload url st = (o, st') ->
  cfg st' = cfg st /\ backupDir st' = backupDir st /\
  exists evs, log st' = (log st ++ evs)%list /\ Forall is_request evs.
Proof.
  induction fuel as [|fuel IH]; intros payload url st o st' H; simpl in H.
  - inversion H; subst. repeat split; auto. exists []. rewrite app_nil_r. auto.
  - destruct (send w payload url st) as [[o1|newUrl] s1] eqn:E;
      apply send_frame in E; destruct E as (Hc & Hb & evs & Hl & Hf).
    + inversion H; subst. repeat split; eauto.
    + apply IH in H. destruct H as (Hc' & Hb' & evs' & Hl' & Hf').
      repeat split; try congruence.
      exists (evs ++ evs')%list. rewrite Hl', Hl, <- app_assoc. split; auto.
      apply Forall_app. auto.
Qed.

End Frames.

(** ** The time of the last sync *)

Lemma keeps_sync_refl st : keeps_sync st st.
Proof. split; auto. exists []. rewrite app_nil_r. auto. Qed.

Lemma keeps_sync_trans s1 s2 s3 :
  keeps_sync s1 s2 -> keeps_sync s2 s3 -> keeps_sync s1 s3.
Proof.
  intros (H1 & e1 & L1 & F1) (H2 & e2 & L2 & F2). split; [congruence|].
  exists (e1 ++ e2)%list. rewrite L2, L1, <- app_assoc. split; auto.
  apply Forall_app. split; auto. rewrite <- H1. auto.
Qed.

Lemma keeps_sync_step st ev :
  save_keeps (googleDriveLastSync (cfg st)) ev ->
  keeps_sync st (advance (emit ev st)).
Proof. intros H. split; auto. exists [ev]. split; auto. Qed.

Lemma keeps_sync_advance st : keeps_sync st (advance st).
Proof. split; auto. exists []. simpl. rewrite app_nil_r. auto. Qed.

Lemma keeps_sync_requests st st' :
  cfg st' = cfg st ->
  (exists evs, log st' = (log st ++ evs)%list /\ Forall is_request evs) ->
  keeps_sync st st'.
Proof.
  intros Hc (evs & Hl & Hf). split; [congruence|]. exists evs. split; auto.
  eapply Forall_impl; [exact Hf|]. intros ev (rq & ->). exact I.
Qed.

Section Steps.
Variable w : world.

Lemma call_spec {A} k ev (oracle : nat -> answer A) st :
  snd (call k ev oracle st) = advance (emit ev st) /\
  fst (call k ev oracle st) <> Unsettled /\
  forall e, fst (call k ev oracle st) = Rejected e -> kind e = k.
Proof.
  unfold call. destruct (oracle (tick st)); simpl; repeat split; try discriminate.
  intros e [= <-]. reflexivity.
Qed.

Lemma generateData_spec st :
  snd (generateData w st) = advance (emit EvGenerate st) /\
  fst (generateData w st) <> Unsettled /\
  forall e, fst (generateData w st) = Rejected e -> kind e = GenerationError.
Proof.
  unfold generateData, bind, get_cfg.
  destruct (String.eqb _ _); apply call_spec.
Qed.

Lemma config_save_call_spec st :
  snd (config_save_call w st) = advance (emit (EvSave (cfg st)) st) /\
  fst (config_save_call w st) <> Unsettled /\
  forall e, fst (config_save_call w st) = Rejected e -> kind e = SaveError.
Proof. unfold config_save_call, bind, get_cfg. apply call_spec. Qed.

Lemma getClientId_spec st :
  exists id st', getClientId w st = (Fulfilled id, st') /\
                 keeps_sync st st' /\ backupDir st' = backupDir st.
Proof.
  unfold getClientId, bind, get_cfg.
  destruct (negb (str_truthy (cloudSyncClientId (cfg st)))).
  - unfold read_clock, set_cfg, config_save_unawaited, try_catch, ret. simpl.
    match goal with |- context [config_save_call w ?s] =>
      destruct (config_save_call_spec s) as (Hs & Hu & _);
      destruct (config_save_call w s) as [[[]|e|] s'] eqn:E; simpl in *;
      try congruence; subst s'
    end.
    all: do 2 eexists; split; [reflexivity|]; split; [|reflexivity].
    all: split; [reflexivity|]; eexists [_]; split; [reflexivity|].
    all: repeat constructor.
  - eexists _, st. split; [reflexivity|]. split; [apply keeps_sync_refl|reflexivity].
Qed.

Lemma get_prop_kind v k e : get_prop v k = Err e -> kind e = TypeError.
Proof. destruct v; simpl; intros [= <-]; reflexivity. Qed.

Lemma check_status_spec response st :
  snd (check_status response st) = st /\
  fst (check_status response st) <> Unsettled /\
  (forall e, fst (check_status response st) = Rejected e ->
             kind e = TypeError \/ kind e = RemoteError) /\
  (fst (check_status response st) = Fulfilled tt <->
   exists status, get_prop response "status" = Ok status /\
                  strict_eq status (VStr "error") = false).
Proof.
  unfold check_status, bind, lift.
  destruct (get_prop response "status") as [status|e] eqn:E; simpl.
  - destruct (strict_eq status (VStr "error")) eqn:S; simpl.
    + repeat split; try discriminate.
      * intros e [= <-]. right. reflexivity.
      * intros (s & [= <-] & Hs). congruence.
    + repeat split; try discriminate. eauto.
  - repeat split; try discriminate.
    + intros e0 [= <-]. left. eapply get_prop_kind; eauto.
    + intros (s & Hs & _). discriminate.
Qed.

Lemma stamp_lastSync_spec st :
  fst (stamp_lastSync w st) <> Unsettled /\
  (forall e, fst (stamp_lastSync w st) = Rejected e -> kind e = SaveError) /\
  googleDriveLastSync (cfg (snd (stamp_lastSync w st))) = VNum (Date_now w (tick st)) /\
  backupDir (snd (stamp_lastSync w st)) = backupDir st.
Proof.
  unfold stamp_lastSync, bind, read_clock, get_cfg, set_cfg. simpl.
  match goal with |- context [config_save_call w ?s] =>
    destruct (config_save_call_spec s) as (Hs & Hu & Hk);
    destruct (config_save_call w s) as [o s'] eqn:E; simpl in *; subst s'
  end.
  repeat split; auto.
Qed.

Lemma import_payload_spec data st :
  keeps_sync st (snd (import_payload w data st)) /\
  fst (import_payload w data st) <> Unsettled /\
  forall e, fst (import_payload w data st) = Rejected e ->
            kind e = ImportError \/ kind e = UnrecognizedFormatError.
Proof.
  unfold import_payload.
  destruct (truthy data && truthy (prop data "info")).
  - destruct (truthy (prop data "hk4e")).
    + match goal with |- context [call ?k ?ev ?o st] =>
        destruct (call_spec k ev o st) as (Hs & Hu & Hk) end.
      rewrite Hs. split; [apply keeps_sync_step; exact I|]. split; auto.
    + destruct (truthy (prop data "list")).
      * match goal with |- context [call ?k ?ev ?o st] =>
          destruct (call_spec k ev o st) as (Hs & Hu & Hk) end.
        rewrite Hs. split; [apply keeps_sync_step; exact I|]. split; auto.
      * simpl. split; [apply keeps_sync_refl|]. split; [discriminate|].
        intros e [= <-]. right; reflexivity.
  - simpl. split; [apply keeps_sync_refl|]. split; [discriminate|].
    intros e [= <-]. right; reflexivity.
Qed.

End Steps.

Section Sync.
Variable w : world.

Lemma makeRequest_keeps fuel payload url st :
  keeps_sync st (snd (makeRequest w fuel payload url st)).
Proof.
  destruct (makeRequest w fuel payload url st) as [o st'] eqn:E.
  apply makeRequest_frame in E. destruct E as (Hc & _ & He).
  apply keeps_sync_requests; auto.
Qed.

Lemma accept_download_keeps response st e st' :
  accept_download w response st = (Rejected e, st') ->
  kind e <> SaveError -> keeps_sync st st'.
Proof.
  unfold accept_download, bind. intros H Hk.
  destruct (check_status_spec response st) as (Hs & _ & Hkind & _).
  destruct (check_status response st) as [[[]|e0|] s1]; simpl in *; subst s1;
    try solve [inversion H; subst; apply keeps_sync_refl].
  destruct (negb (truthy (prop response "payload")));
    [inversion H; subst; apply keeps_sync_refl|].
  destruct (truthy (prop response "schemaVersion") && js_gt w _ SCHEMA_VERSION);
    [inversion H; subst; apply keeps_sync_refl|].
  destruct (import_payload_spec w (prop response "payload") st) as (Hi & _ & _).
  destruct (import_payload w (prop response "payload") st) as [[[]|e1|] s2];
    simpl in *; try solve [inversion H; subst; exact Hi].
  destruct (stamp_lastSync_spec w s2) as (_ & Hsave & _).
  destruct (stamp_lastSync w s2) as [[[]|e2|] s3]; simpl in *; try discriminate.
  inversion H; subst. exfalso. apply Hk. apply Hsave. reflexivity.
Qed.

Lemma downloadFromCloud_keeps fuel st e st' :
  downloadFromCloud w fuel st = (Rejected e, st') ->
  kind e <> SaveError -> keeps_sync st st'.
Proof.
  unfold downloadFromCloud, bind. intros H Hk.
  pose proof (makeRequest_keeps fuel download_request None st) as Hm.
  unfold download_request in Hm.
  destruct (makeRequest w fuel _ None st) as [[response|e0|] s1]; simpl in *;
    try solve [inversion H; subst; exact Hm].
  eapply keeps_sync_trans; [exact Hm|]. eapply accept_download_keeps; eauto.
Qed.

Lemma uploadToCloud_keeps fuel st e st' :
  uploadToCloud w fuel st = (Rejected e, st') ->
  kind e <> SaveError -> keeps_sync st st'.
Proof.
  unfold uploadToCloud, bind. intros H Hk.
  destruct (generateData_spec w st) as (Hs & _ & _).
  destruct (generateData w st) as [[data|e0|] s1]; simpl in *; subst s1;
    try solve [inversion H; subst; apply keeps_sync_step; exact I].
  set (s1 := advance (emit EvGenerate st)) in *.
  assert (K1 : keeps_sync st s1) by (apply keeps_sync_step; exact I).
  destruct (getClientId_spec w s1) as (id & s2 & E2 & K2 & _). rewrite E2 in H.
  unfold read_clock, lift in H.
  set (s3 := advance s2) in *.
  assert (K3 : keeps_sync st s3).
  { eapply keeps_sync_trans; [exact K1|]. eapply keeps_sync_trans; [exact K2|].
    apply keeps_sync_advance. }
  destruct (calculateHash data) as [h|e1]; simpl in H;
    [|inversion H; subst; exact K3].
  match type of H with context [makeRequest w fuel ?p None s3] =>
    pose proof (makeRequest_keeps fuel p None s3) as Hm;
    destruct (makeRequest w fuel p None s3) as [[response|e2|] s4]
  end; simpl in *;
    try solve [inversion H; subst; eapply keeps_sync_trans; eauto].
  assert (K4 : keeps_sync st s4) by (eapply keeps_sync_trans; eauto).
  destruct (check_status_spec response s4) as (Hc & _).
  destruct (check_status response s4) as [[[]|e3|] s5]; simpl in *; subst s5;
    try solve [inversion H; subst; exact K4].
  destruct (stamp_lastSync_spec w s4) as (_ & Hsave & _).
  destruct (stamp_lastSync w s4) as [[[]|e4|] s6]; simpl in *; try discriminate.
  inversion H; subst. exfalso. apply Hk. apply Hsave. reflexivity.
Qed.

End Sync.

(** C8. When [uploadToCloud] or [downloadFromCloud] fails for any reason
    other than [config.save] itself failing, [googleDriveLastSync] is the
    same at the end as at the start, and no [config.save] made on the way
    wrote another value. *)
Theorem last_sync_is_kept_when_the_sync_fails w fuel st e st' :
  uploadToCloud w fuel st = (Rejected e, st') \/
  downloadFromCloud w fuel st = (Rejected e, st') ->
  kind e <> SaveError ->
  keeps_sync st st'.
Proof.
  intros [H | H] Hk.
  - eapply uploadToCloud_keeps; eauto.
  - eapply downloadFromCloud_keeps; eauto.
Qed.

Lemma last_sync_is_kept_when_the_sync_fails_witness :
  keeps_sync demo_state (snd (uploadToCloud offline_world 1 demo_state)).
Proof.
  apply (last_sync_is_kept_when_the_sync_fails offline_world 1 demo_state
           (error TransportError "connect ECONNREFUSED")).
  - left. vm_compute. reflexivity.
  - simpl. discriminate.
Defined.

(** ** The schema version of a download *)

Section Gate.
Variable w : world.

Lemma truthy_prop_object v k : truthy (prop v k) = true -> exists fs, v = VObj fs.
Proof. destruct v; cbn; try discriminate. eauto. Qed.

Lemma get_prop_object fs k : get_prop (VObj fs) k = Ok (prop (VObj fs) k).
Proof. reflexivity. Qed.

Lemma check_status_object fs st :
  check_status (VObj fs) st
  = if strict_eq (prop (VObj fs) "status") (VStr "error")
    then (Rejected (error RemoteError (error_message_of (prop (VObj fs) "error"))), st)
    else (Fulfilled tt, st).
Proof.
  unfold check_status, bind, lift. rewrite get_prop_object. simpl.
  destruct (strict_eq _ _); reflexivity.
Qed.

(** C6. When the answer to the download request carries a [schemaVersion]
    above [SCHEMA_VERSION], [downloadFromCloud] is rejected in the very
    state in which the answer arrived: only requests have been logged, no
    import was called and nothing was saved.  For an answer that is no
    remote error and has a payload, the error is the incompatible-version
    one. *)
Theorem newer_schema_is_refused_before_import fuel st response st1 v :
  makeRequest w fuel download_request None st = (Fulfilled response, st1) ->
  prop response "schemaVersion" = VNum v ->
  SCHEMA_VERSION < v ->
  (exists e, downloadFromCloud w fuel st = (Rejected e, st1) /\
     (strict_eq (prop response "status") (VStr "error") = false ->
      truthy (prop response "payload") = true ->
      e = incompatible_version)) /\
  (exists evs, log st1 = (log st ++ evs)%list /\ Forall is_request evs).
Proof.
  intros Hreq Hv Hlt. split.
  - unfold downloadFromCloud, bind. rewrite Hreq.
    assert (exists fs, response = VObj fs) as [fs ->].
    { destruct response; simpl in Hv; try discriminate. eauto. }
    unfold accept_download, bind. rewrite check_status_object.
    destruct (strict_eq (prop (VObj fs) "status") (VStr "error")).
    + eexists. split; [reflexivity|]. discriminate.
    + destruct (truthy (prop (VObj fs) "payload")); simpl.
      * rewrite Hv. unfold js_gt. cbn [truthy negb].
        assert ((v =? 0) = false) as -> by (unfold SCHEMA_VERSION in Hlt; lia).
        assert ((SCHEMA_VERSION <? v) = true) as -> by lia. simpl.
        eexists. split; [reflexivity|]. reflexivity.
      * eexists. split; [reflexivity|]. discriminate.
  - apply makeRequest_frame in Hreq. tauto.
Qed.

(** C10. When the [schemaVersion] of the answer is absent ([undefined]),
    [null] or [0], no version check takes place: [downloadFromCloud] is
    never rejected with the incompatible-version error, and for an answer
    that is no remote error and has a payload it is exactly the import of
    that payload followed by the update of the time stamp, whatever the
    payload says about its own schema. *)
Theorem absent_schema_version_is_not_checked fuel st response st1 :
  makeRequest w fuel download_request None st = (Fulfilled response, st1) ->
  prop response "schemaVersion" = VUndef \/
  prop response "schemaVersion" = VNull \/
  prop response "schemaVersion" = VNum 0 ->
  (forall e st', downloadFromCloud w fuel st = (Rejected e, st') ->
                 kind e <> IncompatibleVersionError) /\
  (strict_eq (prop response "status") (VStr "error") = false ->
   truthy (prop response "payload") = true ->
   downloadFromCloud w fuel st
   = (perform import_payload w (prop response "payload");
      perform stamp_lastSync w;
      ret response) st1).
Proof.
  intros Hreq Hv.
  assert (Hfalsy : truthy (prop response "schemaVersion") = false).
  { destruct Hv as [-> | [-> | ->]]; reflexivity. }
  split.
  - intros e st'. unfold downloadFromCloud, bind. rewrite Hreq.
    unfold accept_download, bind. rewrite Hfalsy. simpl.
    destruct (check_status_spec response st1) as (Hs & _ & Hk & _).
    destruct (check_status response st1) as [[[]|e0|] s1]; simpl in *;
      try discriminate.
    + destruct (negb (truthy (prop response "payload"))).
      * intros [= <- <-]. discriminate.
      * destruct (import_payload_spec w (prop response "payload") s1) as (_ & _ & Hi).
        destruct (import_payload w (prop response "payload") s1) as [[[]|e1|] s2];
          simpl in *; try discriminate.
        -- destruct (stamp_lastSync_spec w s2) as (_ & Hsave & _).
           destruct (stamp_lastSync w s2) as [[[]|e2|] s3]; simpl in *;
             try discriminate.
           intros [= <- <-]. rewrite (Hsave _ eq_refl). discriminate.
        -- intros [= <- <-]. destruct (Hi _ eq_refl) as [-> | ->]; discriminate.
    + intros [= <- <-]. destruct (Hk _ eq_refl) as [-> | ->]; discriminate.
  - intros Hstatus Hpayload.
    destruct (truthy_prop_object _ _ Hpayload) as [fs ->].
    unfold downloadFromCloud, bind. rewrite Hreq.
    unfold accept_download, bind. rewrite check_status_object, Hstatus.
    rewrite Hpayload, Hfalsy. reflexivity.
Qed.

End Gate.

(** ** The local backup *)

Section Backup.
Variable w : world.

Lemma remove_each_spec names : forall st,
  remove_each names st
  = (Fulfilled tt,
     {| cfg := cfg st;
        backupDir := foldl (fun d' name => delete name d') (backupDir st) names;
        tick := tick st;
        log := (log st ++ map EvRemoveBackup names)%list |}).
Proof.
  induction names as [|name names IH]; intros st; simpl.
  - unfold ret. rewrite app_nil_r. destruct st; reflexivity.
  - unfold bind, remove. rewrite IH. simpl. rewrite <- app_assoc. reflexivity.
Qed.

Lemma createLocalBackup_spec st :
  let name := backupFileName (Date_toISOString w (tick st)) in
  exists v st',
    createLocalBackup w st = (Fulfilled v, st') /\
    cfg st' = cfg st /\
    (exists evs, log st' = (log st ++ evs)%list /\ Forall backup_event evs) /\
    ((v = VNull /\ backupDir st' = backupDir st) \/
     (exists data,
        v = VStr (path_join (backup_dir_path w) name) /\
        backupDir st' = prune (<[name := data]> (backupDir st)))).
Proof.
  intros name. unfold createLocalBackup, try_catch, bind, read_clock.
  fold name.
  destruct (generateData_spec w (advance st)) as (Hs & Hu & _).
  destruct (generateData w (advance st)) as [[data|e|] s1]; simpl in *;
    subst s1; try congruence.
  - unfold writeJson. destruct (JSON_stringify data) as [text|].
    + unfold readdir. cbn -[sorted_backups elements dom].
      rewrite remove_each_spec. cbn -[sorted_backups elements dom].
      do 2 eexists. split; [reflexivity|]. cbn -[sorted_backups elements dom].
      split; [reflexivity|]. split.
      * eexists ([EvGenerate; EvWriteBackup name] ++ _)%list.
        rewrite <- !app_assoc. split; [reflexivity|].
        apply Forall_app. split; [repeat constructor|].
        generalize (drop 10 (sorted_backups
                     (elements (dom (<[name:=data]> (backupDir st)))))).
        intros l. induction l; constructor; simpl; auto.
      * right. exists data. split; reflexivity.
    + do 2 eexists. split; [reflexivity|]. simpl. split; [reflexivity|]. split.
      * exists [EvGenerate]. split; [reflexivity|]. repeat constructor.
      * left. split; reflexivity.
  - do 2 eexists. split; [reflexivity|]. simpl. split; [reflexivity|]. split.
    + exists [EvGenerate]. split; [reflexivity|]. repeat constructor.
    + left. split; reflexivity.
Qed.

(** C1. [CLOUD_SYNC_DOWNLOAD] first runs [createLocalBackup] to its end,
    which always returns and calls no import; everything else the handler
    does is [downloadFromCloud] run from the state the backup left.  When
    that download fails, the handler answers with [status: 'error'], the
    message, the path the backup returned and [backupPreserved: true]. *)
Theorem backup_completes_first_and_is_reported fuel st :
  exists backupPath st1,
    createLocalBackup w st = (Fulfilled backupPath, st1) /\
    (exists evs, log st1 = (log st ++ evs)%list /\
                 Forall (fun ev => ~ is_import ev) evs) /\
    snd (CLOUD_SYNC_DOWNLOAD w fuel st) = snd (downloadFromCloud w fuel st1) /\
    (forall e st2,
       downloadFromCloud w fuel st1 = (Rejected e, st2) ->
       CLOUD_SYNC_DOWNLOAD w fuel st
       = (Fulfilled (VObj [("status", VStr "error");
                           ("error", VStr (message e));
                           ("backupPath", backupPath);
                           ("backupPreserved", VBool true)]), st2)).
Proof.
  destruct (createLocalBackup_spec st) as (v & st1 & Hb & _ & (evs & Hl & Hf) & _).
  exists v, st1. split; [exact Hb|]. split.
  - exists evs. split; [exact Hl|]. eapply Forall_impl; [exact Hf|].
    intros [] Hev; simpl in *; tauto.
  - unfold CLOUD_SYNC_DOWNLOAD, try_catch, bind. rewrite Hb. split.
    + destruct (downloadFromCloud w fuel st1) as [[r|e|] s2]; reflexivity.
    + intros e st2 ->. reflexivity.
Qed.

End Backup.

(** ** What the handlers resolve to *)

Section Combinators.

Lemma bind_fulfilled {A B} (m : M A) (k : A -> M B) st v st' :
  bind m k st = (Fulfilled v, st') ->
  exists a s1, m st = (Fulfilled a, s1) /\ k a s1 = (Fulfilled v, st').
Proof.
  unfold bind. destruct (m st) as [[a|e|] s1]; try discriminate. eauto.
Qed.

Lemma try_catch_resolves (P : value -> Prop) (body : M value) (h : exn -> value) st :
  (forall v st', body st = (Fulfilled v, st') -> P v) ->
  (forall e, P (h e)) ->
  resolves_with P (try_catch body (fun e => ret (h e)) st).
Proof.
  intros Hb Hh. unfold resolves_with, try_catch.
  destruct (body st) as [[v|e|] s1] eqn:E; simpl; eauto.
Qed.

Lemma settles_ret {A} (a : A) : settles (ret a).
Proof. intros st. discriminate. Qed.

Lemma settles_throw {A} e : settles (@throw A e).
Proof. intros st. discriminate. Qed.

Lemma settles_lift {A} (r : res A) : settles (lift r).
Proof. destruct r; intros st; discriminate. Qed.

Lemma settles_bind {A B} (m : M A) (k : A -> M B) :
  settles m -> (forall a, settles (k a)) -> settles (bind m k).
Proof.
  intros Hm Hk st. unfold bind. specialize (Hm st).
  destruct (m st) as [[a|e|] s1]; simpl in *; try congruence; try apply Hk.
Qed.

Lemma settles_try_catch {A} (m : M A) h :
  settles m -> (forall e, settles (h e)) -> settles (try_catch m h).
Proof.
  intros Hm Hh st. unfold try_catch. specialize (Hm st).
  destruct (m st) as [[a|e|] s1]; simpl in *; try congruence; try apply Hh.
Qed.

Lemma settles_call {A} k ev (oracle : nat -> answer A) : settles (call k ev oracle).
Proof. intros st. apply call_spec. Qed.

Lemma settles_read_clock {A} (c : nat -> A) : settles (read_clock c).
Proof. intros st. discriminate. Qed.

Lemma settles_get_cfg : settles get_cfg.
Proof. intros st. discriminate. Qed.

Lemma settles_set_cfg c : settles (set_cfg c).
Proof. intros st. discriminate. Qed.

End Combinators.

Create HintDb settle.
#[export] Hint Resolve settles_ret settles_throw settles_lift settles_call
  settles_read_clock settles_get_cfg settles_set_cfg : settle.

Ltac settle :=
  repeat first
    [ solve [auto with settle]
    | apply settles_bind; [|intros ?]
    | apply settles_try_catch; [|intros ?]
    | match goal with |- settles (if ?b then _ else _) => destruct b end
    | match goal with |- settles (match ?x with _ => _ end) => destruct x end ].

Section Handlers.
Variable w : world.
Variable fuel : nat.
Hypothesis transport_settles : forall payload url, settles (makeRequest w fuel payload url).

Lemma settles_generateData : settles (generateData w).
Proof. unfold generateData. settle. Qed.

Lemma settles_config_save_call : settles (config_save_call w).
Proof. unfold config_save_call. settle. Qed.

Lemma settles_check_status r : settles (check_status r).
Proof. unfold check_status. settle. Qed.

Lemma settles_stamp_lastSync : settles (stamp_lastSync w).
Proof. unfold stamp_lastSync. pose proof settles_config_save_call. settle. Qed.

Lemma settles_getClientId : settles (getClientId w).
Proof.
  unfold getClientId, config_save_unawaited.
  pose proof settles_config_save_call. settle.
Qed.

Lemma settles_import_payload d : settles (import_payload w d).
Proof. unfold import_payload. settle. Qed.

Lemma settles_createLocalBackup : settles (createLocalBackup w).
Proof.
  intros st. destruct (createLocalBackup_spec w st) as (v & st' & -> & _).
  discriminate.
Qed.

Lemma settles_getLocalMetadata : settles (getLocalMetadata w).
Proof. unfold getLocalMetadata. pose proof settles_generateData. settle. Qed.

Lemma settles_uploadToCloud : settles (uploadToCloud w fuel).
Proof.
  unfold uploadToCloud.
  pose proof settles_generateData. pose proof settles_getClientId.
  pose proof settles_check_status. pose proof settles_stamp_lastSync.
  settle.
Qed.

Lemma settles_downloadFromCloud : settles (downloadFromCloud w fuel).
Proof.
  unfold downloadFromCloud, accept_download.
  pose proof settles_import_payload.
  pose proof settles_check_status. pose proof settles_stamp_lastSync.
  settle.
Qed.

Lemma settles_metadata : settles (CLOUD_SYNC_GET_METADATA w fuel).
Proof.
  unfold CLOUD_SYNC_GET_METADATA, fetch_cloud, fetch_local, getCloudMetadata.
  pose proof settles_getLocalMetadata. pose proof settles_check_status.
  settle.
Qed.

Lemma settles_upload : settles (CLOUD_SYNC_UPLOAD w fuel).
Proof. unfold CLOUD_SYNC_UPLOAD. pose proof settles_uploadToCloud. settle. Qed.

Lemma settles_download : settles (CLOUD_SYNC_DOWNLOAD w fuel).
Proof.
  unfold CLOUD_SYNC_DOWNLOAD.
  pose proof settles_downloadFromCloud. pose proof settles_createLocalBackup.
  settle.
Qed.

End Handlers.

Lemma comparison_ok w cloudMeta localMeta r :
  comparison w cloudMeta localMeta = Ok r -> prop r "status" = VStr "ok".
Proof.
  unfold comparison, res_bind.
  destruct (get_prop cloudMeta "exists"); try discriminate.
  destruct (get_prop localMeta "exists"); try discriminate.
  intros [= <-]. reflexivity.
Qed.

Lemma normalized_error_result e : normalized (error_result e).
Proof. right. split; [reflexivity|]. eexists. reflexivity. Qed.

Lemma uploadFile_success w api fuel : forall st v st',
  LegacyDrive.uploadFile w api fuel st = (Fulfilled v, st') -> v = VStr "success".
Proof.
  induction fuel as [|fuel IH]; intros st v st' H; simpl in H.
  - discriminate.
  - repeat (apply bind_fulfilled in H; destruct H as (? & ? & _ & H)).
    unfold try_catch in H.
    match type of H with context [bind ?m ?k ?s] =>
      destruct (bind m k s) as [[r|e|] s1] eqn:E end; try discriminate.
    + inversion H; subst.
      apply bind_fulfilled in E. destruct E as (? & ? & _ & E).
      apply bind_fulfilled in E. destruct E as (? & ? & _ & E).
      inversion E. reflexivity.
    + apply bind_fulfilled in H. destruct H as (c & s2 & _ & H).
      destruct (LegacyDrive.code_is_404 e && str_truthy (googleDriveFileId c)).
      * apply bind_fulfilled in H. destruct H as (? & ? & _ & H). eauto.
      * discriminate.
Qed.

Lemma downloadFile_success w api st v st' :
  LegacyDrive.downloadFile w api st = (Fulfilled v, st') -> v = VStr "success".
Proof.
  unfold LegacyDrive.downloadFile. intros H.
  apply bind_fulfilled in H. destruct H as (? & ? & _ & H).
  apply bind_fulfilled in H. destruct H as (c & ? & _ & H).
  destruct (negb (str_truthy (googleDriveFileId c))); try discriminate.
  apply bind_fulfilled in H. destruct H as (data & ? & _ & H).
  destruct (truthy data && truthy (prop data "info") && truthy (prop data "list"));
    try discriminate.
  apply bind_fulfilled in H. destruct H as (? & ? & _ & H).
  inversion H. reflexivity.
Qed.

(** C9, as amended. No handler ever rejects.  The three [CLOUD_SYNC_*]
    handlers resolve to [{status: 'ok', ...}] or
    [{status: 'error', error: message, ...}]; the [GOOGLE_DRIVE_*] handlers
    of both modules resolve to a bare string instead.  The [CLOUD_SYNC_*]
    handlers do settle as soon as the request underneath does. *)
Theorem handlers_never_reject w api fuel st :
  (resolves_with normalized (CLOUD_SYNC_GET_METADATA w fuel st) /\
   resolves_with normalized (CLOUD_SYNC_UPLOAD w fuel st) /\
   resolves_with normalized (CLOUD_SYNC_DOWNLOAD w fuel st)) /\
  (resolves_with bare_string (GOOGLE_DRIVE_AUTH st) /\
   resolves_with bare_string (GOOGLE_DRIVE_UPLOAD w fuel st) /\
   resolves_with bare_string (GOOGLE_DRIVE_DOWNLOAD w fuel st) /\
   resolves_with bare_string (LegacyDrive.GOOGLE_DRIVE_AUTH w api st) /\
   resolves_with bare_string (LegacyDrive.GOOGLE_DRIVE_UPLOAD w api fuel st) /\
   resolves_with bare_string (LegacyDrive.GOOGLE_DRIVE_DOWNLOAD w api st)) /\
  ((forall payload url s, fst (makeRequest w fuel payload url s) <> Unsettled) ->
   fst (CLOUD_SYNC_GET_METADATA w fuel st) <> Unsettled /\
   fst (CLOUD_SYNC_UPLOAD w fuel st) <> Unsettled /\
   fst (CLOUD_SYNC_DOWNLOAD w fuel st) <> Unsettled).
Proof.
  split; [|split].
  - split; [|split].
    + apply try_catch_resolves; [|apply normalized_error_result].
      intros v st' H.
      apply bind_fulfilled in H. destruct H as (c & ? & _ & H).
      apply bind_fulfilled in H. destruct H as (l & ? & _ & H).
      unfold lift in H. destruct (comparison w c l) as [r|e] eqn:E; try discriminate.
      inversion H; subst. left. eapply comparison_ok; eauto.
    + apply try_catch_resolves; [|apply normalized_error_result].
      intros v st' H.
      apply bind_fulfilled in H. destruct H as (r & ? & _ & H).
      inversion H. left. reflexivity.
    + apply try_catch_resolves; [|apply normalized_error_result].
      intros v st' H.
      apply bind_fulfilled in H. destruct H as (p & s1 & _ & H).
      unfold try_catch in H.
      match type of H with context [bind ?m ?k ?s] =>
        destruct (bind m k s) as [[r|e|] s2] eqn:E end; try discriminate.
      * inversion H; subst.
        apply bind_fulfilled in E. destruct E as (? & ? & _ & E).
        inversion E. left. reflexivity.
      * inversion H. right. split; [reflexivity|]. eexists. reflexivity.
  - repeat split.
    + unfold resolves_with, GOOGLE_DRIVE_AUTH, bind, get_cfg.
      destruct (negb _); simpl; eexists; reflexivity.
    + apply try_catch_resolves; [|intros; eexists; reflexivity].
      intros v st' H. apply bind_fulfilled in H. destruct H as (? & ? & _ & H).
      inversion H. eexists; reflexivity.
    + apply try_catch_resolves; [|intros; eexists; reflexivity].
      intros v st' H. apply bind_fulfilled in H. destruct H as (? & ? & _ & H).
      apply bind_fulfilled in H. destruct H as (? & ? & _ & H).
      inversion H. eexists; reflexivity.
    + apply try_catch_resolves; [|intros; eexists; reflexivity].
      intros v st' H. apply bind_fulfilled in H. destruct H as (? & ? & _ & H).
      inversion H. eexists; reflexivity.
    + apply try_catch_resolves; [|intros; eexists; reflexivity].
      intros v st' H. apply uploadFile_success in H. subst. eexists; reflexivity.
    + apply try_catch_resolves; [|intros; eexists; reflexivity].
      intros v st' H. apply downloadFile_success in H. subst. eexists; reflexivity.
  - intros Ht. repeat split.
    + apply settles_metadata. exact Ht.
    + apply settles_upload. exact Ht.
    + apply settles_download. exact Ht.
Qed.

(** C9, counterexample. A successful [GOOGLE_DRIVE_UPLOAD] resolves to the
    string ['success'], which has neither [status] nor [error]. *)
Lemma legacy_upload_answers_with_a_string :
  fst (GOOGLE_DRIVE_UPLOAD online_world 1 demo_state) = Fulfilled (VStr "success") /\
  ~ normalized (VStr "success").
Proof.
  split.
  - vm_compute. reflexivity.
  - intros [H | [H _]]; discriminate H.
Qed.

(** ** The comparison of the two sides *)

Section Metadata.
Variable w : world.

(** What the cloud side of the comparison can be. *)
Lemma fetch_cloud_spec fuel st cloudMeta st1 :
  fetch_cloud w fuel st = (Fulfilled cloudMeta, st1) ->
  get_prop cloudMeta "exists" = Ok (prop cloudMeta "exists") /\
  forall e s, getCloudMetadata w fuel st = (Rejected e, s) -> cloudMeta = degraded e.
Proof.
  unfold fetch_cloud, try_catch. intros H.
  destruct (getCloudMetadata w fuel st) as [[v|e|] s] eqn:E; try discriminate.
  - inversion H; subst. split; [|discriminate].
    unfold getCloudMetadata in E.
    apply bind_fulfilled in E. destruct E as (r & s1 & _ & E).
    apply bind_fulfilled in E. destruct E as ([] & s2 & E & E').
    inversion E'; subst.
    destruct (check_status_spec cloudMeta s1) as (_ & _ & _ & Hiff).
    rewrite E in Hiff. simpl in Hiff. destruct Hiff as [Hiff _].
    destruct (Hiff eq_refl) as (status & Hs & _).
    destruct cloudMeta; simpl in Hs; try discriminate; reflexivity.
  - inversion H; subst. split; [reflexivity|]. intros e0 s0 [= <- <-]. reflexivity.
Qed.

(** The local side never fails: without local data it is the zeroed record. *)
Lemma fetch_local_spec st :
  exists localMeta st2,
    fetch_local w st = (Fulfilled localMeta, st2) /\
    get_prop localMeta "exists" = Ok (prop localMeta "exists") /\
    (exists b, prop localMeta "exists" = VBool b) /\
    forall e s, generateData w st = (Rejected e, s) -> localMeta = no_local_metadata.
Proof.
  unfold fetch_local. unfold try_catch at 1.
  pose proof (settles_getLocalMetadata w st) as Hs.
  destruct (getLocalMetadata w st) as [[v|e|] s1] eqn:E; simpl in Hs;
    try congruence.
  - exists v, s1. split; [reflexivity|].
    unfold getLocalMetadata, try_catch in E.
    match type of E with context [bind ?m ?k st] =>
      destruct (bind m k st) as [[v'|e'|] s'] eqn:B end; try discriminate.
    + inversion E; subst.
      apply bind_fulfilled in B. destruct B as (data & ? & Hg & B).
      apply bind_fulfilled in B. destruct B as (c & ? & _ & B).
      apply bind_fulfilled in B. destruct B as (ts & ? & _ & B).
      apply bind_fulfilled in B. destruct B as (h & ? & _ & B).
      apply bind_fulfilled in B. destruct B as (n & ? & _ & B).
      inversion B; subst. split; [reflexivity|].
      split; [exists true; reflexivity|].
      intros e s Hr. congruence.
    + inversion E; subst. split; [reflexivity|].
      split; [exists false; reflexivity|reflexivity].
  - exfalso. unfold getLocalMetadata, try_catch in E.
    match type of E with context [bind ?m ?k st] =>
      destruct (bind m k st) as [[v'|e'|] s'] end; discriminate.
Qed.

Lemma js_and_true a b : js_and a b = VBool true <-> truthy a = true /\ b = VBool true.
Proof.
  unfold js_and. destruct (truthy a) eqn:T.
  - tauto.
  - split; [|intros [? _]; discriminate]. intros ->. discriminate.
Qed.

Lemma js_and_falsy a b : truthy a = false \/ truthy b = false -> truthy (js_and a b) = false.
Proof. unfold js_and. destruct (truthy a) eqn:T; intros [H | H]; congruence. Qed.

(** C3, as amended. Whatever the two sides are, the comparison answers
    with [status: 'ok']; [hasConflict] is [true] exactly when both [exists]
    are truthy and the hashes differ; it is falsy as soon as one side does
    not exist, and a boolean ([false], then) when the [exists] of the cloud
    side is one.  A failure of the cloud request turns the cloud side into
    [{exists: false, error}]; a failure to generate the local document
    turns the local side into the zeroed record of [getLocalMetadata],
    which has no [error]. *)
Theorem metadata_comparison fuel st cloudMeta st1 :
  fetch_cloud w fuel st = (Fulfilled cloudMeta, st1) ->
  exists localMeta st2 r,
    fetch_local w st1 = (Fulfilled localMeta, st2) /\
    CLOUD_SYNC_GET_METADATA w fuel st = (Fulfilled r, st2) /\
    prop r "status" = VStr "ok" /\
    (prop r "hasConflict" = VBool true <->
     truthy (prop cloudMeta "exists") = true /\
     truthy (prop localMeta "exists") = true /\
     strict_eq (prop cloudMeta "cloudHash") (prop localMeta "localHash") = false) /\
    (truthy (prop cloudMeta "exists") = false \/
     truthy (prop localMeta "exists") = false ->
     truthy (prop r "hasConflict") = false) /\
    (forall b, prop cloudMeta "exists" = VBool b ->
               exists c, prop r "hasConflict" = VBool c) /\
    (forall e s, getCloudMetadata w fuel st = (Rejected e, s) ->
                 cloudMeta = degraded e) /\
    (forall e s, generateData w st1 = (Rejected e, s) ->
                 localMeta = no_local_metadata).
Proof.
  intros Hc.
  destruct (fetch_cloud_spec _ _ _ _ Hc) as (Hce & Hcd).
  destruct (fetch_local_spec st1) as (localMeta & st2 & Hl & Hle & (lb & Hlb) & Hld).
  exists localMeta, st2.
  eexists. split; [exact Hl|]. split.
  - unfold CLOUD_SYNC_GET_METADATA, try_catch, bind. rewrite Hc, Hl.
    unfold comparison, res_bind. rewrite Hce, Hle. reflexivity.
  - split; [reflexivity|].
    change (prop (VObj _) "hasConflict")
      with (js_and (prop cloudMeta "exists")
              (js_and (prop localMeta "exists")
                 (VBool (negb (strict_eq (prop cloudMeta "cloudHash")
                                         (prop localMeta "localHash")))))).
    split; [|split; [|split; [|split; assumption]]].
    + rewrite !js_and_true. split.
      * intros (? & ? & [= H]). repeat split; auto.
        destruct (strict_eq _ _); [discriminate|reflexivity].
      * intros (? & ? & ->). repeat split; auto.
    + intros [H | H]; apply js_and_falsy; [left; exact H|right].
      apply js_and_falsy. left; exact H.
    + intros b Hb. rewrite Hb, Hlb. unfold js_and.
      destruct b, lb; eexists; reflexivity.
Qed.

End Metadata.

(** C3, counterexample. Without local data the local side is
    [{exists: false, localTimestamp: null, localHash: null, recordCount: 0,
    data: null}]: it has no [error] property and is not
    [{exists: false, error}].  And when the cloud answers [{status: 'ok'}]
    with no [exists] at all, [hasConflict] is [undefined], not [false]. *)
Lemma local_failure_carries_no_error :
  (fst (fetch_local world_without_local_data demo_state) = Fulfilled no_local_metadata /\
   prop no_local_metadata "exists" = VBool false /\
   prop no_local_metadata "error" = VUndef /\
   no_local_metadata <> degraded (error GenerationError "No data")) /\
  (exists r, fst (CLOUD_SYNC_GET_METADATA bare_answer_world 1 demo_state) = Fulfilled r /\
             prop (prop r "cloud") "exists" = VBool false /\
             prop r "hasConflict" = VUndef).
Proof.
  split.
  - repeat split; try (vm_compute; reflexivity). discriminate.
  - eexists. split; [vm_compute; reflexivity|]. split; reflexivity.
Qed.

(** ** Redirects *)

Lemma follow_frame w n : forall payload url st p' u' st',
  follow w n payload url st = Some (p', u', st') ->
  exists evs, log st' = (log st ++ evs)%list /\ Forall is_request evs /\
              length evs = n.
Proof.
  induction n as [|n IH]; intros payload url st p' u' st' H; simpl in H.
  - inversion H; subst. exists []. rewrite app_nil_r. auto.
  - destruct (send w payload url st) as [[o|newUrl] s1] eqn:E; try discriminate.
    apply IH in H. destruct H as (evs' & Hl' & Hf' & Hn').
    unfold send in E.
    destruct (negb _ && negb _); try discriminate.
    destruct (URL_parse w _) as [[hostname path]|]; try discriminate.
    destruct (net w (tick st) _) as [msg| |statusCode location body];
      try discriminate.
    destruct ((300 <=? statusCode) && (statusCode <? 400) && opt_truthy location).
    + destruct (URL_resolve w _ _); try discriminate. inversion E; subst.
      eexists (_ :: evs'). simpl in Hl'. rewrite Hl', <- app_assoc.
      split; [reflexivity|]. split.
      * constructor; auto. eexists; reflexivity.
      * simpl. lia.
    + destruct ((200 <=? statusCode) && (statusCode <? 300));
        [destruct (JSON_parse w body)|]; discriminate.
Qed.

Lemma follow_then_request w n : forall payload url st p' u' st',
  follow w n payload url st = Some (p', u', st') ->
  forall fuel, makeRequest w (n + fuel) payload url st = makeRequest w fuel p' u' st'.
Proof.
  induction n as [|n IH]; intros payload url st p' u' st' H fuel; simpl in H.
  - inversion H; subst. reflexivity.
  - destruct (send w payload url st) as [[o|newUrl] s1] eqn:E; try discriminate.
    simpl. rewrite E. eapply IH; eauto.
Qed.

Lemma follow_uses_up_the_fuel w n payload url st p' u' st' :
  follow w n payload url st = Some (p', u', st') ->
  makeRequest w n payload url st = (Unsettled, st').
Proof.
  intros H. rewrite <- (Nat.add_0_r n).
  rewrite (follow_then_request _ _ _ _ _ _ _ _ H 0%nat). reflexivity.
Qed.

(** C5, as amended. However long a chain of 3xx responses with a [Location]
    header is, [makeRequest] follows all of it: after [n] redirects it goes
    on exactly as a fresh [makeRequest(null, newUrl)] would, having sent
    [n] requests, and [n] requests are not enough to settle its promise.
    No hop is counted and no error is raised for a long chain. *)
Theorem redirects_are_followed_without_bound w n :
  forall payload url st p' u' st',
    follow w n payload url st = Some (p', u', st') ->
    (forall fuel, makeRequest w (n + fuel) payload url st
                  = makeRequest w fuel p' u' st') /\
    makeRequest w n payload url st = (Unsettled, st') /\
    (exists evs, log st' = (log st ++ evs)%list /\ Forall is_request evs /\
                 length evs = n).
Proof.
  intros payload url st p' u' st' H. split; [|split].
  - eapply follow_then_request; eauto.
  - eapply follow_uses_up_the_fuel; eauto.
  - eapply follow_frame; eauto.
Qed.

(** A redirect loop is followed for ever. *)
Corollary redirect_loop_never_settles w payload url st :
  (forall n, follow w n payload url st <> None) ->
  forall fuel, fst (makeRequest w fuel payload url st) = Unsettled.
Proof.
  intros Hloop fuel. specialize (Hloop fuel).
  destruct (follow w fuel payload url st) as [[[p' u'] st']|] eqn:E; [|congruence].
  apply follow_uses_up_the_fuel in E. rewrite E. reflexivity.
Qed.

Lemma redirects_are_followed_without_bound_witness :
  makeRequest six_hops_world (6 + 1) metadata_request None demo_state
  = makeRequest six_hops_world 1 VNull (Some "/hop05")
      (snd (makeRequest six_hops_world 6 metadata_request None demo_state)).
Proof.
  apply (redirects_are_followed_without_bound six_hops_world 6).
  vm_compute. reflexivity.
Defined.

(** C5, counterexample. Six redirects in a row are followed and the seventh
    request is answered, where a bound of five hops would have failed; and
    a hundred requests into a redirect loop the promise is still pending,
    not rejected. *)
Lemma more_than_five_hops_are_followed :
  (fst (makeRequest six_hops_world 7 metadata_request None demo_state)
   = Fulfilled (VObj [("status", VStr "ok"); ("exists", VBool false)]) /\
   length (log (snd (makeRequest six_hops_world 7 metadata_request None demo_state)))
   = 7%nat) /\
  (fst (makeRequest looping_world 100 metadata_request None demo_state) = Unsettled /\
   length (log (snd (makeRequest looping_world 100 metadata_request None demo_state)))
   = 100%nat).
Proof. vm_compute. repeat split; reflexivity. Qed.

(** ** Upload and download at the Apps Script *)

Section AppsScriptFacts.

Lemma strip_fields_cons k v fs :
  strip_fields ((k, v) :: fs)
  = if is_provenance k then strip_fields fs else (k, v) :: strip_fields fs.
Proof.
  unfold strip_fields, is_provenance. cbn [remove_field].
  destruct (String.eqb "_appVersion" k); cbn [remove_field orb];
    [rewrite !orb_true_r; reflexivity|].
  destruct (String.eqb "_clientId" k); cbn [remove_field orb];
    [rewrite !orb_true_r; reflexivity|].
  destruct (String.eqb "_uploadTimestamp" k); cbn [remove_field orb];
    [rewrite !orb_true_r; reflexivity|].
  destruct (String.eqb "_schemaVersion" k); reflexivity.
Qed.

Lemma strip_assign k v fs :
  is_provenance k = true ->
  strip_fields (assign_field k v fs) = strip_fields fs.
Proof.
  intros Hk. induction fs as [|[k' v'] fs IH]; simpl.
  - rewrite strip_fields_cons, Hk. reflexivity.
  - destruct (String.eqb k k') eqn:E.
    + apply String.eqb_eq in E. subst k'.
      rewrite !strip_fields_cons, Hk. reflexivity.
    + rewrite !strip_fields_cons, IH. reflexivity.
Qed.

Lemma strip_set_prop v k x v' :
  is_provenance k = true -> set_prop v k x = Ok v' ->
  AppsScript.strip_provenance v' = AppsScript.strip_provenance v.
Proof.
  intros Hk. destruct v; simpl; try discriminate; intros [= <-]; try reflexivity.
  change (VObj (strip_fields (assign_field k x fields)) = VObj (strip_fields fields)).
  rewrite strip_assign; auto.
Qed.

Lemma set_prop_readable v k x v' k' :
  set_prop v k x = Ok v' -> get_prop v' k' = Ok (prop v' k').
Proof. destruct v; simpl; try discriminate; intros [= <-]; reflexivity. Qed.

Lemma stamp_readable request t payload stamped k :
  AppsScript.stamp request t payload = Ok stamped ->
  get_prop stamped k = Ok (prop stamped k).
Proof.
  unfold AppsScript.stamp, res_bind. intros H.
  destruct (set_prop payload _ _) as [p1|]; try discriminate.
  destruct (set_prop p1 _ _) as [p2|]; try discriminate.
  destruct (set_prop p2 _ _) as [p3|]; try discriminate.
  eapply set_prop_readable; eauto.
Qed.

Lemma strip_stamp request t payload stamped :
  AppsScript.stamp request t payload = Ok stamped ->
  AppsScript.strip_provenance stamped = AppsScript.strip_provenance payload.
Proof.
  unfold AppsScript.stamp, res_bind. intros H.
  destruct (set_prop payload _ _) as [p1|] eqn:E1; try discriminate.
  destruct (set_prop p1 _ _) as [p2|] eqn:E2; try discriminate.
  destruct (set_prop p2 _ _) as [p3|] eqn:E3; try discriminate.
  apply strip_set_prop in H; [|reflexivity].
  apply strip_set_prop in E3; [|reflexivity].
  apply strip_set_prop in E2; [|reflexivity].
  apply strip_set_prop in E1; [|reflexivity].
  congruence.
Qed.

Section RoundTrip.
Variable sv : AppsScript.services.

Lemma getDataFile_setContent content d f d' :
  AppsScript.setContent sv content d = (Ok f, d') ->
  AppsScript.getDataFile d' = Some f /\ AppsScript.file_content f = content.
Proof.
  unfold AppsScript.setContent, AppsScript.getDataFile. 
  destruct (find _ (AppsScript.files d)) as [g|] eqn:E; try discriminate.
  intros [= <- <-]. simpl. split; [|reflexivity].
  revert E. generalize (AppsScript.Date_now sv (AppsScript.clock d)). intros t.
  induction (AppsScript.files d) as [|h l IH]; simpl; try discriminate.
  destruct (String.eqb (AppsScript.file_name h) AppsScript.FILE_NAME) eqn:N.
  - intros [= ->]. simpl. rewrite N. reflexivity.
  - intros E. simpl. rewrite N. auto.
Qed.

Lemma getDataFile_createFile content d f d' :
  AppsScript.getDataFile d = None ->
  AppsScript.createFile sv content d = (Ok f, d') ->
  AppsScript.getDataFile d' = Some f /\ AppsScript.file_content f = content.
Proof.
  unfold AppsScript.createFile, AppsScript.getDataFile. intros Hn [= <- <-]. simpl. split; [|reflexivity].
  induction (AppsScript.files d) as [|h l IH]; simpl in *.
  - reflexivity.
  - destruct (String.eqb (AppsScript.file_name h) AppsScript.FILE_NAME); [discriminate|]. auto.
Qed.

(** C2. After an upload that the script answered with [status: 'ok'],
    [downloadData] answers with [status: 'ok'] and a payload which, once
    the four provenance fields are removed on both sides, has the hash of
    the uploaded payload; for a payload that has none of these fields
    itself, that is the hash of the uploaded payload as it was.  The
    engine is assumed to parse the stored text back into the document it
    was made from. *)
Theorem upload_then_download_keeps_the_hash request d response d1 :
  AppsScript.uploadData sv request d = (Ok response, d1) ->
  prop response "status" = VStr "ok" ->
  (forall stamped,
     AppsScript.stamp request (AppsScript.Date_now sv (AppsScript.clock d)) (prop request "payload") = Ok stamped ->
     parses_back sv stamped) ->
  exists answer,
    AppsScript.downloadData sv d1 = (Ok answer, d1) /\
    prop answer "status" = VStr "ok" /\
    calculateHash (AppsScript.strip_provenance (prop answer "payload"))
    = calculateHash (AppsScript.strip_provenance (prop request "payload")) /\
    (AppsScript.strip_provenance (prop request "payload") = prop request "payload" ->
     calculateHash (AppsScript.strip_provenance (prop answer "payload"))
     = calculateHash (prop request "payload")).
Proof.
  intros Hup Hok Hparse.
  unfold AppsScript.uploadData, AppsScript.sbind, AppsScript.slift in Hup.
  destruct (get_prop request "schemaVersion") as [schemaVersion|] eqn:Hsv;
    try discriminate.
  destruct (truthy schemaVersion && AppsScript.js_gt sv schemaVersion AppsScript.CURRENT_SCHEMA_VERSION).
  { inversion Hup; subst. discriminate Hok. }
  destruct (negb (truthy (prop request "payload"))).
  { inversion Hup; subst. discriminate Hok. }
  unfold AppsScript.now in Hup.
  destruct (AppsScript.stamp request _ _) as [stamped|] eqn:Hstamp; try discriminate.
  specialize (Hparse stamped eq_refl).
  destruct (JSON_stringify stamped) as [content|] eqn:Htext; try discriminate.
  specialize (Hparse content Htext).
  assert (Hfile : exists f, AppsScript.getDataFile d1 = Some f /\ AppsScript.file_content f = content /\
                            exists n, countRecords stamped = Ok n).
  { destruct (AppsScript.getDataFile (AppsScript.tock d)) as [existing|] eqn:Hex.
    - destruct (AppsScript.createBackupOfFile sv existing (AppsScript.tock d)) as [[b|] d2] eqn:Hb;
        try discriminate.
      destruct (AppsScript.setContent sv content d2) as [[f|] d3] eqn:Hset; try discriminate.
      apply getDataFile_setContent in Hset. destruct Hset as (Hf & Hc).
      destruct (countRecords stamped) as [n|]; try discriminate.
      inversion Hup; subst. eauto.
    - destruct (AppsScript.createFile sv content (AppsScript.tock d)) as [[f|] d3] eqn:Hcr; try discriminate.
      apply (getDataFile_createFile _ _ _ _ Hex) in Hcr. destruct Hcr as (Hf & Hc).
      destruct (countRecords stamped) as [n|]; try discriminate.
      inversion Hup; subst. eauto. }
  destruct Hfile as (f & Hf & Hc & n & Hn).
  pose proof (stamp_readable _ _ _ _ "_schemaVersion" Hstamp) as Hx.
  unfold AppsScript.downloadData. rewrite Hf. unfold AppsScript.sbind, AppsScript.parse, AppsScript.slift.
  rewrite Hc, Hparse. unfold AppsScript.sret. rewrite Hn, Hx.
  eexists. split; [reflexivity|]. split; [reflexivity|].
  change (prop (VObj _) "payload") with stamped.
  apply strip_stamp in Hstamp. rewrite Hstamp.
  split; [reflexivity|]. intros ->. reflexivity.
Qed.

End RoundTrip.

End AppsScriptFacts.

(** ** Backup rotation *)

(** *** The order on file names *)

Lemma string_compare_trans_le : forall s1 s2 s3,
  String.compare s1 s2 <> Gt -> String.compare s2 s3 <> Gt ->
  String.compare s1 s3 <> Gt.
Proof.
  induction s1 as [|a s IH]; intros [|b t] [|c u]; simpl; try congruence.
  unfold Ascii.compare.
  destruct (N.compare_spec (N_of_ascii a) (N_of_ascii b)) as [Hab|Hab|Hab];
    try congruence;
  destruct (N.compare_spec (N_of_ascii b) (N_of_ascii c)) as [Hbc|Hbc|Hbc];
    try congruence;
  destruct (N.compare_spec (N_of_ascii a) (N_of_ascii c)) as [Hac|Hac|Hac];
    try congruence; try lia.
  apply IH.
Qed.

#[global] Instance str_le_trans : Transitive str_le.
Proof.
  intros x y z. unfold str_le, String.leb. intros Hxy Hyz.
  pose proof (string_compare_trans_le x y z) as H.
  destruct (String.compare x y); try discriminate;
  destruct (String.compare y z); try discriminate;
  destruct (String.compare x z); try reflexivity;
  exfalso; apply H; congruence.
Qed.

#[global] Instance str_le_total : Total str_le.
Proof. intros x y. apply String.leb_total. Qed.

#[global] Instance str_le_antisym : AntiSymm eq str_le.
Proof. intros x y. apply String.leb_antisym. Qed.

#[global] Instance str_ge_trans : Transitive str_ge.
Proof. intros x y z Hxy Hyz. unfold str_ge, flip in *. etransitivity; eauto. Qed.

#[global] Instance str_ge_antisym : AntiSymm eq str_ge.
Proof. intros x y Hxy Hyx. apply str_le_antisym; assumption. Qed.

(** *** Descending sort *)

Lemma Sorted_rev_flip (l : list string) : Sorted str_le l -> Sorted str_ge (rev l).
Proof.
  intros H. apply Sorted_StronglySorted in H; [|apply _].
  apply StronglySorted_Sorted.
  induction H as [|x l Hl IH Hx]; simpl; [constructor|].
  assert (Happ : forall l1, StronglySorted str_ge l1 ->
                   Forall (fun y => str_ge y x) l1 ->
                   StronglySorted str_ge (l1 ++ [x])).
  { clear. induction 1 as [|y l1 H1 IH1 Hy]; intros Hall; simpl.
    - repeat constructor.
    - inversion Hall; subst. constructor; auto.
      apply Forall_app. split; auto. }
  apply Happ; auto.
  apply Forall_rev. eapply Forall_impl; [exact Hx|]. intros y Hy. exact Hy.
Qed.

Lemma desc_sorted l : Sorted str_ge (desc l).
Proof. apply Sorted_rev_flip. apply Sorted_merge_sort. apply _. Qed.

Lemma desc_perm l : desc l ≡ₚ l.
Proof.
  unfold desc. rewrite <- Permutation_rev. apply merge_sort_Permutation.
Qed.

Lemma desc_unique l l' : Sorted str_ge l' -> l' ≡ₚ l -> desc l = l'.
Proof.
  intros Hs Hp. apply (Sorted_unique str_ge); auto.
  - apply desc_sorted.
  - rewrite desc_perm. symmetry. exact Hp.
Qed.

Lemma desc_proper l l' : l ≡ₚ l' -> desc l = desc l'.
Proof.
  intros Hp. apply desc_unique; [apply desc_sorted|].
  rewrite desc_perm. symmetry. exact Hp.
Qed.

Lemma ins_perm x l : ins x l ≡ₚ x :: l.
Proof.
  induction l as [|y l IH]; simpl; [reflexivity|].
  destruct (decide (str_le y x)); [reflexivity|].
  rewrite IH. apply perm_swap.
Qed.

Lemma ins_sorted x l : Sorted str_ge l -> Sorted str_ge (ins x l).
Proof.
  induction l as [|y l IH]; simpl; intros Hs.
  - repeat constructor.
  - destruct (decide (str_le y x)) as [Hle|Hnle].
    + constructor; [exact Hs|]. constructor. exact Hle.
    + inversion Hs as [|? ? Hl Hhd]; subst.
      constructor; [apply IH; exact Hl|].
      assert (Hxy : str_ge y x).
      { destruct (str_le_total x y) as [H|H]; [exact H|contradiction]. }
      destruct l as [|z l]; simpl.
      * constructor. exact Hxy.
      * destruct (decide (str_le z x)); constructor; auto.
        inversion Hhd; subst. assumption.
Qed.

Lemma desc_cons x l : desc (x :: l) = ins x (desc l).
Proof.
  apply desc_unique.
  - apply ins_sorted, desc_sorted.
  - rewrite ins_perm, desc_perm. reflexivity.
Qed.

Lemma desc_of_sorted l : Sorted str_ge l -> desc l = l.
Proof. intros H. apply desc_unique; [exact H|reflexivity]. Qed.

Lemma take_cons_take k (y : string) l : take k (y :: take k l) = take k (y :: l).
Proof.
  destruct k as [|k]; simpl; [reflexivity|]. f_equal.
  rewrite take_take. f_equal. lia.
Qed.

Lemma take_ins k x : forall l, take k (ins x (take k l)) = take k (ins x l).
Proof.
  induction k as [|k IH]; intros l; [reflexivity|].
  destruct l as [|y l]; [reflexivity|]. cbn [take ins].
  destruct (decide (str_le y x)).
  - cbn [take]. f_equal. apply take_cons_take.
  - cbn [take]. f_equal. apply IH.
Qed.

Lemma sorted_take k l : Sorted str_ge l -> Sorted str_ge (take k l).
Proof.
  intros H. apply Sorted_StronglySorted in H; [|apply _].
  apply StronglySorted_Sorted.
  rewrite <- (take_drop k l) in H. eapply StronglySorted_app_1_l; eauto.
Qed.

(** Keeping the [k] newest while names arrive one by one keeps the [k]
    newest of all. *)
Lemma newest_streaming k x l l' :
  l' ≡ₚ take k (desc l) ->
  take k (desc (x :: l')) = take k (desc (x :: l)).
Proof.
  intros Hp. rewrite !desc_cons.
  rewrite (desc_proper _ _ Hp).
  rewrite desc_of_sorted by (apply sorted_take, desc_sorted).
  apply take_ins.
Qed.

Lemma take_streaming k : forall l1 l,
  take k (desc (l1 ++ take k (desc l))) = take k (desc (l1 ++ l)).
Proof.
  induction l1 as [|x l1 IH]; intros l; simpl.
  - rewrite desc_of_sorted by (apply sorted_take, desc_sorted).
    rewrite take_take. f_equal. lia.
  - rewrite <- (newest_streaming k x (l1 ++ take k (desc l))
                  (take k (desc (l1 ++ take k (desc l))))) by reflexivity.
    rewrite IH. apply newest_streaming. reflexivity.
Qed.

(** *** The backup directory *)

Lemma sorted_backups_desc files :
  sorted_backups files = desc (List.filter is_backup_name files).
Proof. reflexivity. Qed.

Lemma elem_of_filter_bool (f : string -> bool) x l :
  x ∈ List.filter f l <-> x ∈ l /\ f x = true.
Proof. rewrite !list_elem_of_In. apply filter_In. Qed.

Lemma filter_bool_perm (f : string -> bool) l l' :
  l ≡ₚ l' -> List.filter f l ≡ₚ List.filter f l'.
Proof.
  induction 1 as [|x l l' _ IH|x y l|l1 l2 l3 _ IH1 _ IH2]; simpl.
  - reflexivity.
  - destruct (f x); [constructor|]; exact IH.
  - destruct (f x), (f y); try reflexivity. apply perm_swap.
  - etransitivity; eauto.
Qed.

Lemma dom_foldl_delete (l : list string) : forall d : gmap string value,
  dom (foldl (fun d' name => delete name d') d l) = dom d ∖ list_to_set l.
Proof.
  induction l as [|x l IH]; intros d.
  - rewrite list_to_set_nil, difference_empty_L. reflexivity.
  - rewrite list_to_set_cons. cbn [foldl].
    rewrite IH, dom_delete_L, difference_difference_l_L. reflexivity.
Qed.

Lemma NoDup_take_iff (k : nat) (l : list string) x :
  NoDup l -> (x ∈ take k l <-> x ∈ l /\ x ∉ drop k l).
Proof.
  intros Hn. rewrite <- (take_drop k l) in Hn at 1.
  apply NoDup_app in Hn. destruct Hn as (_ & Hdisj & _).
  split.
  - intros Hx. split; [|auto].
    rewrite <- (take_drop k l). apply elem_of_app. left. exact Hx.
  - intros [Hx Hnx]. rewrite <- (take_drop k l) in Hx.
    apply elem_of_app in Hx. destruct Hx; [assumption|contradiction].
Qed.

Lemma NoDup_filter_bool (f : string -> bool) l :
  NoDup l -> NoDup (List.filter f l).
Proof.
  induction 1 as [|x l Hx Hl IH]; simpl; [constructor|].
  destruct (f x); [|exact IH]. constructor; [|exact IH].
  rewrite elem_of_filter_bool. tauto.
Qed.

Lemma NoDup_backups (d : gmap string value) :
  NoDup (List.filter is_backup_name (elements (dom d))).
Proof. apply NoDup_filter_bool, NoDup_elements. Qed.

(** After the loop the backups are the ten newest of before. *)
Lemma backups_after_prune (d : gmap string value) :
  List.filter is_backup_name (elements (dom (prune d))) ≡ₚ take 10 (backups_kept d).
Proof.
  assert (Hnd : NoDup (backups_kept d)).
  { unfold backups_kept. rewrite sorted_backups_desc.
    rewrite desc_perm. apply NoDup_backups. }
  apply NoDup_Permutation.
  - apply NoDup_backups.
  - rewrite <- (take_drop 10 (backups_kept d)) in Hnd.
    apply NoDup_app in Hnd. tauto.
  - intros x. rewrite elem_of_filter_bool, elem_of_elements.
    unfold prune. rewrite dom_foldl_delete.
    rewrite elem_of_difference, elem_of_list_to_set.
    fold (backups_kept d). rewrite NoDup_take_iff by exact Hnd.
    unfold backups_kept at 2. rewrite sorted_backups_desc, desc_perm.
    rewrite elem_of_filter_bool, elem_of_elements. tauto.
Qed.

Lemma backups_kept_prune (d : gmap string value) :
  backups_kept (prune d) = take 10 (backups_kept d).
Proof.
  unfold backups_kept at 1. rewrite sorted_backups_desc.
  rewrite (desc_proper _ _ (backups_after_prune d)).
  apply desc_of_sorted, sorted_take.
  unfold backups_kept. rewrite sorted_backups_desc. apply desc_sorted.
Qed.

Lemma backups_after_insert (d : gmap string value) x v :
  x ∉ dom d -> is_backup_name x = true ->
  List.filter is_backup_name (elements (dom (<[x := v]> d)))
  ≡ₚ x :: List.filter is_backup_name (elements (dom d)).
Proof.
  intros Hx Hb. rewrite dom_insert_L.
  rewrite (filter_bool_perm _ _ _ (elements_union_singleton _ _ Hx)).
  simpl. rewrite Hb. reflexivity.
Qed.

Lemma is_backup_name_backupFileName iso : is_backup_name (backupFileName iso) = true.
Proof. reflexivity. Qed.

Lemma dom_prune_subseteq (d : gmap string value) : dom (prune d) ⊆ dom d.
Proof.
  unfold prune. rewrite dom_foldl_delete. apply subseteq_difference_l. reflexivity.
Qed.

Section Rotation.
Variable w : world.

Lemma successful_backup st v st1 :
  createLocalBackup w st = (Fulfilled v, st1) -> v <> VNull ->
  exists data,
    backupDir st1
    = prune (<[backupFileName (Date_toISOString w (tick st)) := data]> (backupDir st)).
Proof.
  intros H Hv. destruct (createLocalBackup_spec w st) as (v' & st' & E & _ & _ & Hcase).
  rewrite E in H. inversion H; subst.
  destruct Hcase as [[-> _]|(data & _ & Hd)]; [congruence|eauto].
Qed.

Lemma repeat_backup_length n : forall st rs st',
  repeat_backup w n st = (rs, st') -> length rs = n.
Proof.
  induction n as [|n IH]; intros st rs st' H; simpl in H.
  - inversion H. reflexivity.
  - destruct (createLocalBackup w st) as [o st1].
    destruct (repeat_backup w n st1) as [rs' st2] eqn:E.
    inversion H; subst. simpl. f_equal. eauto.
Qed.

Lemma rotation_invariant n : forall st rs st',
  repeat_backup w n st = (rs, st') ->
  Forall (fun r => snd r <> VNull) rs ->
  NoDup (map fst rs ++ elements (dom (backupDir st))) ->
  take 10 (backups_kept (backupDir st'))
  = take 10 (desc (map fst rs
                   ++ List.filter is_backup_name (elements (dom (backupDir st))))) /\
  (n <> 0%nat -> (length (backups_kept (backupDir st')) <= 10)%nat).
Proof.
  induction n as [|n IH]; intros st rs st' H Hok Hnd; simpl in H.
  - inversion H; subst. simpl. split; [reflexivity|congruence].
  - destruct (createLocalBackup_spec w st) as (v & st1 & E & _).
    rewrite E in H.
    destruct (repeat_backup w n st1) as [rs' st2] eqn:Er.
    inversion H; subst. clear H.
    inversion Hok as [|? ? Hv Hok']; subst. simpl in Hv.
    destruct (successful_backup _ _ _ E Hv) as (data & Hd).
    set (x := backupFileName (Date_toISOString w (tick st))) in *.
    simpl in Hnd. apply NoDup_cons in Hnd. destruct Hnd as (Hx & Hnd).
    assert (Hfresh : x ∉ dom (backupDir st)).
    { intros Hin. apply Hx. apply elem_of_app. right.
      apply elem_of_elements. exact Hin. }
    assert (Hsub : dom (backupDir st1) ⊆ {[x]} ∪ dom (backupDir st)).
    { rewrite Hd. etransitivity; [apply dom_prune_subseteq|].
      rewrite dom_insert_L. reflexivity. }
    assert (Hnd1 : NoDup (map fst rs' ++ elements (dom (backupDir st1)))).
    { apply NoDup_app in Hnd. destruct Hnd as (Hn1 & Hdisj & _).
      apply NoDup_app. split; [exact Hn1|]. split; [|apply NoDup_elements].
      intros y Hy Hy'. apply elem_of_elements in Hy'.
      apply Hsub in Hy'. apply elem_of_union in Hy'. destruct Hy' as [Hy'|Hy'].
      - apply elem_of_singleton in Hy'. subst y.
        apply Hx. apply elem_of_app. left. exact Hy.
      - apply (Hdisj y Hy). apply elem_of_elements. exact Hy'. }
    destruct (IH _ _ _ Er Hok' Hnd1) as (IH1 & IH2).
    assert (Hone : List.filter is_backup_name (elements (dom (backupDir st1)))
                   ≡ₚ take 10 (desc (x :: List.filter is_backup_name
                                             (elements (dom (backupDir st)))))).
    { rewrite Hd. rewrite backups_after_prune. unfold backups_kept.
      rewrite sorted_backups_desc.
      rewrite (desc_proper _ _ (backups_after_insert _ x data Hfresh
                                  (is_backup_name_backupFileName _))).
      reflexivity. }
    split.
    + rewrite IH1. simpl.
      rewrite (desc_proper _ (map fst rs' ++ take 10 (desc (x :: List.filter
                 is_backup_name (elements (dom (backupDir st)))))))
        by (apply Permutation_app_head; exact Hone).
      rewrite take_streaming. f_equal. apply desc_proper.
      symmetry. apply Permutation_middle.
    + intros _. destruct n as [|n].
      * simpl in Er. inversion Er; subst.
        rewrite Hd, backups_kept_prune. rewrite length_take. lia.
      * apply IH2. congruence.
Qed.

(** C7. After more than ten backups in a row that all returned a path and
    wrote files under pairwise distinct new names, the backups in the
    directory are exactly ten: the first ten, in descending order of name,
    of all the backups that were there or were written. *)
Theorem ten_newest_backups_remain n st rs st' :
  repeat_backup w n st = (rs, st') ->
  (10 < n)%nat ->
  Forall (fun r => snd r <> VNull) rs ->
  NoDup (map fst rs ++ elements (dom (backupDir st))) ->
  backups_kept (backupDir st')
  = take 10 (sorted_backups (map fst rs ++ elements (dom (backupDir st)))) /\
  length (backups_kept (backupDir st')) = 10%nat.
Proof.
  intros H Hn Hok Hnd.
  destruct (rotation_invariant n _ _ _ H Hok Hnd) as (H1 & H2).
  assert (Hle : (length (backups_kept (backupDir st')) <= 10)%nat) by (apply H2; lia).
  rewrite take_ge in H1 by exact Hle.
  assert (Hfilter : List.filter is_backup_name
                      (map fst rs ++ elements (dom (backupDir st)))
                    = (map fst rs ++ List.filter is_backup_name
                                       (elements (dom (backupDir st))))%list).
  { rewrite List.filter_app. f_equal.
    clear -H. revert st rs st' H.
    induction n as [|n IH]; intros st rs st' H; simpl in H.
    - inversion H. reflexivity.
    - destruct (createLocalBackup w st) as [o st1].
      destruct (repeat_backup w n st1) as [rs' st2] eqn:E.
      inversion H; subst. simpl. f_equal. eauto. }
  rewrite sorted_backups_desc, Hfilter. split; [exact H1|].
  rewrite H1, length_take, (Permutation_length (desc_perm _)).
  rewrite length_app, length_map, (repeat_backup_length _ _ _ _ H). lia.
Qed.

End Rotation.

(** ** The content hash *)

(** C4, as amended. The hash of a document is the SHA-256 of its
    [JSON.stringify] text and of nothing else: documents with the same
    text have the same hash, and so have a document and its text. (The
    text lists the properties in insertion order.) *)
Theorem hash_is_a_function_of_the_serialization D D' text :
  JSON_stringify D = Some text ->
  JSON_stringify D' = Some text ->
  type_is_string D = false ->
  type_is_string D' = false ->
  calculateHash D = Ok (SHA256.sha256_hex text) /\
  calculateHash D' = calculateHash D /\
  calculateHash (VStr text) = calculateHash D.
Proof.
  intros H H' Hs Hs'.
  assert (forall X, JSON_stringify X = Some text -> type_is_string X = false ->
                    calculateHash X = Ok (SHA256.sha256_hex text)) as Hcalc.
  { intros X HX HsX. unfold calculateHash.
    destruct X; simpl in HsX; try discriminate; rewrite HX; reflexivity. }
  rewrite (Hcalc D H Hs), (Hcalc D' H' Hs'). repeat split; reflexivity.
Qed.

Lemma hash_is_a_function_of_the_serialization_witness :
  calculateHash sample_doc_with_undefined = calculateHash sample_doc.
Proof.
  refine (proj1 (proj2 (hash_is_a_function_of_the_serialization
                          sample_doc sample_doc_with_undefined _ _ _ _ _)));
    vm_compute; reflexivity.
Defined.

(** C4, counterexample. Two documents with the same properties, inserted
    in a different order, have different hashes. *)
Lemma insertion_order_changes_the_hash :
  same_content info_first list_first /\
  calculateHash info_first <> calculateHash list_first.
Proof.
  split.
  - apply same_reordered. apply perm_swap.
  - vm_compute. discriminate.
Qed.

(** ** The theorems on concrete environments *)

Lemma backup_completes_first_and_is_reported_witness :
  exists st2,
    CLOUD_SYNC_DOWNLOAD offline_world 1 demo_state
    = (Fulfilled
         (VObj [("status", VStr "error");
                ("error", VStr "connect ECONNREFUSED");
                ("backupPath",
                 VStr "/home/user/.config/app/userData/cloud-sync-backups/backup_2024-05-01T10-00-00-000Z.json");
                ("backupPreserved", VBool true)]), st2).
Proof.
  destruct (backup_completes_first_and_is_reported offline_world 1 demo_state)
    as (p & st1 & Hb & _ & _ & Hreport).
  pose proof (f_equal fst Hb) as Hp. pose proof (f_equal snd Hb) as Hs.
  cbn [fst snd] in Hp, Hs. clear Hb.
  exists (snd (downloadFromCloud offline_world 1 st1)).
  rewrite (Hreport (error TransportError "connect ECONNREFUSED")
             (snd (downloadFromCloud offline_world 1 st1))).
  - f_equal. f_equal. f_equal. f_equal. f_equal. f_equal.
    assert (Fulfilled p = Fulfilled (VStr "/home/user/.config/app/userData/cloud-sync-backups/backup_2024-05-01T10-00-00-000Z.json")) as Hq
      by (rewrite <- Hp; vm_compute; reflexivity).
    congruence.
  - rewrite <- Hs. vm_compute. reflexivity.
Defined.

Lemma newer_schema_is_refused_before_import_witness :
  exists e,
    downloadFromCloud newer_schema_world 1 demo_state
    = (Rejected e,
       snd (makeRequest newer_schema_world 1 download_request None demo_state)) /\
    e = incompatible_version.
Proof.
  destruct (newer_schema_is_refused_before_import newer_schema_world 1 demo_state
              newer_schema_response
              (snd (makeRequest newer_schema_world 1 download_request None demo_state))
              2) as ((e & He & Hinc) & _).
  - vm_compute. reflexivity.
  - reflexivity.
  - reflexivity.
  - exists e. split; [exact He|]. apply Hinc; reflexivity.
Defined.

Lemma absent_schema_version_is_not_checked_witness :
  In (EvImport30 (prop unversioned_response "payload"))
     (log (snd (downloadFromCloud unversioned_world 1 demo_state))).
Proof.
  destruct (absent_schema_version_is_not_checked unversioned_world 1 demo_state
              unversioned_response
              (snd (makeRequest unversioned_world 1 download_request None demo_state)))
    as (_ & Hrun).
  - vm_compute. reflexivity.
  - left. reflexivity.
  - rewrite Hrun by reflexivity. vm_compute. auto.
Defined.

Lemma metadata_comparison_witness :
  exists r st2,
    CLOUD_SYNC_GET_METADATA conflicting_world 1 demo_state = (Fulfilled r, st2) /\
    prop r "hasConflict" = VBool true.
Proof.
  destruct (metadata_comparison conflicting_world 1 demo_state
              (VObj [("status", VStr "ok"); ("exists", VBool true);
                     ("cloudTimestamp", VNum 1700000000555);
                     ("cloudHash", VStr "ab"); ("recordCount", VNum 120)])
              (snd (fetch_cloud conflicting_world 1 demo_state)))
    as (l & st2 & r & Hl & Hr & _ & Hiff & _).
  - vm_compute. reflexivity.
  - exists r, st2. split; [exact Hr|]. apply Hiff.
    apply (f_equal (fun x => match fst x with Fulfilled v => v | _ => VUndef end)) in Hl.
    cbn [fst] in Hl. rewrite <- Hl. vm_compute. repeat split; reflexivity.
Defined.

Lemma one_request_settles body export import payload url st :
  fst (makeRequest (demo_world (answering body) export import) 1 payload url st)
  <> Unsettled.
Proof.
  unfold makeRequest, send. simpl.
  destruct (negb _ && negb _); [discriminate|].
  destruct (parse_with_reference body); discriminate.
Qed.

Lemma handlers_never_reject_witness :
  fst (CLOUD_SYNC_GET_METADATA online_world 1 demo_state) <> Unsettled /\
  fst (CLOUD_SYNC_UPLOAD online_world 1 demo_state) <> Unsettled /\
  fst (CLOUD_SYNC_DOWNLOAD online_world 1 demo_state) <> Unsettled.
Proof.
  apply (handlers_never_reject online_world no_drive_api 1 demo_state).
  intros payload url s. apply one_request_settles.
Defined.

Lemma upload_then_download_keeps_the_hash_witness :
  exists answer,
    fst (AppsScript.downloadData demo_services
           (snd (AppsScript.uploadData demo_services upload_request empty_drive)))
    = Ok answer /\
    calculateHash (AppsScript.strip_provenance (prop answer "payload"))
    = calculateHash sample_doc.
Proof.
  destruct (upload_then_download_keeps_the_hash demo_services upload_request
              empty_drive
              (match fst (AppsScript.uploadData demo_services upload_request
                            empty_drive) with
               | Ok r => r
               | Err _ => VUndef
               end)
              (snd (AppsScript.uploadData demo_services upload_request empty_drive)))
    as (answer & Hd & _ & _ & Hh).
  - vm_compute. reflexivity.
  - vm_compute. reflexivity.
  - intros stamped Hs content Hc.
    apply (f_equal (fun r => match r with Ok v => v | Err _ => VUndef end)) in Hs.
    rewrite <- Hs in Hc |- *.
    apply (f_equal (fun o => match o with Some t => t | None => EmptyString end)) in Hc.
    rewrite <- Hc. vm_compute. reflexivity.
  - exists answer. rewrite Hd. split; [reflexivity|].
    apply Hh. reflexivity.
Defined.

Lemma ten_newest_backups_remain_witness :
  length (backups_kept (backupDir (snd (repeat_backup online_world 11 demo_state))))
  = 10%nat.
Proof.
  refine (proj2 (ten_newest_backups_remain online_world 11 demo_state
                   (fst (repeat_backup online_world 11 demo_state))
                   (snd (repeat_backup online_world 11 demo_state)) _ _ _ _)).
  - apply surjective_pairing.
  - lia.
  - vm_compute. repeat constructor; discriminate.
  - apply (bool_decide_unpack _). vm_compute. exact I.
Defined.

(** ** Two runs in full *)

(** After an upload the hash that the script reports is taken over the
    stored text, provenance fields included: it is not the hash the client
    computes for the very document it uploaded. *)
Example cloud_hash_covers_the_provenance_fields :
  match fst (AppsScript.getMetadata demo_services
               (snd (AppsScript.uploadData demo_services upload_request empty_drive))),
        calculateHash sample_doc with
  | Ok cloud, Ok localHash =>
      strict_eq (prop cloud "exists") (VBool true)
      && negb (strict_eq (prop cloud "cloudHash") (VStr localHash))
  | _, _ => false
  end = true.
Proof. vm_compute. reflexivity. Qed.

(** Eleven backups, one every two ticks of the clock: the first one is gone. *)
Example eleven_backups :
  backups_kept (backupDir (snd (repeat_backup online_world 11 demo_state)))
  = map (fun t => "backup_2024-05-01T10-00-" +:+ two_digits t +:+ "-000Z.json")
        [20; 18; 16; 14; 12; 10; 8; 6; 4; 2]%nat.
Proof. vm_compute. reflexivity. Qed.

(** * Further properties of the code *)

(** ** The record count *)

Lemma get_prop_defined v k : nullish v = false -> get_prop v k = Ok (prop v k).
Proof. destruct v; simpl; try discriminate; reflexivity. Qed.

Lemma array_length_nonneg v : 0 <= array_length v.
Proof. destruct v; simpl; lia. Qed.

Lemma count_bucket (l : value) (count : Z) :
  (if truthy l && is_array l then count + array_length l else count)
  = count + array_length l.
Proof. destruct l; simpl; rewrite ?andb_false_r; lia. Qed.

Lemma count_accounts_defined accounts : forall count,
  Forall (fun a => nullish a = false) accounts ->
  count_accounts accounts count = Ok (count + sum_of (map bucket_size accounts)).
Proof.
  induction accounts as [|a rest IH]; intros count H; simpl.
  - f_equal. unfold sum_of. simpl. lia.
  - inversion H as [|? ? Ha Hrest]; subst.
    rewrite (get_prop_defined _ _ Ha). simpl.
    destruct (truthy (prop a "list") && is_array (prop a "list")) eqn:E.
    + rewrite IH by assumption. f_equal. unfold sum_of, bucket_size. simpl. lia.
    + rewrite IH by assumption. f_equal.
      pose proof (count_bucket (prop a "list") count) as Hc. rewrite E in Hc.
      unfold sum_of, bucket_size. simpl. fold (sum_of (map bucket_size rest)).
      unfold bucket_size. lia.
Qed.

Lemma count_accounts_null before a after : forall count,
  Forall (fun a => nullish a = false) before -> nullish a = true ->
  count_accounts (before ++ a :: after) count = Err (cannot_read a "list").
Proof.
  induction before as [|b before IH]; intros count H Ha; simpl.
  - destruct a; simpl in *; try discriminate; reflexivity.
  - inversion H as [|? ? Hb Hrest]; subst.
    rewrite (get_prop_defined _ _ Hb). simpl.
    destruct (_ && _); apply IH; auto.
Qed.

Lemma split_at_first_nullish (l : list value) :
  Forall (fun a => nullish a = false) l \/
  exists before a after, l = (before ++ a :: after)%list /\
    Forall (fun a => nullish a = false) before /\ nullish a = true.
Proof.
  induction l as [|x l IH].
  - left. constructor.
  - destruct (nullish x) eqn:E.
    + right. exists [], x, l. repeat split; auto.
    + destruct IH as [IH | (before & a & after & -> & Hb & Ha)].
      * left. constructor; auto.
      * right. exists (x :: before), a, after. repeat split; auto.
Qed.

Lemma sum_of_nonneg accounts : 0 <= sum_of (map bucket_size accounts).
Proof.
  induction accounts as [|a l IH]; unfold sum_of in *; simpl; [lia|].
  pose proof (array_length_nonneg (prop a "list")). unfold bucket_size at 1. lia.
Qed.

Lemma countRecords_hk4e data accounts :
  prop data "hk4e" = VArr accounts ->
  countRecords data = count_accounts accounts 0.
Proof.
  intros H. unfold countRecords. rewrite H.
  destruct data; cbn in H; try discriminate. reflexivity.
Qed.

Lemma countRecords_other data :
  is_array (prop data "hk4e") = false ->
  countRecords data = Ok (array_length (prop data "list")).
Proof.
  intros H. unfold countRecords. rewrite H, andb_false_r.
  destruct (truthy data && truthy (prop data "list") && is_array (prop data "list")) eqn:E;
    [reflexivity|].
  f_equal. destruct data; try reflexivity.
  destruct (prop (VObj fields) "list"); try reflexivity. discriminate.
Qed.

Lemma first_nullish_unique (before : list value) a after : forall b x c,
  (before ++ a :: after)%list = (b ++ x :: c)%list ->
  Forall (fun a => nullish a = false) before -> nullish a = true ->
  Forall (fun a => nullish a = false) b -> nullish x = true ->
  before = b /\ a = x.
Proof.
  induction before as [|y before IH]; intros [|z b] x c Heq Hb Ha Hb' Hx;
    simpl in Heq; inversion Heq; subst.
  - auto.
  - inversion Hb'; subst. congruence.
  - inversion Hb; subst. congruence.
  - inversion Hb; subst. inversion Hb'; subst.
    destruct (IH b x c) as (-> & ->); auto.
Qed.

(** X1. [countRecords] of a document whose [hk4e] is an array without
    [null] or [undefined] bucket is the sum, over the buckets, of the
    length of the bucket's [list] when that is an array (a bucket without
    an array [list] counts for nothing); a top-level [list] beside [hk4e]
    is not counted. *)
Theorem countRecords_adds_up_the_buckets data accounts :
  prop data "hk4e" = VArr accounts ->
  Forall (fun a => nullish a = false) accounts ->
  countRecords data = Ok (sum_of (map bucket_size accounts)).
Proof.
  intros H Hok. rewrite (countRecords_hk4e _ _ H).
  rewrite count_accounts_defined by assumption. f_equal.
Qed.

Lemma countRecords_adds_up_the_buckets_witness : countRecords uigf4_doc = Ok 3.
Proof.
  apply (countRecords_adds_up_the_buckets uigf4_doc
           [VObj [("uid", VStr "100000001");
                  ("list", VArr [VObj [("id", VStr "1")]; VObj [("id", VStr "2")]])];
            VObj [("uid", VStr "100000002")];
            VNum 7;
            VObj [("uid", VStr "100000003");
                  ("list", VArr [VObj [("id", VStr "3")]])]]).
  - reflexivity.
  - repeat constructor.
Defined.


(** X2. [countRecords] throws in one case only: [hk4e] is an array and
    has a [null] or [undefined] bucket; the error is the TypeError of
    reading [list] from the first such bucket.  In every other case it
    returns a number that is not negative. *)
Theorem countRecords_fails_only_on_a_null_bucket data :
  (forall e, countRecords data = Err e <->
     exists before a after,
       prop data "hk4e" = VArr (before ++ a :: after) /\
       Forall (fun a => nullish a = false) before /\ nullish a = true /\
       e = cannot_read a "list") /\
  (forall n, countRecords data = Ok n -> 0 <= n).
Proof.
  destruct (prop data "hk4e") as [| | | | |accounts|] eqn:H;
    try (rewrite countRecords_other by (rewrite H; reflexivity);
         split; [intros e; split; [discriminate|intros (?&?&?&?&_); discriminate]
                |intros ? [= <-]; apply array_length_nonneg]).
  rewrite (countRecords_hk4e _ _ H).
  destruct (split_at_first_nullish accounts) as [Hok | (before & a & after & -> & Hb & Ha)].
  - rewrite count_accounts_defined by assumption. split.
    + intros e. split; [discriminate|].
      intros (b & x & c & [= ->] & _ & Hx & _).
      apply Forall_app in Hok. destruct Hok as (_ & Hok).
      inversion Hok; subst. congruence.
    + intros n [= <-]. pose proof (sum_of_nonneg accounts). lia.
  - rewrite count_accounts_null by assumption. split.
    + intros e. split.
      * intros [= <-]. exists before, a, after. auto.
      * intros (b & x & c & [= Heq] & Hb' & Hx & ->). f_equal. f_equal.
        assert (Hsame : before = b /\ a = x) by (eapply first_nullish_unique; eauto).
        destruct Hsame as (_ & ->). reflexivity.
    + discriminate.
Qed.

Lemma countRecords_fails_only_on_a_null_bucket_witness :
  countRecords doc_with_null_bucket = Err (cannot_read VNull "list").
Proof.
  apply (proj2 (proj1 (countRecords_fails_only_on_a_null_bucket doc_with_null_bucket)
                      (cannot_read VNull "list"))).
  exists [VObj [("uid", VStr "100000001"); ("list", VArr [])]], VNull, [].
  split; [reflexivity|]. split; [repeat constructor|]. split; reflexivity.
Defined.

(** ** What is sent, and when *)

Section Transport.
Variable w : world.

Lemma send_cases payload url st x st' :
  send w payload url st = (x, st') ->
  (st' = st /\ exists e, x = Settled (Rejected e)) \/
  (exists rq,
     st' = advance (emit (EvRequest rq) st) /\
     req_method rq = (if opt_truthy url then GET else POST) /\
     req_body rq = (if truthy payload && negb (opt_truthy url)
                    then JSON_stringify payload else None) /\
     (forall newUrl, x = Redirect newUrl ->
        exists location base, str_truthy location = true /\
                              URL_resolve w location base = Some newUrl) /\
     (forall v, x = Settled (Fulfilled v) ->
        exists statusCode location body,
          net w (tick st) rq = NetResponse statusCode location body /\
          200 <= statusCode < 300 /\ JSON_parse w body = Returns v)).
Proof.
  unfold send. intros H.
  destruct (negb (str_truthy (googleAppsScriptUrl (cfg st))) && negb (opt_truthy url)).
  { inversion H; subst. left. eauto. }
  destruct (URL_parse w _) as [[hostname path]|].
  2: { inversion H; subst. left. eauto. }
  right. eexists. 
  destruct (net w (tick st) _) as [msg| |statusCode location body] eqn:N.
  1,2: inversion H; subst; split; [reflexivity|]; split; [reflexivity|];
       split; [reflexivity|]; split; intros ? [=].
  destruct ((300 <=? statusCode) && (statusCode <? 400) && opt_truthy location) eqn:R.
  - apply andb_prop in R. destruct R as (_ & Hloc).
    destruct location as [location|]; [|discriminate]. simpl in *.
    destruct (URL_resolve w location _) as [newUrl|] eqn:U.
    + inversion H; subst. split; [reflexivity|]. split; [reflexivity|].
      split; [reflexivity|]. split; [|intros ? [=]].
      intros ? [= <-]. eauto.
    + inversion H; subst. split; [reflexivity|]. split; [reflexivity|].
      split; [reflexivity|]. split; intros ? [=].
  - destruct ((200 <=? statusCode) && (statusCode <? 300)) eqn:S2.
    + destruct (JSON_parse w body) as [v|msg c] eqn:P.
      * inversion H; subst. split; [reflexivity|]. split; [reflexivity|].
        split; [reflexivity|]. split; [intros ? [=]|].
        intros ? [= <-]. exists statusCode, location, body.
        split; [exact N|]. split; [lia|exact P].
      * inversion H; subst. split; [reflexivity|]. split; [reflexivity|].
        split; [reflexivity|]. split; intros ? [=].
    + inversion H; subst. split; [reflexivity|]. split; [reflexivity|].
      split; [reflexivity|]. split; intros ? [=].
Qed.

Lemma redirected_requests fuel : forall url st o st',
  resolves_to_urls w -> str_truthy url = true ->
  makeRequest w fuel VNull (Some url) st = (o, st') ->
  exists evs, log st' = (log st ++ evs)%list /\ Forall bodiless_get evs.
Proof.
  induction fuel as [|fuel IH]; intros url st o st' Hw Hurl H; simpl in H.
  - inversion H; subst. exists []. rewrite app_nil_r. auto.
  - destruct (send w VNull (Some url) st) as [x s1] eqn:E.
    apply send_cases in E.
    destruct E as [(-> & e & ->) | (rq & -> & Hm & Hb & Hr & _)].
    + inversion H; subst. exists []. rewrite app_nil_r. auto.
    + simpl in Hm, Hb. rewrite Hurl in Hm.
      assert (Hget : bodiless_get (EvRequest rq)) by (exists rq; auto).
      destruct x as [o1|newUrl].
      * inversion H; subst. exists [EvRequest rq]. split; [reflexivity|]. auto.
      * destruct (Hr _ eq_refl) as (location & base & Hl & Hres).
        apply IH in H; [|exact Hw|eapply Hw; eauto].
        destruct H as (evs & Hlog & Hall).
        exists (EvRequest rq :: evs). split; [|auto].
        rewrite Hlog. simpl. rewrite <- app_assoc. reflexivity.
Qed.

End Transport.

(** X3. Of the requests that one call [makeRequest(payload)] sends, only
    the first is a POST and carries [JSON.stringify(payload)] (no body when
    the payload is falsy); every request that follows a redirect is a GET
    without body.  ([new URL(...).toString()] is taken never to be the
    empty string.) *)
Theorem only_the_first_request_carries_the_payload w fuel payload st o st' :
  resolves_to_urls w ->
  makeRequest w fuel payload None st = (o, st') ->
  log st' = log st \/
  exists first rest,
    log st' = (log st ++ first :: rest)%list /\
    carries payload first /\ Forall bodiless_get rest.
Proof.
  intros Hw H. destruct fuel as [|fuel]; simpl in H.
  - inversion H; subst. left. reflexivity.
  - destruct (send w payload None st) as [x s1] eqn:E.
    apply send_cases in E.
    destruct E as [(-> & e & ->) | (rq & -> & Hm & Hb & Hr & _)].
    + inversion H; subst. left. reflexivity.
    + simpl in Hm, Hb. rewrite andb_true_r in Hb. right.
      assert (Hfirst : carries payload (EvRequest rq)) by (exists rq; auto).
      destruct x as [o1|newUrl].
      * inversion H; subst. exists (EvRequest rq), []. auto.
      * destruct (Hr _ eq_refl) as (location & base & Hl & Hres).
        apply redirected_requests in H; [|exact Hw|eapply Hw; eauto].
        destruct H as (evs & Hlog & Hall).
        exists (EvRequest rq), evs. split; [|auto].
        rewrite Hlog. simpl. rewrite <- app_assoc. reflexivity.
Qed.

Lemma only_the_first_request_carries_the_payload_witness :
  log (snd (makeRequest six_hops_world 7 metadata_request None demo_state))
  = log demo_state \/
  exists first rest,
    log (snd (makeRequest six_hops_world 7 metadata_request None demo_state))
    = (log demo_state ++ first :: rest)%list /\
    carries metadata_request first /\ Forall bodiless_get rest.
Proof.
  apply (only_the_first_request_carries_the_payload six_hops_world 7 metadata_request
           demo_state
           (fst (makeRequest six_hops_world 7 metadata_request None demo_state))).
  - intros location base newUrl Hl H. simpl in H. congruence.
  - apply surjective_pairing.
Defined.


(** X4. The promise of [makeRequest] is fulfilled only with what
    [JSON.parse] made of the body of an answer with a status from 200 to
    299, and that answer is the one to the last request sent. *)
Theorem a_request_is_fulfilled_only_by_a_2xx_answer w fuel :
  forall payload url st v st',
  makeRequest w fuel payload url st = (Fulfilled v, st') ->
  exists rq statusCode location body,
    last (log st') = Some (EvRequest rq) /\
    net w (pred (tick st')) rq = NetResponse statusCode location body /\
    200 <= statusCode < 300 /\
    JSON_parse w body = Returns v.
Proof.
  induction fuel as [|fuel IH]; intros payload url st v st' H; simpl in H.
  - discriminate.
  - destruct (send w payload url st) as [x s1] eqn:E.
    destruct x as [o1|newUrl]; [|eauto].
    inversion H; subst.
    apply send_cases in E.
    destruct E as [(-> & e & [=]) | (rq & -> & _ & _ & _ & Hv)].
    destruct (Hv _ eq_refl) as (statusCode & location & body & Hn & Hs & Hp).
    exists rq, statusCode, location, body. split; [|auto].
    simpl. apply last_snoc.
Qed.

Lemma a_request_is_fulfilled_only_by_a_2xx_answer_witness :
  exists rq statusCode location body,
    last (log (snd (makeRequest six_hops_world 7 metadata_request None demo_state)))
    = Some (EvRequest rq) /\
    net six_hops_world
        (pred (tick (snd (makeRequest six_hops_world 7 metadata_request None demo_state))))
        rq
    = NetResponse statusCode location body /\
    200 <= statusCode < 300 /\
    JSON_parse six_hops_world body
    = Returns (VObj [("status", VStr "ok"); ("exists", VBool false)]).
Proof.
  apply (a_request_is_fulfilled_only_by_a_2xx_answer six_hops_world 7 metadata_request
           None demo_state).
  rewrite (surjective_pairing (makeRequest _ _ _ _ _)).
  apply f_equal2; [vm_compute; reflexivity|reflexivity].
Defined.


Section Client.
Variable w : world.

Lemma makeRequest_no_endpoint fuel payload st :
  googleAppsScriptUrl (cfg st) = EmptyString ->
  makeRequest w (S fuel) payload None st = (Rejected no_endpoint, st).
Proof. intros H. simpl. unfold send. rewrite H. reflexivity. Qed.

Lemma getClientId_cases st :
  (str_truthy (cloudSyncClientId (cfg st)) = true /\
   getClientId w st = (Fulfilled (cloudSyncClientId (cfg st)), st)) \/
  (str_truthy (cloudSyncClientId (cfg st)) = false /\
   let id := randomUUID w (tick st) in
   let c := with_clientId (cfg st) id in
   getClientId w st
   = (Fulfilled id,
      {| cfg := c; backupDir := backupDir st; tick := S (S (tick st));
         log := (log st ++ [EvSave c])%list |})).
Proof.
  unfold getClientId, bind, get_cfg.
  destruct (str_truthy (cloudSyncClientId (cfg st))) eqn:E; simpl.
  - left. auto.
  - right. split; [reflexivity|].
    unfold read_clock, set_cfg, config_save_unawaited, try_catch, config_save_call,
      bind, get_cfg, call, ret. simpl.
    destruct (config_save w _ _); reflexivity.
Qed.

End Client.

(** X5. With no Apps Script URL in the configuration, nothing is sent:
    [getCloudMetadata] and [downloadFromCloud] are rejected with 'Please
    set Google Apps Script URL in settings.' and leave the state as it
    was; [uploadToCloud] is rejected too, has sent no request, and fails
    with that message whenever the export and its hash succeeded. *)
Theorem nothing_is_sent_without_an_endpoint w fuel st :
  googleAppsScriptUrl (cfg st) = EmptyString ->
  getCloudMetadata w (S fuel) st = (Rejected no_endpoint, st) /\
  downloadFromCloud w (S fuel) st = (Rejected no_endpoint, st) /\
  exists e st',
    uploadToCloud w (S fuel) st = (Rejected e, st') /\
    (exists evs, log st' = (log st ++ evs)%list /\
                 Forall (fun ev => ~ is_request ev) evs) /\
    (forall data s1 h,
       generateData w st = (Fulfilled data, s1) -> calculateHash data = Ok h ->
       e = no_endpoint).
Proof.
  intros Hurl. split; [|split].
  - unfold getCloudMetadata, bind. rewrite makeRequest_no_endpoint by exact Hurl.
    reflexivity.
  - unfold downloadFromCloud, bind. rewrite makeRequest_no_endpoint by exact Hurl.
    reflexivity.
  - unfold uploadToCloud, bind.
    destruct (generateData_spec w st) as (Hs & Hu & _).
    destruct (generateData w st) as [[data|e0|] s1]; cbn [fst snd] in *; subst s1;
      try congruence.
    2: { do 2 eexists. split; [reflexivity|]. split.
         - exists [EvGenerate]. split; [reflexivity|].
           repeat constructor. intros (rq & [=]).
         - intros ? ? ? [=]. }
    set (s1 := advance (emit EvGenerate st)).
    assert (Hnot : forall c, ~ is_request (EvSave c)) by (intros c (rq & [=])).
    assert (Hgen : ~ is_request EvGenerate) by (intros (rq & [=])).
    assert (Hend : forall s2 evs,
              log s2 = (log st ++ evs)%list -> cfg s2 = cfg s1 \/ googleAppsScriptUrl (cfg s2) = EmptyString ->
              Forall (fun ev => ~ is_request ev) evs ->
              exists e st',
                (await dataHash <- lift (calculateHash data);
                 await response <- makeRequest w (S fuel)
                   (VObj [("action", VStr "upload");
                          ("schemaVersion", VNum SCHEMA_VERSION);
                          ("appVersion", VStr (APP_VERSION w));
                          ("clientId", VStr (cloudSyncClientId (cfg s2)));
                          ("timestamp", VNum (Date_now w (pred (tick s2))));
                          ("dataHash", VStr dataHash);
                          ("payload", data)]) None;
                 perform check_status response;
                 perform stamp_lastSync w;
                 ret response) s2 = (Rejected e, st') /\
                (exists evs, log st' = (log st ++ evs)%list /\
                             Forall (fun ev => ~ is_request ev) evs) /\
                (forall h, calculateHash data = Ok h -> e = no_endpoint)).
    { intros s2 evs Hlog Hcfg Hall. unfold bind, lift.
      assert (Hurl2 : googleAppsScriptUrl (cfg s2) = EmptyString).
      { destruct Hcfg as [-> | ?]; auto. }
      destruct (calculateHash data) as [h|e1]; cbn [ret throw].
      - rewrite makeRequest_no_endpoint by exact Hurl2.
        do 2 eexists. split; [reflexivity|]. split; [eauto|]. reflexivity.
      - do 2 eexists. split; [reflexivity|]. split; [eauto|]. discriminate. }
    destruct (getClientId_cases w s1) as [(_ & ->) | (_ & ->)];
      unfold read_clock; cbn [fst snd].
    + destruct (Hend (advance s1) [EvGenerate]) as (e & st' & He & Hl & Hm);
        [reflexivity|left; reflexivity|repeat constructor; auto|].
      exists e, st'. split; [exact He|]. split; [exact Hl|].
      intros ? ? h [= <- <-] Hh. eauto.
    + match goal with |- context [advance ?s] =>
        destruct (Hend (advance s) [EvGenerate; EvSave (cfg s)])
          as (e & st' & He & Hl & Hm) end;
        [simpl; rewrite <- app_assoc; reflexivity|right; exact Hurl
        |repeat constructor; auto|].
      exists e, st'. split; [exact He|]. split; [exact Hl|].
      intros ? ? h [= <- <-] Hh. eauto.
Qed.

Lemma nothing_is_sent_without_an_endpoint_witness :
  downloadFromCloud offline_world 1 unconfigured_state
  = (Rejected no_endpoint, unconfigured_state).
Proof.
  apply (proj1 (proj2 (nothing_is_sent_without_an_endpoint offline_world 0
                         unconfigured_state eq_refl))).
Defined.


(** X6. [getClientId] always returns: an id that is set is returned as it
    is, with nothing changed; otherwise the new UUID is stored in the
    configuration and [config.save] is called with it.  A second call
    returns the same id and changes nothing. *)
Theorem the_client_id_is_generated_once w st :
  exists id st1,
    getClientId w st = (Fulfilled id, st1) /\
    (cloudSyncClientId (cfg st) <> EmptyString ->
     id = cloudSyncClientId (cfg st) /\ st1 = st) /\
    (cloudSyncClientId (cfg st) = EmptyString ->
     id = randomUUID w (tick st) /\
     cfg st1 = with_clientId (cfg st) id /\
     log st1 = (log st ++ [EvSave (cfg st1)])%list) /\
    (id <> EmptyString -> getClientId w st1 = (Fulfilled id, st1)).
Proof.
  destruct (getClientId_cases w st) as [(Ht & E) | (Ht & E)]; rewrite E;
    do 2 eexists; (split; [reflexivity|]).
  - split; [auto|]. split.
    + intros Hempty. rewrite Hempty in Ht. discriminate.
    + intros _. rewrite E. reflexivity.
  - assert (Hempty : cloudSyncClientId (cfg st) = EmptyString).
    { unfold str_truthy in Ht. apply negb_false_iff, String.eqb_eq in Ht. exact Ht. }
    split; [congruence|]. split; [auto|].
    intros Hid.
    match goal with |- getClientId w ?s = _ =>
      destruct (getClientId_cases w s) as [(_ & E') | (Ht' & _)] end.
    + exact E'.
    + simpl in Ht'. unfold str_truthy in Ht'.
      apply negb_false_iff, String.eqb_eq in Ht'. congruence.
Qed.

Lemma the_client_id_is_generated_once_witness :
  exists id st1,
    getClientId online_world first_run_state = (Fulfilled id, st1) /\
    getClientId online_world st1 = (Fulfilled id, st1).
Proof.
  destruct (the_client_id_is_generated_once online_world first_run_state)
    as (id & st1 & Hfirst & _ & Hnew & Hagain).
  exists id, st1. split; [exact Hfirst|]. apply Hagain.
  destruct (Hnew eq_refl) as (-> & _). discriminate.
Defined.

(** ** The hash of the export, locally and on the wire *)

Section ClientSteps.
Variable w : world.

Lemma generateData_run st :
  exists o, generateData w st = (o, advance (emit EvGenerate st)) /\ o <> Unsettled.
Proof.
  destruct (generateData_spec w st) as (Hs & Hu & _).
  destruct (generateData w st) as [o s1]. simpl in *. subst. eauto.
Qed.

Lemma stamp_lastSync_run st :
  let c := with_lastSync (cfg st) (VNum (Date_now w (tick st))) in
  exists o,
    stamp_lastSync w st
    = (o, {| cfg := c; backupDir := backupDir st; tick := S (S (tick st));
             log := (log st ++ [EvSave c])%list |}) /\
    o <> Unsettled.
Proof.
  unfold stamp_lastSync, config_save_call, bind, read_clock, get_cfg, set_cfg, call.
  simpl.
  match goal with |- context [config_save w ?t ?c] => destruct (config_save w t c) end;
    eexists; split; try reflexivity; discriminate.
Qed.


Lemma grows_refl st : grows st st.
Proof. exists []. rewrite app_nil_r. reflexivity. Qed.

Lemma grows_trans s1 s2 s3 : grows s1 s2 -> grows s2 s3 -> grows s1 s3.
Proof.
  intros (e1 & H1) (e2 & H2). exists (e1 ++ e2)%list.
  rewrite H2, H1, <- app_assoc. reflexivity.
Qed.

Lemma bind_grows {A B} (m : M A) (k : A -> M B) s :
  (forall a s', grows s' (snd (k a s'))) -> grows (snd (m s)) (snd (bind m k s)).
Proof.
  intros Hk. unfold bind. destruct (m s) as [[a|e|] s']; simpl;
    [apply Hk|apply grows_refl|apply grows_refl].
Qed.

Lemma upload_tail_grows response s :
  grows s (snd ((perform check_status response; perform stamp_lastSync w; ret response) s)).
Proof.
  unfold bind.
  destruct (check_status_spec response s) as (Hs & _).
  destruct (check_status response s) as [[[]|e|] s1]; simpl in *; subst;
    try apply grows_refl.
  destruct (stamp_lastSync_run s) as (o & -> & _).
  destruct o as [[]|e|]; simpl; eexists; reflexivity.
Qed.

Lemma first_request fuel payload st hostname path :
  googleAppsScriptUrl (cfg st) <> EmptyString ->
  URL_parse w (googleAppsScriptUrl (cfg st)) = Some (hostname, path) ->
  grows (advance (emit (EvRequest
                          {| req_method := POST; req_hostname := hostname;
                             req_path := path;
                             req_body := if truthy payload
                                         then JSON_stringify payload else None |}) st))
        (snd (makeRequest w (S fuel) payload None st)).
Proof.
  intros Hurl Hparse. simpl. unfold send. cbn [opt_truthy negb andb].
  assert (Ht : str_truthy (googleAppsScriptUrl (cfg st)) = true).
  { unfold str_truthy. apply negb_true_iff. apply String.eqb_neq. exact Hurl. }
  rewrite Ht. cbn [negb andb]. rewrite Hparse. rewrite andb_true_r.
  match goal with |- context [net w ?t ?rq] => destruct (net w t rq) as [msg| |sc loc body] end;
    try apply grows_refl.
  destruct ((300 <=? sc) && (sc <? 400) && opt_truthy loc).
  - destruct (URL_resolve w _ _) as [newUrl|]; [|apply grows_refl].
    match goal with |- context [makeRequest w fuel ?p ?u ?s] =>
      destruct (makeRequest w fuel p u s) as [o1 s3] eqn:E end.
    apply makeRequest_frame in E. destruct E as (_ & _ & evs & Hl & _).
    exists evs. exact Hl.
  - destruct ((200 <=? sc) && (sc <? 300)); [|apply grows_refl].
    destruct (JSON_parse w body); apply grows_refl.
Qed.


Lemma check_status_fulfilled response st u st' :
  check_status response st = (Fulfilled u, st') ->
  st' = st /\ strict_eq (prop response "status") (VStr "error") = false.
Proof.
  unfold check_status, bind, lift.
  destruct response as [| | | | | |fs]; simpl; try discriminate;
    try (intros H; inversion H; split; reflexivity).
  fold (prop (VObj fs) "status").
  destruct (strict_eq (prop (VObj fs) "status") (VStr "error")); simpl;
    [discriminate|]. intros H; inversion H. auto.
Qed.

End ClientSteps.

(** X7. When the export succeeds, [getLocalMetadata] answers with
    [exists: true], the document, its record count, the time of the last
    sync (the current time when there was none) and, as [localHash], the
    SHA-256 of [JSON.stringify] of the document; it changes neither the
    configuration nor the backups.  For a document that is no string this
    hash is [calculateHash] of it, which is what [uploadToCloud] sends as
    [dataHash]. *)
Theorem the_local_hash_is_the_hash_of_the_export w st data s1 text n :
  generateData w st = (Fulfilled data, s1) ->
  JSON_stringify data = Some text ->
  countRecords data = Ok n ->
  (exists st',
     getLocalMetadata w st
     = (Fulfilled
          (VObj [("exists", VBool true);
                 ("localTimestamp",
                  if truthy (googleDriveLastSync (cfg st))
                  then googleDriveLastSync (cfg st)
                  else VNum (Date_now w (tick s1)));
                 ("localHash", VStr (SHA256.sha256_hex text));
                 ("recordCount", VNum n);
                 ("data", data)]), st') /\
     cfg st' = cfg st /\ backupDir st' = backupDir st) /\
  (type_is_string data = false -> calculateHash data = Ok (SHA256.sha256_hex text)).
Proof.
  intros Hgen Htext Hn. split.
  - unfold getLocalMetadata, try_catch, bind. rewrite Hgen, Htext.
    destruct (generateData_run w st) as (o & Hrun & _). rewrite Hgen in Hrun.
    inversion Hrun; subst. clear Hrun.
    unfold get_cfg. cbn [fst snd cfg advance emit].
    destruct (truthy (googleDriveLastSync (cfg st))); unfold ret, read_clock, lift;
      cbn [calculateHash]; rewrite Hn; eexists; split; try reflexivity; auto.
  - intros Hs. unfold calculateHash. destruct data; try discriminate;
      rewrite Htext; reflexivity.
Qed.

Lemma the_local_hash_is_the_hash_of_the_export_witness :
  calculateHash sample_doc
  = Ok (SHA256.sha256_hex
          (json_text "{'info':{'uid':'100000001','lang':'en-us'},'list':[{'id':'1','name':'Jean','rank_type':5},{'id':'2','name':'a\\b','rank_type':-4}]}")).
Proof.
  refine (proj2 (the_local_hash_is_the_hash_of_the_export online_world demo_state
                   sample_doc (snd (generateData online_world demo_state))
                   _ 2 _ _ _) _).
  - reflexivity.
  - vm_compute. reflexivity.
  - reflexivity.
  - reflexivity.
Defined.


(** X8. When the export and its hash succeed and the endpoint URL is set
    and valid, the first request of [uploadToCloud] is a POST to the host
    and path of that URL whose body is [JSON.stringify] of [action],
    [schemaVersion], [appVersion], [clientId], [timestamp], [dataHash] and
    [payload], in this order, with the document as payload and its hash as
    [dataHash]. *)
Theorem an_upload_posts_the_export_with_its_hash w fuel st data s1 h hostname path :
  generateData w st = (Fulfilled data, s1) ->
  calculateHash data = Ok h ->
  googleAppsScriptUrl (cfg st) <> EmptyString ->
  URL_parse w (googleAppsScriptUrl (cfg st)) = Some (hostname, path) ->
  exists clientId s2 rest,
    getClientId w s1 = (Fulfilled clientId, s2) /\
    log (snd (uploadToCloud w (S fuel) st))
    = (log s2
       ++ EvRequest
            {| req_method := POST; req_hostname := hostname; req_path := path;
               req_body :=
                 JSON_stringify
                   (VObj [("action", VStr "upload");
                          ("schemaVersion", VNum SCHEMA_VERSION);
                          ("appVersion", VStr (APP_VERSION w));
                          ("clientId", VStr clientId);
                          ("timestamp", VNum (Date_now w (tick s2)));
                          ("dataHash", VStr h);
                          ("payload", data)]) |} :: rest)%list.
Proof.
  intros Hgen Hh Hurl Hparse.
  destruct (generateData_run w st) as (o & Hrun & _). rewrite Hgen in Hrun.
  inversion Hrun; subst. clear Hrun.
  set (s1 := advance (emit EvGenerate st)) in *.
  destruct (getClientId_spec w s1) as (clientId & s2 & Hid & _ & _).
  assert (Hc : googleAppsScriptUrl (cfg s2) = googleAppsScriptUrl (cfg st)).
  { destruct (getClientId_cases w s1) as [(_ & E) | (_ & E)]; rewrite E in Hid;
      inversion Hid; subst; reflexivity. }
  exists clientId, s2.
  unfold uploadToCloud. unfold bind at 1. rewrite Hgen.
  unfold bind at 1. rewrite Hid.
  unfold bind at 1. unfold read_clock.
  unfold bind at 1. unfold lift. rewrite Hh. unfold ret at 1.
  match goal with |- context [bind (makeRequest w (S fuel) ?p None) ?k ?s] =>
    pose proof (bind_grows (makeRequest w (S fuel) p None) k s
                  (fun a s' => upload_tail_grows w a s')) as Hg;
    pose proof (first_request w fuel p s hostname path) as Hf
  end.
  cbn [cfg advance] in Hf. rewrite Hc in Hf. specialize (Hf Hurl Hparse).
  destruct (grows_trans _ _ _ Hf Hg) as (rest & Hrest).
  exists rest. split; [reflexivity|]. rewrite Hrest. cbn [log advance emit truthy tick].
  rewrite <- app_assoc. reflexivity.
Qed.

Lemma an_upload_posts_the_export_with_its_hash_witness :
  exists clientId s2 rest,
    getClientId online_world (snd (generateData online_world demo_state))
    = (Fulfilled clientId, s2) /\
    log (snd (uploadToCloud online_world 1 demo_state))
    = (log s2
       ++ EvRequest
            {| req_method := POST; req_hostname := "script.example";
               req_path := "https://script.example/exec";
               req_body :=
                 JSON_stringify
                   (VObj [("action", VStr "upload");
                          ("schemaVersion", VNum SCHEMA_VERSION);
                          ("appVersion", VStr (APP_VERSION online_world));
                          ("clientId", VStr clientId);
                          ("timestamp", VNum (Date_now online_world (tick s2)));
                          ("dataHash",
                           VStr (SHA256.sha256_hex
                                   (default EmptyString (JSON_stringify sample_doc))));
                          ("payload", sample_doc)]) |} :: rest)%list.
Proof.
  apply (an_upload_posts_the_export_with_its_hash online_world 0 demo_state sample_doc).
  - reflexivity.
  - vm_compute. reflexivity.
  - discriminate.
  - reflexivity.
Defined.

(** ** A sync that succeeds *)

Section Success.
Variable w : world.

Lemma send_tick payload url st x st' :
  send w payload url st = (x, st') -> (tick st <= tick st')%nat.
Proof.
  intros H. apply send_cases in H.
  destruct H as [(-> & _) | (rq & -> & _)]; simpl; lia.
Qed.

Lemma makeRequest_tick fuel : forall payload url st o st',
  makeRequest w fuel payload url st = (o, st') -> (tick st <= tick st')%nat.
Proof.
  induction fuel as [|fuel IH]; intros payload url st o st' H; simpl in H.
  - inversion H; subst. lia.
  - destruct (send w payload url st) as [[o1|newUrl] s1] eqn:E;
      apply send_tick in E.
    + inversion H; subst. exact E.
    + apply IH in H. lia.
Qed.

Lemma stamp_lastSync_fulfilled st u st' :
  stamp_lastSync w st = (Fulfilled u, st') ->
  st' = {| cfg := with_lastSync (cfg st) (VNum (Date_now w (tick st)));
           backupDir := backupDir st; tick := S (S (tick st));
           log := (log st ++ [EvSave (with_lastSync (cfg st)
                                        (VNum (Date_now w (tick st))))])%list |}.
Proof.
  destruct (stamp_lastSync_run w st) as (o & -> & _). intros [= _ <-]. reflexivity.
Qed.

Lemma import_payload_fulfilled data st u st' :
  import_payload w data st = (Fulfilled u, st') ->
  truthy data = true /\ truthy (prop data "info") = true /\
  (truthy (prop data "hk4e") = false -> truthy (prop data "list") = true) /\
  st' = advance (emit (if truthy (prop data "hk4e")
                       then EvImport41 data else EvImport30 data) st).
Proof.
  unfold import_payload.
  destruct (truthy data) eqn:Hd; [|discriminate].
  destruct (truthy (prop data "info")) eqn:Hi; [|discriminate]. cbn [andb].
  destruct (truthy (prop data "hk4e")) eqn:H4.
  - intros H. pose proof (call_spec ImportError (EvImport41 data)
                            (fun t => importUgif41Json w t data) st) as (Hs & _).
    rewrite H in Hs. simpl in Hs. subst. repeat split; auto. discriminate.
  - destruct (truthy (prop data "list")) eqn:Hl; [|discriminate].
    intros H. pose proof (call_spec ImportError (EvImport30 data)
                            (fun t => importUgif30Json w t data) st) as (Hs & _).
    rewrite H in Hs. simpl in Hs. subst. repeat split; auto.
Qed.

End Success.

(** X9. When [uploadToCloud] is fulfilled, the answer was no remote
    error; [googleDriveLastSync] is a reading of the clock taken during
    the call, the last thing done is [config.save] of the configuration as
    it is at the end, and apart from the export at the start only requests
    and saves took place.  Of the configuration only the client id and the
    time of the last sync can have changed; the backups are untouched. *)
Theorem a_successful_upload_records_the_time w fuel st response st' :
  uploadToCloud w fuel st = (Fulfilled response, st') ->
  strict_eq (prop response "status") (VStr "error") = false /\
  (exists t, (tick st < t < tick st')%nat /\
             googleDriveLastSync (cfg st') = VNum (Date_now w t)) /\
  cfg st' = with_lastSync (with_clientId (cfg st) (cloudSyncClientId (cfg st')))
                          (googleDriveLastSync (cfg st')) /\
  (exists evs,
     log st' = (log st ++ EvGenerate :: evs ++ [EvSave (cfg st')])%list /\
     Forall (fun ev => is_request ev \/ exists c, ev = EvSave c) evs) /\
  backupDir st' = backupDir st.
Proof.
  intros H. unfold uploadToCloud in H.
  apply bind_fulfilled in H. destruct H as (data & s1 & Hgen & H).
  destruct (generateData_run w st) as (o & Hrun & _). rewrite Hgen in Hrun.
  inversion Hrun; subst. clear Hrun Hgen.
  apply bind_fulfilled in H. destruct H as (id & s2 & Hid & H).
  apply bind_fulfilled in H. destruct H as (ts & s3 & Hclock & H).
  unfold read_clock in Hclock. inversion Hclock; subst. clear Hclock.
  apply bind_fulfilled in H. destruct H as (h & s3 & Hh & H).
  unfold lift in Hh. destruct (calculateHash data); [|discriminate].
  inversion Hh; subst. clear Hh.
  apply bind_fulfilled in H. destruct H as (r & s4 & Hreq & H).
  apply bind_fulfilled in H. destruct H as (u & s5 & Hcheck & H).
  apply check_status_fulfilled in Hcheck. destruct Hcheck as (-> & Hstatus).
  apply bind_fulfilled in H. destruct H as (u' & s6 & Hstamp & H).
  unfold ret in H. inversion H; subst. clear H.
  apply stamp_lastSync_fulfilled in Hstamp.
  pose proof (makeRequest_tick _ _ _ _ _ _ _ Hreq) as Htick.
  apply makeRequest_frame in Hreq. destruct Hreq as (Hc & Hb & reqs & Hl & Hall).
  cbn [cfg backupDir log tick advance] in Hc, Hb, Hl, Htick.
  split; [exact Hstatus|].
  assert (Hs2 : (cfg s2 = cfg st \/ cfg s2 = with_clientId (cfg st) id) /\
                cloudSyncClientId (cfg s2) = id /\
                backupDir s2 = backupDir st /\ (S (tick st) <= tick s2)%nat /\
                exists pre, log s2 = (log st ++ EvGenerate :: pre)%list /\
                  Forall (fun ev => is_request ev \/ exists c, ev = EvSave c) pre).
  { destruct (getClientId_cases w (advance (emit EvGenerate st)))
      as [(_ & E) | (_ & E)]; rewrite E in Hid; inversion Hid; subst; clear Hid.
    - cbn [cfg backupDir tick log advance emit].
      split; [left; reflexivity|]. split; [reflexivity|]. split; [reflexivity|].
      split; [lia|]. exists []. split; [reflexivity|constructor].
    - cbn [cfg backupDir tick log advance emit cloudSyncClientId with_clientId].
      split; [right; reflexivity|]. split; [reflexivity|]. split; [reflexivity|].
      split; [lia|]. eexists [_]. rewrite <- app_assoc.
      split; [reflexivity|]. constructor; [right; eauto|constructor]. }
  destruct Hs2 as (Hcfg & Hcid & Hbd & Ht2 & pre & Hpre & Hprall).
  subst st'. cbn [cfg backupDir log tick googleDriveLastSync with_lastSync].
  split; [|split; [|split]].
  - exists (tick s4). split; [lia|reflexivity].
  - rewrite Hc. destruct Hcfg as [-> | ->]; destruct (cfg st); cbn in *; subst;
      reflexivity.
  - exists (pre ++ reqs)%list. split.
    + rewrite Hl, Hpre, Hc. rewrite <- !app_assoc. reflexivity.
    + apply Forall_app. split; [exact Hprall|].
      eapply Forall_impl; [exact Hall|]. intros ev Hev. left. exact Hev.
  - congruence.
Qed.

Lemma a_successful_upload_records_the_time_witness :
  exists t,
    (tick demo_state < t < tick (snd (uploadToCloud online_world 1 demo_state)))%nat /\
    googleDriveLastSync (cfg (snd (uploadToCloud online_world 1 demo_state)))
    = VNum (Date_now online_world t).
Proof.
  refine (proj1 (proj2 (a_successful_upload_records_the_time online_world 1 demo_state
                          (VObj [("status", VStr "ok");
                                 ("cloudTimestamp", VNum 1700000000555);
                                 ("recordCount", VNum 2)])
                          (snd (uploadToCloud online_world 1 demo_state)) _))).
  rewrite (surjective_pairing (uploadToCloud _ _ _)).
  apply f_equal2; [vm_compute; reflexivity|reflexivity].
Defined.


(** X10. When [downloadFromCloud] is fulfilled, exactly one import took
    place, after the requests and before the final [config.save]: of the
    payload of the answer, which has an [info], by [importUgif41Json] when
    it has an [hk4e] and by [importUgif30Json] otherwise (it then has a
    [list]).  The configuration at the end is the one at the start with
    [googleDriveLastSync] set to a reading of the clock taken during the
    call. *)
Theorem a_successful_download_imports_the_payload_once w fuel st response st' :
  downloadFromCloud w fuel st = (Fulfilled response, st') ->
  let data := prop response "payload" in
  let import := if truthy (prop data "hk4e") then EvImport41 data else EvImport30 data in
  truthy (prop data "info") = true /\
  (truthy (prop data "hk4e") = false -> truthy (prop data "list") = true) /\
  (exists requests,
     log st' = (log st ++ requests ++ [import; EvSave (cfg st')])%list /\
     Forall is_request requests) /\
  (exists t, (tick st < t < tick st')%nat /\
             cfg st' = with_lastSync (cfg st) (VNum (Date_now w t))) /\
  backupDir st' = backupDir st.
Proof.
  intros H data import. unfold downloadFromCloud in H.
  apply bind_fulfilled in H. destruct H as (r & s1 & Hreq & H).
  unfold accept_download in H.
  apply bind_fulfilled in H. destruct H as (u & s2 & Hcheck & H).
  apply check_status_fulfilled in Hcheck. destruct Hcheck as (-> & Hstatus).
  destruct (negb (truthy (prop r "payload"))); [discriminate|].
  destruct (truthy (prop r "schemaVersion") && js_gt w _ SCHEMA_VERSION);
    [discriminate|].
  apply bind_fulfilled in H. destruct H as (u1 & s3 & Himp & H).
  apply bind_fulfilled in H. destruct H as (u2 & s4 & Hstamp & H).
  unfold ret in H. inversion H; subst. clear H.
  apply import_payload_fulfilled in Himp. destruct Himp as (_ & Hinfo & Hlist & ->).
  apply stamp_lastSync_fulfilled in Hstamp.
  pose proof (makeRequest_tick _ _ _ _ _ _ _ Hreq) as Htick.
  apply makeRequest_frame in Hreq. destruct Hreq as (Hc & Hb & reqs & Hl & Hall).
  subst st'. cbn [cfg backupDir log tick advance emit] in *.
  split; [exact Hinfo|]. split; [exact Hlist|]. split; [|split].
  - exists reqs. split; [|exact Hall]. rewrite Hl, Hc. rewrite <- !app_assoc.
    reflexivity.
  - exists (S (tick s1)). split; [lia|]. rewrite Hc. reflexivity.
  - exact Hb.
Qed.

Lemma a_successful_download_imports_the_payload_once_witness :
  exists requests,
    log (snd (downloadFromCloud unversioned_world 1 demo_state))
    = (log demo_state ++ requests
       ++ [EvImport30 (prop unversioned_response "payload");
           EvSave (cfg (snd (downloadFromCloud unversioned_world 1 demo_state)))])%list /\
    Forall is_request requests.
Proof.
  refine (proj1 (proj2 (proj2 (a_successful_download_imports_the_payload_once
                                 unversioned_world 1 demo_state unversioned_response
                                 (snd (downloadFromCloud unversioned_world 1 demo_state))
                                 _)))).
  rewrite (surjective_pairing (downloadFromCloud _ _ _)).
  apply f_equal2; [vm_compute; reflexivity|reflexivity].
Defined.

(** ** One local backup *)

Section LocalBackup.
Variable w : world.









End LocalBackup.









(** ** The answers of the download handler and of the older handlers *)

(** X14. Every answer of [CLOUD_SYNC_DOWNLOAD] names the backup: it is
    either [status: 'ok'] with the [cloudTimestamp] and [recordCount] of
    the answer of [downloadFromCloud], or [status: 'error'] with the
    message of its error and [backupPreserved: true], and has in both
    cases, as [backupPath], what [createLocalBackup] returned.  The plain
    [{status: 'error', error}] of the outer [catch] never occurs. *)
Theorem a_download_answer_always_names_the_backup w fuel st :
  exists backupPath st1,
    createLocalBackup w st = (Fulfilled backupPath, st1) /\
    forall v st',
      CLOUD_SYNC_DOWNLOAD w fuel st = (Fulfilled v, st') ->
      (exists r,
         downloadFromCloud w fuel st1 = (Fulfilled r, st') /\
         v = VObj [("status", VStr "ok");
                   ("cloudTimestamp", prop r "cloudTimestamp");
                   ("recordCount", prop r "recordCount");
                   ("backupPath", backupPath)]) \/
      (exists e,
         downloadFromCloud w fuel st1 = (Rejected e, st') /\
         v = VObj [("status", VStr "error");
                   ("error", VStr (message e));
                   ("backupPath", backupPath);
                   ("backupPreserved", VBool true)]).
Proof.
  destruct (createLocalBackup_spec w st) as (p & st1 & Hb & _).
  exists p, st1. split; [exact Hb|].
  intros v st'. unfold CLOUD_SYNC_DOWNLOAD, try_catch, bind. rewrite Hb.
  destruct (downloadFromCloud w fuel st1) as [[r|e|] s2]; cbn [ret].
  - intros [= <- <-]. left. eauto.
  - intros [= <- <-]. right. eauto.
  - discriminate.
Qed.

Lemma a_download_answer_always_names_the_backup_witness :
  exists backupPath st1,
    createLocalBackup unversioned_world demo_state = (Fulfilled backupPath, st1) /\
    ((exists r,
        downloadFromCloud unversioned_world 1 st1
        = (Fulfilled r, snd (CLOUD_SYNC_DOWNLOAD unversioned_world 1 demo_state)) /\
        fst (CLOUD_SYNC_DOWNLOAD unversioned_world 1 demo_state)
        = Fulfilled (VObj [("status", VStr "ok");
                           ("cloudTimestamp", prop r "cloudTimestamp");
                           ("recordCount", prop r "recordCount");
                           ("backupPath", backupPath)])) \/
     (exists e,
        downloadFromCloud unversioned_world 1 st1
        = (Rejected e, snd (CLOUD_SYNC_DOWNLOAD unversioned_world 1 demo_state)) /\
        fst (CLOUD_SYNC_DOWNLOAD unversioned_world 1 demo_state)
        = Fulfilled (VObj [("status", VStr "error");
                           ("error", VStr (message e));
                           ("backupPath", backupPath);
                           ("backupPreserved", VBool true)]))).
Proof.
  destruct (a_download_answer_always_names_the_backup unversioned_world 1 demo_state)
    as (backupPath & st1 & Hb & Hanswer).
  exists backupPath, st1. split; [exact Hb|].
  destruct (Hanswer
              (match fst (CLOUD_SYNC_DOWNLOAD unversioned_world 1 demo_state) with
               | Fulfilled v => v
               | _ => VUndef
               end)
              (snd (CLOUD_SYNC_DOWNLOAD unversioned_world 1 demo_state)))
    as [(r & Hd & Hv) | (e & Hd & Hv)].
  - rewrite (surjective_pairing (CLOUD_SYNC_DOWNLOAD _ _ _)).
    apply f_equal2; [vm_compute; reflexivity|reflexivity].
  - left. exists r. split; [exact Hd|]. rewrite <- Hv. vm_compute. reflexivity.
  - right. exists e. split; [exact Hd|]. rewrite <- Hv. vm_compute. reflexivity.
Defined.


(** X15. The handlers [GOOGLE_DRIVE_UPLOAD] and [GOOGLE_DRIVE_DOWNLOAD]
    of the main-process module do what [CLOUD_SYNC_UPLOAD] and
    [CLOUD_SYNC_DOWNLOAD] do, local backup included, and end in the same
    state; where these answer [status: 'ok'] they answer ['success'],
    otherwise the same error message. *)
Theorem the_legacy_handlers_run_the_same_sync w fuel st :
  GOOGLE_DRIVE_UPLOAD w fuel st
  = (map_outcome legacy_answer (fst (CLOUD_SYNC_UPLOAD w fuel st)),
     snd (CLOUD_SYNC_UPLOAD w fuel st)) /\
  GOOGLE_DRIVE_DOWNLOAD w fuel st
  = (map_outcome legacy_answer (fst (CLOUD_SYNC_DOWNLOAD w fuel st)),
     snd (CLOUD_SYNC_DOWNLOAD w fuel st)).
Proof.
  split.
  - unfold GOOGLE_DRIVE_UPLOAD, CLOUD_SYNC_UPLOAD, try_catch, bind.
    destruct (uploadToCloud w fuel st) as [[r|e|] s1]; reflexivity.
  - unfold GOOGLE_DRIVE_DOWNLOAD, CLOUD_SYNC_DOWNLOAD, try_catch, bind.
    destruct (createLocalBackup_spec w st) as (p & st1 & Hb & _). rewrite Hb.
    destruct (downloadFromCloud w fuel st1) as [[r|e|] s1]; reflexivity.
Qed.

(** ** The Apps Script: what a request does to the Drive *)

Section ScriptDrive.
Variable sv : AppsScript.services.

Lemma set_prop_defined v k x :
  nullish v = false ->
  exists v', set_prop v k x = Ok v' /\ nullish v' = false /\
             (truthy v = true -> truthy v' = true).
Proof.
  destruct v; simpl; try discriminate; intros _; eexists; split;
    try reflexivity; auto.
Qed.

Lemma truthy_defined v : truthy v = true -> nullish v = false.
Proof. destruct v; simpl; auto; discriminate. Qed.

Lemma stringify_defined v : nullish v = false -> exists text, JSON_stringify v = Some text.
Proof.
  destruct v as [| |[]| | | |]; simpl; try discriminate; intros _; eexists; reflexivity.
Qed.

Lemma stamp_defined request t payload :
  truthy payload = true ->
  exists stamped content,
    AppsScript.stamp request t payload = Ok stamped /\
    JSON_stringify stamped = Some content.
Proof.
  intros Hp. unfold AppsScript.stamp, res_bind.
  destruct (set_prop_defined payload "_schemaVersion"
              (VNum AppsScript.CURRENT_SCHEMA_VERSION) (truthy_defined _ Hp))
    as (p1 & -> & H1 & _).
  destruct (set_prop_defined p1 "_uploadTimestamp" (VNum t) H1) as (p2 & -> & H2 & _).
  destruct (set_prop_defined p2 "_clientId"
              (js_or (prop request "clientId") (VStr "unknown")) H2)
    as (p3 & -> & H3 & _).
  destruct (set_prop_defined p3 "_appVersion"
              (js_or (prop request "appVersion") (VStr "unknown")) H3)
    as (p4 & -> & H4 & _).
  destruct (stringify_defined p4 H4) as (text & Ht). eauto.
Qed.

Lemma other_files_setContent content d f d' :
  AppsScript.setContent sv content d = (Ok f, d') ->
  other_files d' = other_files d /\
  AppsScript.backup_folder d' = AppsScript.backup_folder d /\
  exists old, AppsScript.getDataFile d = Some old /\
              AppsScript.file_id f = AppsScript.file_id old.
Proof.
  unfold AppsScript.setContent, AppsScript.getDataFile, other_files.
  destruct (find _ (AppsScript.files d)) as [g|] eqn:E; try discriminate.
  intros [= <- <-]. simpl. split; [|split; [reflexivity|eauto]].
  generalize (AppsScript.Date_now sv (AppsScript.clock d)). intros t.
  clear E. induction (AppsScript.files d) as [|h l IH]; simpl; [reflexivity|].
  destruct (String.eqb (AppsScript.file_name h) AppsScript.FILE_NAME) eqn:N; simpl.
  - rewrite N. reflexivity.
  - rewrite N. simpl. f_equal. exact IH.
Qed.

Lemma other_files_createFile content d f d' :
  AppsScript.createFile sv content d = (Ok f, d') ->
  other_files d' = other_files d /\
  AppsScript.backup_folder d' = AppsScript.backup_folder d.
Proof.
  unfold AppsScript.createFile, other_files. intros [= <- <-]. simpl.
  split; [|reflexivity]. rewrite List.filter_app. simpl. apply app_nil_r.
Qed.

Lemma createBackupOfFile_run f d :
  exists backup d',
    AppsScript.createBackupOfFile sv f d = (Ok backup, d') /\
    AppsScript.files d' = AppsScript.files d /\
    AppsScript.clock d' = S (AppsScript.clock d) /\
    backups_of d' = (backups_of d ++ [backup])%list /\
    AppsScript.file_content backup = AppsScript.file_content f /\
    AppsScript.file_name backup
    = "backup_" +:+ AppsScript.formatDate sv (AppsScript.clock d)
      +:+ "_" +:+ AppsScript.FILE_NAME.
Proof.
  unfold AppsScript.createBackupOfFile, AppsScript.getBackupFolder, backups_of.
  destruct (AppsScript.backup_folder d) as [folder|] eqn:E; simpl;
    do 2 eexists; (split; [reflexivity|]); simpl; rewrite ?E; simpl; auto.
Qed.

(** The three ways in which [uploadData] ends. *)
Lemma uploadData_cases request d :
  (exists e, AppsScript.uploadData sv request d = (Err e, d) /\
             nullish request = true) \/
  (exists msg, AppsScript.uploadData sv request d
               = (Ok (AppsScript.error_response msg), d)) \/
  (exists stamped content f d1,
     truthy (prop request "payload") = true /\
     AppsScript.stamp request (AppsScript.Date_now sv (AppsScript.clock d))
                      (prop request "payload") = Ok stamped /\
     JSON_stringify stamped = Some content /\
     written sv d content f d1 /\
     AppsScript.uploadData sv request d
     = (match countRecords stamped with
        | Ok n => Ok (upload_answer sv content f n)
        | Err e => Err e
        end, d1)).
Proof.
  unfold AppsScript.uploadData, AppsScript.sbind, AppsScript.slift.
  destruct (get_prop request "schemaVersion") as [schemaVersion|e] eqn:Hsv.
  2: { left. exists e. split; [reflexivity|].
       destruct request; simpl in Hsv; try discriminate; reflexivity. }
  destruct (truthy schemaVersion && AppsScript.js_gt sv schemaVersion _).
  { right. left. eexists. reflexivity. }
  destruct (truthy (prop request "payload")) eqn:Hp; cbn [negb].
  2: { right. left. eexists. reflexivity. }
  right. right. unfold AppsScript.now.
  destruct (stamp_defined request (AppsScript.Date_now sv (AppsScript.clock d)) _ Hp)
    as (stamped & content & Hstamp & Htext).
  rewrite Hstamp, Htext.
  assert (Hget : AppsScript.getDataFile (AppsScript.tock d) = AppsScript.getDataFile d)
    by reflexivity.
  rewrite Hget.
  destruct (AppsScript.getDataFile d) as [old|] eqn:Hold.
  - destruct (createBackupOfFile_run old (AppsScript.tock d))
      as (backup & d2 & Hb & Hfiles & Hclock & Hfolder & Hcontent & Hname).
    rewrite Hb.
    assert (Hold2 : AppsScript.getDataFile d2 = Some old).
    { unfold AppsScript.getDataFile in *. rewrite Hfiles. exact Hold. }
    destruct (AppsScript.setContent sv content d2) as [[f|e] d3] eqn:Hset.
    2: { unfold AppsScript.setContent in Hset. rewrite Hold2 in Hset. discriminate. }
    pose proof (getDataFile_setContent _ _ _ _ _ Hset) as (Hf & Hc).
    pose proof (other_files_setContent _ _ _ _ Hset) as (Ho & Hbf & old' & Hold' & Hid).
    exists stamped, content, f, d3. split; [reflexivity|]. split; [reflexivity|].
    split; [exact Htext|]. split.
    + split; [exact Hf|]. split; [exact Hc|]. split.
      * rewrite Ho. unfold other_files. rewrite Hfiles. reflexivity.
      * rewrite Hold. split; [congruence|]. exists backup.
        split; [|split; [exact Hcontent|exact Hname]].
        unfold backups_of in *. rewrite Hbf. exact Hfolder.
    + destruct (countRecords stamped); reflexivity.
  - destruct (AppsScript.createFile sv content (AppsScript.tock d)) as [[f|e] d3] eqn:Hcr.
    2: { unfold AppsScript.createFile in Hcr. discriminate. }
    pose proof (getDataFile_createFile _ _ _ _ _ Hget Hcr) as (Hf & Hc).
    pose proof (other_files_createFile _ _ _ _ Hcr) as (Ho & Hbf).
    exists stamped, content, f, d3. split; [reflexivity|]. split; [reflexivity|].
    split; [exact Htext|]. split.
    + split; [exact Hf|]. split; [exact Hc|]. split; [exact Ho|].
      rewrite Hold. unfold backups_of. rewrite Hbf. reflexivity.
    + destruct (countRecords stamped); reflexivity.
Qed.

End ScriptDrive.

Section ScriptAnswers.
Variable sv : AppsScript.services.

Lemma getMetadata_reads d : snd (AppsScript.getMetadata sv d) = d.
Proof.
  unfold AppsScript.getMetadata. destruct (AppsScript.getDataFile d) as [f|];
    [|reflexivity].
  unfold AppsScript.sbind, AppsScript.parse, AppsScript.slift, AppsScript.sret,
    AppsScript.sthrow.
  destruct (AppsScript.JSON_parse sv _) as [data|msg c]; [|reflexivity].
  destruct (countRecords data); [|reflexivity].
  destruct (get_prop data "_schemaVersion"); reflexivity.
Qed.

Lemma downloadData_reads d : snd (AppsScript.downloadData sv d) = d.
Proof.
  unfold AppsScript.downloadData. destruct (AppsScript.getDataFile d) as [f|];
    [|reflexivity].
  unfold AppsScript.sbind, AppsScript.parse, AppsScript.slift, AppsScript.sret,
    AppsScript.sthrow.
  destruct (AppsScript.JSON_parse sv _) as [data|msg c]; [|reflexivity].
  destruct (countRecords data); [|reflexivity].
  destruct (get_prop data "_schemaVersion"); reflexivity.
Qed.

Lemma getMetadata_normalized d r d' :
  AppsScript.getMetadata sv d = (Ok r, d') -> prop r "status" = VStr "ok".
Proof.
  unfold AppsScript.getMetadata. destruct (AppsScript.getDataFile d) as [f|].
  - unfold AppsScript.sbind, AppsScript.parse, AppsScript.slift, AppsScript.sret,
      AppsScript.sthrow.
    destruct (AppsScript.JSON_parse sv _) as [data|msg c]; [|discriminate].
    destruct (countRecords data); [|discriminate].
    destruct (get_prop data "_schemaVersion"); [|discriminate].
    intros [= <- _]. reflexivity.
  - intros [= <- _]. reflexivity.
Qed.

Lemma downloadData_normalized d r d' :
  AppsScript.downloadData sv d = (Ok r, d') -> normalized r.
Proof.
  unfold AppsScript.downloadData. destruct (AppsScript.getDataFile d) as [f|].
  - unfold AppsScript.sbind, AppsScript.parse, AppsScript.slift, AppsScript.sret,
      AppsScript.sthrow.
    destruct (AppsScript.JSON_parse sv _) as [data|msg c]; [|discriminate].
    destruct (countRecords data); [|discriminate].
    destruct (get_prop data "_schemaVersion"); [|discriminate].
    intros [= <- _]. left. reflexivity.
  - intros [= <- _]. right. split; [reflexivity|]. eexists. reflexivity.
Qed.

Lemma createBackup_run d :
  match AppsScript.getDataFile d with
  | None =>
      AppsScript.createBackup sv d
      = (Ok (VObj [("status", VStr "ok"); ("message", VStr "No file to backup");
                   ("backupCreated", VBool false)]), d)
  | Some f =>
      exists backup d',
        AppsScript.createBackup sv d
        = (Ok (VObj [("status", VStr "ok"); ("backupCreated", VBool true);
                     ("backupFileName", VStr (AppsScript.file_name backup));
                     ("backupFileId", VStr (AppsScript.file_id backup))]), d') /\
        AppsScript.files d' = AppsScript.files d /\
        backups_of d' = (backups_of d ++ [backup])%list /\
        AppsScript.file_content backup = AppsScript.file_content f
  end.
Proof.
  unfold AppsScript.createBackup.
  destruct (AppsScript.getDataFile d) as [f|]; [|reflexivity].
  destruct (createBackupOfFile_run sv f d)
    as (backup & d' & Hb & Hfiles & _ & Hfolder & Hcontent & _).
  exists backup, d'. unfold AppsScript.sbind. rewrite Hb. auto.
Qed.

Lemma normalized_error_response msg : normalized (AppsScript.error_response msg).
Proof. right. split; [reflexivity|]. eexists. reflexivity. Qed.

Lemma stringify_object fs : exists text, JSON_stringify (VObj fs) = Some text.
Proof. simpl. eexists. reflexivity. Qed.

Lemma normalized_object r : normalized r -> exists fs, r = VObj fs.
Proof.
  intros [H | [H _]]; destruct r; cbn in H; try discriminate; eauto.
Qed.

Lemma uploadData_normalized request d r d' :
  AppsScript.uploadData sv request d = (Ok r, d') -> normalized r.
Proof.
  intros H.
  destruct (uploadData_cases sv request d)
    as [(e & E & _) | [(msg & E) | (stamped & content & f & d1 & _ & _ & _ & _ & E)]];
    rewrite E in H.
  - discriminate.
  - inversion H; subst. apply normalized_error_response.
  - destruct (countRecords stamped); [|discriminate].
    inversion H; subst. left. reflexivity.
Qed.

End ScriptAnswers.

(** X16. [doPost] answers every request, whatever its text and whatever
    the Drive holds, with the JSON text of an object that has [status:
    'ok'], or [status: 'error'] and a string as [error]; it never
    throws. *)
Theorem doPost_always_answers sv contents d :
  exists response text,
    fst (AppsScript.doPost sv contents d) = Some text /\
    JSON_stringify response = Some text /\
    normalized response.
Proof.
  assert (Hgen : forall (r : res value * AppsScript.drive),
            (forall v d', r = (Ok v, d') -> normalized v) ->
            exists response text,
              fst (match r with
                   | (Ok response, d') => (AppsScript.jsonResponse response, d')
                   | (Err e, d') =>
                       (AppsScript.jsonResponse
                          (AppsScript.error_response (AppsScript.err_toString e)), d')
                   end) = Some text /\
              JSON_stringify response = Some text /\ normalized response).
  { intros [[v|e] d'] Hr.
    - specialize (Hr v d' eq_refl).
      destruct (normalized_object _ Hr) as (fs & ->).
      destruct (stringify_object fs) as (text & Ht).
      exists (VObj fs), text. unfold AppsScript.jsonResponse. cbn [fst]. auto.
    - destruct (stringify_object [("status", VStr "error");
                                  ("error", VStr (AppsScript.err_toString e))])
        as (text & Ht).
      exists (AppsScript.error_response (AppsScript.err_toString e)), text.
      unfold AppsScript.jsonResponse, AppsScript.error_response. cbn [fst].
      split; [exact Ht|]. split; [exact Ht|]. apply normalized_error_response. }
  unfold AppsScript.doPost. apply Hgen. intros v d'.
  unfold AppsScript.sbind, AppsScript.parse, AppsScript.slift, AppsScript.sret,
    AppsScript.sthrow.
  destruct (AppsScript.JSON_parse sv contents) as [request|msg c]; [|discriminate].
  destruct (get_prop request "action") as [action|e]; [|discriminate].
  destruct (strict_eq action (VStr "metadata")).
  { intros H. left. eapply getMetadata_normalized; eauto. }
  destruct (strict_eq action (VStr "upload")).
  { apply uploadData_normalized. }
  destruct (strict_eq action (VStr "download")).
  { apply downloadData_normalized. }
  destruct (strict_eq action (VStr "backup")).
  { pose proof (createBackup_run sv d) as Hb.
    destruct (AppsScript.getDataFile d) as [f|].
    - destruct Hb as (backup & d2 & -> & _). intros [= <- _]. left. reflexivity.
    - rewrite Hb. intros [= <- _]. left. reflexivity. }
  intros [= <- _]. apply normalized_error_response.
Qed.

Lemma doPost_unparsed sv contents d msg c :
  AppsScript.JSON_parse sv contents = Throws msg c ->
  AppsScript.doPost sv contents d
  = (JSON_stringify (AppsScript.error_response ("SyntaxError: " +:+ msg)), d).
Proof.
  unfold AppsScript.doPost, AppsScript.sbind, AppsScript.parse, AppsScript.sthrow.
  intros ->. reflexivity.
Qed.

Lemma doPost_reads sv contents d request :
  AppsScript.JSON_parse sv contents = Returns request ->
  strict_eq (prop request "action") (VStr "upload") = false ->
  strict_eq (prop request "action") (VStr "backup") = false ->
  snd (AppsScript.doPost sv contents d) = d.
Proof.
  unfold AppsScript.doPost, AppsScript.sbind, AppsScript.parse, AppsScript.slift,
    AppsScript.sret, AppsScript.sthrow.
  intros -> Hu Hb.
  destruct (nullish request) eqn:Hn.
  - destruct request; try discriminate; reflexivity.
  - rewrite (get_prop_defined _ _ Hn). rewrite Hu, Hb.
    destruct (strict_eq (prop request "action") (VStr "metadata")).
    { pose proof (getMetadata_reads sv d) as Hr.
      destruct (AppsScript.getMetadata sv d) as [[r|e] d']; exact Hr. }
    destruct (strict_eq (prop request "action") (VStr "download")).
    { pose proof (downloadData_reads sv d) as Hr.
      destruct (AppsScript.downloadData sv d) as [[r|e] d']; exact Hr. }
    reflexivity.
Qed.

(** X17. Only the actions [upload] and [backup] can change the Drive.
    A body that is no JSON is answered with [status: 'error'] and
    ['SyntaxError: ' + message]; a request with any other action, or none,
    leaves the Drive as it was; a request whose action is none of the
    four is answered with ['Invalid action: ' + action]. *)
Theorem only_upload_and_backup_change_the_drive sv contents d :
  (forall msg c,
     AppsScript.JSON_parse sv contents = Throws msg c ->
     AppsScript.doPost sv contents d
     = (JSON_stringify (AppsScript.error_response ("SyntaxError: " +:+ msg)), d)) /\
  (forall request,
     AppsScript.JSON_parse sv contents = Returns request ->
     strict_eq (prop request "action") (VStr "upload") = false ->
     strict_eq (prop request "action") (VStr "backup") = false ->
     snd (AppsScript.doPost sv contents d) = d) /\
  (forall request,
     AppsScript.JSON_parse sv contents = Returns request ->
     nullish request = false ->
     strict_eq (prop request "action") (VStr "metadata") = false ->
     strict_eq (prop request "action") (VStr "upload") = false ->
     strict_eq (prop request "action") (VStr "download") = false ->
     strict_eq (prop request "action") (VStr "backup") = false ->
     AppsScript.doPost sv contents d
     = (JSON_stringify
          (AppsScript.error_response
             ("Invalid action: " +:+ js_to_string (prop request "action"))), d)).
Proof.
  split; [|split].
  - intros msg c. apply doPost_unparsed.
  - intros request. apply doPost_reads.
  - unfold AppsScript.doPost, AppsScript.sbind, AppsScript.parse, AppsScript.slift,
      AppsScript.sret, AppsScript.sthrow.
    intros request -> Hn Hm Hu Hd Hb.
    rewrite (get_prop_defined _ _ Hn). rewrite Hm, Hu, Hd, Hb. reflexivity.
Qed.

Lemma only_upload_and_backup_change_the_drive_witness :
  snd (AppsScript.doPost demo_services (json_text "{'action':'download'}")
                         drive_with_file)
  = drive_with_file.
Proof.
  apply (proj1 (proj2 (only_upload_and_backup_change_the_drive demo_services
                         (json_text "{'action':'download'}") drive_with_file))
               (VObj [("action", VStr "download")])).
  - vm_compute. reflexivity.
  - reflexivity.
  - reflexivity.
Defined.


(** X18. An upload that [uploadData] answers with [status: 'error'] has
    changed nothing on the Drive; it was refused because the
    [schemaVersion] of the request is above [CURRENT_SCHEMA_VERSION], or
    because the request has no payload. *)
Theorem a_refused_upload_leaves_the_drive_alone sv request d response d1 :
  AppsScript.uploadData sv request d = (Ok response, d1) ->
  prop response "status" = VStr "error" ->
  d1 = d /\
  ((truthy (prop request "schemaVersion")
    && AppsScript.js_gt sv (prop request "schemaVersion")
                        AppsScript.CURRENT_SCHEMA_VERSION = true /\
    response = AppsScript.error_response
                 "Incompatible schema version. Please update the Apps Script.") \/
   (truthy (prop request "payload") = false /\
    response = AppsScript.error_response "Missing payload in upload request")).
Proof.
  intros H Herr.
  destruct (uploadData_cases sv request d)
    as [(e & E & _) | [(msg & E) | (stamped & content & f & d2 & _ & _ & _ & _ & E)]].
  - rewrite E in H. discriminate.
  - clear E. unfold AppsScript.uploadData, AppsScript.sbind, AppsScript.slift in H.
    destruct (nullish request) eqn:Hn.
    { destruct request; try discriminate. }
    rewrite (get_prop_defined _ _ Hn) in H.
    destruct (truthy (prop request "schemaVersion") && AppsScript.js_gt sv _ _) eqn:G.
    { inversion H; subst. split; [reflexivity|]. left. auto. }
    destruct (truthy (prop request "payload")) eqn:Hp; cbn [negb] in H.
    2: { inversion H; subst. split; [reflexivity|]. right. auto. }
    exfalso. unfold AppsScript.now in H.
    destruct (stamp_defined request (AppsScript.Date_now sv (AppsScript.clock d)) _ Hp)
      as (stamped & content & Hstamp & Htext).
    rewrite Hstamp, Htext in H.
    destruct (AppsScript.getDataFile (AppsScript.tock d)) as [old|].
    + destruct (AppsScript.createBackupOfFile sv old _) as [[b|] d2]; [|discriminate].
      destruct (AppsScript.setContent sv content d2) as [[f|] d3]; [|discriminate].
      destruct (countRecords stamped); [|discriminate].
      inversion H; subst. discriminate Herr.
    + destruct (AppsScript.createFile sv content _) as [[f|] d3]; [|discriminate].
      destruct (countRecords stamped); [|discriminate].
      inversion H; subst. discriminate Herr.
  - rewrite E in H. destruct (countRecords stamped); [|discriminate].
    inversion H; subst. discriminate Herr.
Qed.

Lemma a_refused_upload_leaves_the_drive_alone_witness :
  snd (AppsScript.uploadData demo_services newer_upload_request drive_with_file)
  = drive_with_file.
Proof.
  refine (proj1 (a_refused_upload_leaves_the_drive_alone demo_services
                   newer_upload_request drive_with_file
                   (AppsScript.error_response
                      "Incompatible schema version. Please update the Apps Script.")
                   (snd (AppsScript.uploadData demo_services newer_upload_request
                           drive_with_file)) _ _)).
  - rewrite (surjective_pairing (AppsScript.uploadData _ _ _)).
    apply f_equal2; [vm_compute; reflexivity|reflexivity].
  - reflexivity.
Defined.





(** X20. An upload answered with [status: 'ok'] over an existing data
    file has first put a copy of that file, with the content it had, at
    the end of the backup folder; the data file keeps its id, which is the
    [fileId] of the answer, and no other file is changed. *)
Theorem an_upload_backs_up_the_file_it_replaces sv request d old response d1 :
  AppsScript.getDataFile d = Some old ->
  AppsScript.uploadData sv request d = (Ok response, d1) ->
  prop response "status" = VStr "ok" ->
  exists backup f,
    backups_of d1 = (backups_of d ++ [backup])%list /\
    AppsScript.file_content backup = AppsScript.file_content old /\
    AppsScript.getDataFile d1 = Some f /\
    AppsScript.file_id f = AppsScript.file_id old /\
    prop response "fileId" = VStr (AppsScript.file_id old) /\
    other_files d1 = other_files d.
Proof.
  intros Hold H Hok.
  destruct (uploadData_cases sv request d)
    as [(e0 & E & _) | [(msg & E) | (stamped & content & f & d2 & _ & _ & _ & Hw & E)]];
    rewrite E in H.
  - discriminate.
  - inversion H; subst. discriminate Hok.
  - destruct (countRecords stamped) as [n|]; [|discriminate].
    inversion H; subst. destruct Hw as (Hf & _ & Ho & Hcase).
    rewrite Hold in Hcase. destruct Hcase as (Hid & backup & Hb & Hc & _).
    exists backup, f. repeat split; auto.
    unfold upload_answer. cbn. rewrite Hid. reflexivity.
Qed.

Lemma an_upload_backs_up_the_file_it_replaces_witness :
  exists old backup f,
    AppsScript.getDataFile drive_with_file = Some old /\
    backups_of (snd (AppsScript.uploadData demo_services upload_request drive_with_file))
    = (backups_of drive_with_file ++ [backup])%list /\
    AppsScript.file_content backup = AppsScript.file_content old /\
    AppsScript.getDataFile
      (snd (AppsScript.uploadData demo_services upload_request drive_with_file))
    = Some f /\
    AppsScript.file_id f = AppsScript.file_id old.
Proof.
  destruct (AppsScript.getDataFile drive_with_file) as [old|] eqn:Hold.
  - destruct (an_upload_backs_up_the_file_it_replaces demo_services upload_request
                drive_with_file old
                (match fst (AppsScript.uploadData demo_services upload_request
                              drive_with_file) with
                 | Ok response => response
                 | Err _ => VUndef
                 end)
                (snd (AppsScript.uploadData demo_services upload_request
                        drive_with_file)))
      as (backup & f & Hb & Hc & Hf & Hid & _).
    + exact Hold.
    + rewrite (surjective_pairing (AppsScript.uploadData _ _ _)).
      apply f_equal2; [vm_compute; reflexivity|reflexivity].
    + vm_compute. reflexivity.
    + exists old, backup, f. auto.
  - exfalso. revert Hold. vm_compute. discriminate.
Defined.


(** X21. Whatever the request, [doPost] removes nothing: the files other
    than the data file are as before, the backup folder has all the
    backups it had, in their order, and at most one more, and a data file
    that existed still exists. *)
Theorem the_script_never_removes_a_file sv contents d :
  other_files (snd (AppsScript.doPost sv contents d)) = other_files d /\
  (exists added,
     backups_of (snd (AppsScript.doPost sv contents d)) = (backups_of d ++ added)%list /\
     (length added <= 1)%nat) /\
  (is_Some (AppsScript.getDataFile d) ->
   is_Some (AppsScript.getDataFile (snd (AppsScript.doPost sv contents d)))).
Proof.
  assert (Hsame : forall d1, d1 = d ->
            other_files d1 = other_files d /\
            (exists added, backups_of d1 = (backups_of d ++ added)%list /\
                           (length added <= 1)%nat) /\
            (is_Some (AppsScript.getDataFile d) -> is_Some (AppsScript.getDataFile d1))).
  { intros d1 ->. split; [reflexivity|]. split; [|auto].
    exists []. rewrite app_nil_r. split; [reflexivity|simpl; lia]. }
  destruct (AppsScript.JSON_parse sv contents) as [request|msg c] eqn:P.
  2: { apply Hsame.
       rewrite (doPost_unparsed sv contents d msg c P). reflexivity. }
  destruct (strict_eq (prop request "action") (VStr "upload")) eqn:Hu.
  - unfold AppsScript.doPost, AppsScript.sbind, AppsScript.parse, AppsScript.slift,
      AppsScript.sret. rewrite P.
    destruct (nullish request) eqn:Hn.
    { destruct request; discriminate. }
    rewrite (get_prop_defined _ _ Hn).
    assert (Hm : strict_eq (prop request "action") (VStr "metadata") = false).
    { destruct (prop request "action") as [| | | |s| |]; try discriminate.
      simpl in Hu |- *. apply String.eqb_eq in Hu. subst. reflexivity. }
    rewrite Hm, Hu.
    destruct (uploadData_cases sv request d)
      as [(e0 & E & _) | [(msg & E) | (stamped & content & f & d2 & _ & _ & _ & Hw & E)]];
      rewrite E.
    + apply Hsame. reflexivity.
    + apply Hsame. reflexivity.
    + assert (Hd2 : other_files d2 = other_files d /\
                (exists added, backups_of d2 = (backups_of d ++ added)%list /\
                               (length added <= 1)%nat) /\
                (is_Some (AppsScript.getDataFile d) ->
                 is_Some (AppsScript.getDataFile d2))).
      { destruct Hw as (Hf & _ & Ho & Hcase). split; [exact Ho|]. split; [|eauto].
        destruct (AppsScript.getDataFile d) as [old|].
        - destruct Hcase as (_ & backup & Hb & _). exists [backup]. auto.
        - exists []. rewrite app_nil_r. split; [exact Hcase|simpl; lia]. }
      destruct (countRecords stamped); exact Hd2.
  - destruct (strict_eq (prop request "action") (VStr "backup")) eqn:Hb.
    + unfold AppsScript.doPost, AppsScript.sbind, AppsScript.parse, AppsScript.slift,
        AppsScript.sret. rewrite P.
      destruct (nullish request) eqn:Hn.
      { destruct request; discriminate. }
      rewrite (get_prop_defined _ _ Hn).
      assert (Hm : strict_eq (prop request "action") (VStr "metadata") = false
                   /\ strict_eq (prop request "action") (VStr "download") = false).
      { destruct (prop request "action") as [| | | |s| |]; try discriminate.
        simpl in Hb |- *. apply String.eqb_eq in Hb. subst. split; reflexivity. }
      destruct Hm as (Hm & Hd). rewrite Hm, Hu, Hd, Hb.
      pose proof (createBackup_run sv d) as Hrun.
      destruct (AppsScript.getDataFile d) as [f|] eqn:Hf.
      * destruct Hrun as (backup & d2 & -> & Hfiles & Hbk & _). cbn [snd].
        split; [unfold other_files; rewrite Hfiles; reflexivity|].
        split; [exists [backup]; auto|].
        intros _. unfold AppsScript.getDataFile in *. rewrite Hfiles, Hf. eauto.
      * rewrite Hrun. apply Hsame. reflexivity.
    + apply Hsame.
      apply (doPost_reads sv contents d request P Hu Hb).
Qed.

Lemma the_script_never_removes_a_file_witness :
  is_Some (AppsScript.getDataFile
             (snd (AppsScript.doPost demo_services (json_text "{'action':'backup'}")
                                     drive_with_file))).
Proof.
  apply (proj2 (proj2 (the_script_never_removes_a_file demo_services
                         (json_text "{'action':'backup'}") drive_with_file))).
  vm_compute. eauto.
Defined.

(** ** The Apps Script: what it reports *)

Lemma lookup_assign_ne k k' v fs :
  k <> k' -> lookup_field k (assign_field k' v fs) = lookup_field k fs.
Proof.
  intros Hne. induction fs as [|[k0 v0] fs IH]; simpl.
  - destruct (String.eqb k k') eqn:E; [apply String.eqb_eq in E; congruence|].
    reflexivity.
  - destruct (String.eqb k' k0) eqn:E0; simpl.
    + apply String.eqb_eq in E0. subst k0.
      destruct (String.eqb k k') eqn:E; [apply String.eqb_eq in E; congruence|].
      reflexivity.
    + destruct (String.eqb k k0); [reflexivity|exact IH].
Qed.

Lemma lookup_assign_eq k v fs : lookup_field k (assign_field k v fs) = Some v.
Proof.
  induction fs as [|[k0 v0] fs IH]; simpl.
  - rewrite String.eqb_refl. reflexivity.
  - destruct (String.eqb k k0) eqn:E; simpl.
    + rewrite String.eqb_refl. reflexivity.
    + rewrite E. exact IH.
Qed.

Lemma prop_assign_ne k k' v fs :
  k <> k' -> prop (VObj (assign_field k' v fs)) k = prop (VObj fs) k.
Proof. intros H. unfold prop. rewrite lookup_assign_ne by exact H. reflexivity. Qed.

(** X22. [uploadData] reads four properties of the request:
    [schemaVersion], [payload], [clientId] and [appVersion].  Any other
    one, the [dataHash] and the [timestamp] that the client sends among
    them, has no effect on what is stored or answered: the hash is not
    checked. *)
Theorem the_script_does_not_check_the_data_hash sv fs k v d :
  k <> "schemaVersion" -> k <> "payload" -> k <> "clientId" -> k <> "appVersion" ->
  AppsScript.uploadData sv (VObj (assign_field k v fs)) d
  = AppsScript.uploadData sv (VObj fs) d.
Proof.
  intros H1 H2 H3 H4.
  unfold AppsScript.uploadData, AppsScript.stamp.
  rewrite !get_prop_object.
  rewrite !(prop_assign_ne "schemaVersion"), !(prop_assign_ne "payload"),
    !(prop_assign_ne "clientId"), !(prop_assign_ne "appVersion") by congruence.
  reflexivity.
Qed.

Lemma the_script_does_not_check_the_data_hash_witness :
  AppsScript.uploadData demo_services
    (VObj (assign_field "dataHash" (VStr "0000")
             [("action", VStr "upload"); ("schemaVersion", VNum 1);
              ("dataHash", VStr "ffff"); ("payload", sample_doc)]))
    empty_drive
  = AppsScript.uploadData demo_services
      (VObj [("action", VStr "upload"); ("schemaVersion", VNum 1);
             ("dataHash", VStr "ffff"); ("payload", sample_doc)])
      empty_drive.
Proof.
  apply (the_script_does_not_check_the_data_hash demo_services); discriminate.
Defined.


Section AfterUpload.
Variable sv : AppsScript.services.

Lemma getMetadata_run d :
  match AppsScript.getDataFile d with
  | None =>
      AppsScript.getMetadata sv d
      = (Ok (VObj [("status", VStr "ok"); ("exists", VBool false);
                   ("cloudTimestamp", VNull); ("cloudHash", VNull);
                   ("recordCount", VNum 0)]), d)
  | Some f =>
      match AppsScript.JSON_parse sv (AppsScript.file_content f) with
      | Throws msg c =>
          AppsScript.getMetadata sv d
          = (Err {| kind := ResponseFormatError; message := msg; code := c |}, d)
      | Returns data =>
          AppsScript.getMetadata sv d
          = (res_bind (countRecords data) (fun recordCount =>
             res_bind (get_prop data "_schemaVersion") (fun version =>
               Ok (VObj [("status", VStr "ok"); ("exists", VBool true);
                         ("cloudTimestamp", VNum (AppsScript.file_updated f));
                         ("cloudHash",
                          VStr (AppsScript.calculateHash sv (AppsScript.file_content f)));
                         ("recordCount", VNum recordCount);
                         ("schemaVersion", js_or version (VNum 1))]))), d)
      end
  end.
Proof.
  unfold AppsScript.getMetadata. destruct (AppsScript.getDataFile d) as [f|];
    [|reflexivity].
  unfold AppsScript.sbind, AppsScript.parse, AppsScript.slift, AppsScript.sret,
    AppsScript.sthrow.
  destruct (AppsScript.JSON_parse sv _) as [data|msg c]; [|reflexivity].
  destruct (countRecords data); [|reflexivity]. simpl.
  destruct (get_prop data "_schemaVersion"); reflexivity.
Qed.

Lemma downloadData_run d :
  match AppsScript.getDataFile d with
  | None =>
      AppsScript.downloadData sv d
      = (Ok (VObj [("status", VStr "error");
                   ("error", VStr "No data file found in cloud storage");
                   ("exists", VBool false)]), d)
  | Some f =>
      match AppsScript.JSON_parse sv (AppsScript.file_content f) with
      | Throws msg c =>
          AppsScript.downloadData sv d
          = (Err {| kind := ResponseFormatError; message := msg; code := c |}, d)
      | Returns data =>
          AppsScript.downloadData sv d
          = (res_bind (countRecords data) (fun recordCount =>
             res_bind (get_prop data "_schemaVersion") (fun version =>
               Ok (VObj [("status", VStr "ok");
                         ("cloudTimestamp", VNum (AppsScript.file_updated f));
                         ("cloudHash",
                          VStr (AppsScript.calculateHash sv (AppsScript.file_content f)));
                         ("recordCount", VNum recordCount);
                         ("schemaVersion", js_or version (VNum 1));
                         ("payload", data)]))), d)
      end
  end.
Proof.
  unfold AppsScript.downloadData. destruct (AppsScript.getDataFile d) as [f|];
    [|reflexivity].
  unfold AppsScript.sbind, AppsScript.parse, AppsScript.slift, AppsScript.sret,
    AppsScript.sthrow.
  destruct (AppsScript.JSON_parse sv _) as [data|msg c]; [|reflexivity].
  destruct (countRecords data); [|reflexivity]. simpl.
  destruct (get_prop data "_schemaVersion"); reflexivity.
Qed.

Lemma stamped_version request t payload stamped :
  AppsScript.stamp request t payload = Ok stamped ->
  js_or (prop stamped "_schemaVersion") (VNum 1) = VNum 1.
Proof.
  unfold AppsScript.stamp, res_bind. intros H.
  destruct payload as [| | | | | |fs]; simpl in H; try discriminate;
    try (inversion H; subst; reflexivity).
  inversion H; subst. unfold prop.
  rewrite !lookup_assign_ne by discriminate. rewrite lookup_assign_eq. reflexivity.
Qed.

End AfterUpload.

(** X23. On the same Drive [getMetadata] and [downloadData] agree: one
    throws exactly when the other does, with the same error; without a
    data file the first answers [exists: false] and the second [status:
    'error']; otherwise they report the same [cloudTimestamp],
    [cloudHash], [recordCount] and [schemaVersion]. *)
Theorem metadata_and_download_agree sv d :
  (forall e, fst (AppsScript.getMetadata sv d) = Err e <->
             fst (AppsScript.downloadData sv d) = Err e) /\
  forall m a,
    fst (AppsScript.getMetadata sv d) = Ok m ->
    fst (AppsScript.downloadData sv d) = Ok a ->
    (AppsScript.getDataFile d = None /\
     prop m "exists" = VBool false /\ prop a "status" = VStr "error") \/
    (prop m "exists" = VBool true /\ prop a "status" = VStr "ok" /\
     prop a "cloudTimestamp" = prop m "cloudTimestamp" /\
     prop a "cloudHash" = prop m "cloudHash" /\
     prop a "recordCount" = prop m "recordCount" /\
     prop a "schemaVersion" = prop m "schemaVersion").
Proof.
  pose proof (getMetadata_run sv d) as Hm. pose proof (downloadData_run sv d) as Hd.
  destruct (AppsScript.getDataFile d) as [f|].
  - destruct (AppsScript.JSON_parse sv (AppsScript.file_content f)) as [data|msg c].
    + rewrite Hm, Hd. cbn [fst]. unfold res_bind.
      destruct (countRecords data) as [n|e1].
      * destruct (get_prop data "_schemaVersion") as [version|e2].
        -- split; [intros e; split; discriminate|].
           intros m a [= <-] [= <-]. right. repeat split; reflexivity.
        -- split; [intros e; split; intros H; exact H|]. discriminate.
      * split; [intros e; split; intros H; exact H|]. discriminate.
    + rewrite Hm, Hd. cbn [fst]. split; [intros e; split; intros H; exact H|].
      discriminate.
  - rewrite Hm, Hd. cbn [fst]. split; [intros e; split; discriminate|].
    intros m a [= <-] [= <-]. left. repeat split; reflexivity.
Qed.

Lemma metadata_and_download_agree_witness :
  exists m a,
    fst (AppsScript.getMetadata demo_services drive_with_file) = Ok m /\
    fst (AppsScript.downloadData demo_services drive_with_file) = Ok a /\
    prop a "cloudHash" = prop m "cloudHash" /\
    prop a "recordCount" = prop m "recordCount".
Proof.
  destruct (AppsScript.getMetadata demo_services drive_with_file) as [[m|e] d1] eqn:Hm;
    [|exfalso; revert Hm; vm_compute; discriminate].
  destruct (AppsScript.downloadData demo_services drive_with_file) as [[a|e] d2] eqn:Ha;
    [|exfalso; revert Ha; vm_compute; discriminate].
  exists m, a. split; [reflexivity|]. split; [reflexivity|].
  destruct (proj2 (metadata_and_download_agree demo_services drive_with_file) m a)
    as [(Hnone & _) | (_ & _ & _ & Hh & Hc & _)].
  - rewrite Hm. reflexivity.
  - rewrite Ha. reflexivity.
  - exfalso. revert Hnone. vm_compute. discriminate.
  - auto.
Defined.


(** X24. After an upload answered with [status: 'ok'], [getMetadata]
    answers [exists: true] with the [cloudTimestamp], [cloudHash] and
    [recordCount] of that answer, and with [schemaVersion] 1, whatever the
    payload was.  (The engine is assumed to parse the stored text back
    into the document it was made from.) *)
Theorem the_metadata_after_an_upload_is_its_answer sv request d response d1 :
  AppsScript.uploadData sv request d = (Ok response, d1) ->
  prop response "status" = VStr "ok" ->
  (forall stamped,
     AppsScript.stamp request (AppsScript.Date_now sv (AppsScript.clock d))
                      (prop request "payload") = Ok stamped ->
     parses_back sv stamped) ->
  exists m,
    AppsScript.getMetadata sv d1 = (Ok m, d1) /\
    prop m "exists" = VBool true /\
    prop m "cloudTimestamp" = prop response "cloudTimestamp" /\
    prop m "cloudHash" = prop response "cloudHash" /\
    prop m "recordCount" = prop response "recordCount" /\
    prop m "schemaVersion" = VNum 1.
Proof.
  intros H Hok Hparse.
  destruct (uploadData_cases sv request d)
    as [(e0 & E & _) | [(msg & E) | (stamped & content & f & d2 & _ & Hs & Ht & Hw & E)]];
    rewrite E in H.
  - discriminate.
  - inversion H; subst. discriminate Hok.
  - destruct (countRecords stamped) as [n|] eqn:Hn; [|discriminate].
    inversion H; subst. clear H.
    destruct Hw as (Hf & Hc & _).
    pose proof (getMetadata_run sv d1) as Hm. rewrite Hf, Hc in Hm.
    rewrite (Hparse stamped Hs content Ht) in Hm.
    rewrite Hn in Hm. cbn [res_bind] in Hm.
    rewrite (stamp_readable _ _ _ _ "_schemaVersion" Hs) in Hm. cbn [res_bind] in Hm.
    rewrite (stamped_version _ _ _ _ Hs) in Hm.
    eexists. split; [exact Hm|]. repeat split; reflexivity.
Qed.

Lemma the_metadata_after_an_upload_is_its_answer_witness :
  exists m,
    AppsScript.getMetadata demo_services drive_with_file = (Ok m, drive_with_file) /\
    prop m "exists" = VBool true /\
    prop m "schemaVersion" = VNum 1.
Proof.
  destruct (the_metadata_after_an_upload_is_its_answer demo_services upload_request
              empty_drive
              (match fst (AppsScript.uploadData demo_services upload_request
                            empty_drive) with
               | Ok response => response
               | Err _ => VUndef
               end)
              drive_with_file)
    as (m & Hm & Hex & _ & _ & _ & Hv).
  - unfold drive_with_file.
    rewrite (surjective_pairing (AppsScript.uploadData _ _ _)) at 1.
    apply f_equal2; [vm_compute; reflexivity|reflexivity].
  - vm_compute. reflexivity.
  - intros stamped Hs content Hc.
    apply (f_equal (fun x => match x with Ok v => v | Err _ => VUndef end)) in Hs.
    rewrite <- Hs in Hc |- *.
    apply (f_equal (fun o => match o with Some t => t | None => EmptyString end)) in Hc.
    rewrite <- Hc. vm_compute. reflexivity.
  - exists m. auto.
Defined.

(** ** The digest in hexadecimal, on both sides *)

Lemma be_bytes_range n : forall x, Forall (fun b => 0 <= b < 256) (SHA256.be_bytes n x).
Proof.
  induction n as [|n IH]; intros x; simpl; [constructor|].
  apply Forall_app. split; [apply IH|].
  constructor; [|constructor]. apply Z.mod_pos_bound. lia.
Qed.

Lemma sha256_bytes_range s : Forall (fun b => 0 <= b < 256) (sha256_bytes s).
Proof.
  unfold sha256_bytes. generalize (SHA256.digest (SHA256.bytes_of_string s)).
  intros ws. induction ws as [|x ws IH]; cbn [map concat]; [constructor|].
  apply Forall_app. split; [apply be_bytes_range|exact IH].
Qed.

Lemma byte_printed_alike b :
  0 <= b < 256 ->
  AppsScript.last_two ("0" +:+ AppsScript.byte_to_hex (Z.land (signed_byte b) 255))
  = SHA256.hex_of_byte b.
Proof.
  intros Hb.
  assert (Hall : forallb (fun n =>
            String.eqb
              (AppsScript.last_two
                 ("0" +:+ AppsScript.byte_to_hex
                            (Z.land (signed_byte (Z.of_nat n)) 255)))
              (SHA256.hex_of_byte (Z.of_nat n))) (seq 0 256) = true).
  { vm_compute. reflexivity. }
  rewrite forallb_forall in Hall.
  specialize (Hall (Z.to_nat b)).
  rewrite Z2Nat.id in Hall by lia.
  apply String.eqb_eq, Hall. apply in_seq. lia.
Qed.

(** X25. Both sides print a digest alike.  When
    [Utilities.computeDigest] returns the SHA-256 of the text, as the
    signed bytes it is made of, the [calculateHash] of the script (for
    each byte [('0' + (byte & 0xFF).toString(16)).slice(-2)], joined) is
    the [calculateHash] of the client for the same text
    ([digest('hex')]): two lowercase hexadecimal digits per byte. *)
Theorem both_sides_print_the_digest_alike sv content :
  AppsScript.computeDigest_SHA_256 sv content = map signed_byte (sha256_bytes content) ->
  calculateHash (VStr content) = Ok (AppsScript.calculateHash sv content).
Proof.
  intros Hd. unfold calculateHash, AppsScript.calculateHash, SHA256.sha256_hex,
    SHA256.hex. rewrite Hd. f_equal. f_equal. fold (sha256_bytes content).
  rewrite map_map. apply map_ext_in. intros b Hb. symmetry.
  apply byte_printed_alike.
  pose proof (sha256_bytes_range content) as Hr.
  rewrite List.Forall_forall in Hr. apply Hr. exact Hb.
Qed.

Lemma both_sides_print_the_digest_alike_witness :
  calculateHash (VStr "abc") = Ok (AppsScript.calculateHash demo_services "abc").
Proof.
  apply (both_sides_print_the_digest_alike demo_services "abc"). reflexivity.
Defined.

(** ** The OAuth based module *)

Section Legacy.
Variable w : world.
Variable api : LegacyDrive.drive_api.

Lemma getDriveClient_run st :
  LegacyDrive.getDriveClient st
  = if negb (str_truthy (googleClientId (cfg st)))
       || negb (str_truthy (googleClientSecret (cfg st)))
    then (Rejected (error ConfigurationError
                      "Please set Google Client ID and Secret in settings."), st)
    else if str_truthy (googleRefreshToken (cfg st)) then (Fulfilled tt, st)
    else (Rejected (error ConfigurationError "Not authenticated. Please auth first."), st).
Proof.
  unfold LegacyDrive.getDriveClient, LegacyDrive.getAuthClient, bind, get_cfg.
  destruct (negb _ || negb _); [reflexivity|]. simpl.
  destruct (str_truthy (googleRefreshToken (cfg st))); reflexivity.
Qed.

Lemma call_rejected {A} k ev (oracle : nat -> answer A) st e st' :
  call k ev oracle st = (Rejected e, st') ->
  exists msg, oracle (tick st) = Throws msg (code e) /\ st' = advance (emit ev st).
Proof.
  unfold call. destruct (oracle (tick st)) as [a|msg c]; [discriminate|].
  intros [= <- <-]. eauto.
Qed.

Lemma call_settles {A} k ev (oracle : nat -> answer A) st :
  fst (call k ev oracle st) <> Unsettled.
Proof. apply call_spec. Qed.

Lemma attempt_run name body st :
  fst (attempt w api name body st) <> Unsettled /\
  (save_is_no_http_error w ->
   forall e st', attempt w api name body st = (Rejected e, st') ->
     LegacyDrive.code_is_404 e && str_truthy (googleDriveFileId (cfg st')) = true ->
     str_truthy (googleDriveFileId (cfg st)) = true).
Proof.
  unfold attempt, bind, get_cfg.
  destruct (str_truthy (googleDriveFileId (cfg st))) eqn:Hid.
  - split; [|auto].
    pose proof (call_settles DriveApiError (EvDriveApi "files.update")
                  (fun t => LegacyDrive.files_update api t (googleDriveFileId (cfg st))
                              name body) st) as Hs.
    destruct (call _ _ _ st) as [[[]|e|] s1]; simpl in *; congruence.
  - pose proof (call_settles DriveApiError (EvDriveApi "files.create")
                  (fun t => LegacyDrive.files_create api t name body) st) as Hs.
    destruct (call DriveApiError (EvDriveApi "files.create") _ st)
      as [[id|e|] s1] eqn:Hc; simpl in Hs; try congruence.
    + unfold set_cfg. cbn [fst snd].
      match goal with |- context [config_save_call w ?s] =>
        pose proof (config_save_call_spec w s) as (_ & Hu & _);
        destruct (config_save_call w s) as [[[]|e|] s2] eqn:Hsave
      end; simpl in Hu; try congruence.
      * split; [simpl; discriminate|]. intros _ e st' [=].
      * split; [simpl; discriminate|]. intros Hw e0 st' [= <- <-] H404.
        exfalso. unfold config_save_call, bind, get_cfg in Hsave.
        apply call_rejected in Hsave. destruct Hsave as (msg & Ho & _).
        apply andb_prop in H404. destruct H404 as (H404 & _).
        unfold LegacyDrive.code_is_404 in H404.
        destruct (code e) as [c|]; [|discriminate].
        apply Z.eqb_eq in H404. subst c. eapply Hw. exact Ho.
    + split; [simpl; discriminate|]. intros _ e0 st' [= <- <-] H404.
      apply call_rejected in Hc. destruct Hc as (_ & _ & ->).
      apply andb_prop in H404. destruct H404 as (_ & H404).
      simpl in H404. congruence.
Qed.

Lemma uploadFile_unfold fuel :
  LegacyDrive.uploadFile w api (S fuel)
  = upload_round w api (LegacyDrive.uploadFile w api fuel).
Proof. reflexivity. Qed.

Ltac settled :=
  try solve [reflexivity | simpl; discriminate | simpl; congruence
            | split; [reflexivity | simpl; discriminate]].

Ltac run_round :=
  unfold upload_round, bind; rewrite ?getDriveClient_run;
  destruct (negb _ || negb _); settled;
  match goal with |- context [str_truthy (googleRefreshToken (cfg ?st))] =>
    destruct (str_truthy (googleRefreshToken (cfg st))); settled
  end;
  match goal with |- context [call GenerationError EvGenerate ?o ?st] =>
    let Hs := fresh "Hs" in let Hu := fresh "Hu" in
    pose proof (call_spec GenerationError EvGenerate o st) as (Hs & Hu & _);
    destruct (call GenerationError EvGenerate o st) as [[data|e|] s1];
    simpl in Hs, Hu; subst; settled
  end;
  unfold lift;
  match goal with |- context [get_prop ?d "info"] =>
    destruct (get_prop d "info") as [info|e]; cbn [ret throw]; settled
  end;
  match goal with |- context [get_prop ?i "uid"] =>
    destruct (get_prop i "uid") as [uid|e]; cbn [ret throw]; settled
  end;
  unfold try_catch;
  match goal with |- context [attempt w api ?n ?b ?s] =>
    let Hsettles := fresh "Hsettles" in let Hretry := fresh "Hretry" in
    destruct (attempt_run n b s) as (Hsettles & Hretry);
    destruct (attempt w api n b s) as [[v|e|] s2] eqn:Ha;
    simpl in Hsettles; settled
  end;
  unfold get_cfg;
  match goal with |- context [LegacyDrive.code_is_404 ?x && str_truthy (googleDriveFileId (cfg ?s))] =>
    destruct (LegacyDrive.code_is_404 x && str_truthy (googleDriveFileId (cfg s))) eqn:C;
    settled
  end;
  unfold set_cfg; cbn [fst snd].

(** What the retry does matters only in a state without file id. *)
Lemma upload_round_ext retry1 retry2 st :
  (forall s, str_truthy (googleDriveFileId (cfg s)) = false -> retry1 s = retry2 s) ->
  upload_round w api retry1 st = upload_round w api retry2 st.
Proof. intros H. run_round. apply H. reflexivity. Qed.

Lemma upload_round_settles retry st :
  (forall s, str_truthy (googleDriveFileId (cfg s)) = false ->
             fst (retry s) <> Unsettled) ->
  fst (upload_round w api retry st) <> Unsettled.
Proof. intros H. run_round. apply H. reflexivity. Qed.

(** A round that begins without file id does not retry. *)
Lemma upload_round_without_id retry1 retry2 st :
  save_is_no_http_error w ->
  str_truthy (googleDriveFileId (cfg st)) = false ->
  upload_round w api retry1 st = upload_round w api retry2 st /\
  fst (upload_round w api retry1 st) <> Unsettled.
Proof.
  intros Hw Hid. run_round.
  specialize (Hretry Hw e s2 eq_refl C). simpl in Hretry. congruence.
Qed.

End Legacy.

(** X26. [uploadFile] calls itself at most once: after a 404 from
    [files.update] it clears the file id and starts over, and the second
    round, having no file id, cannot start a third.  So the promise is
    settled after two rounds at the latest.  ([config.save] is taken not
    to fail with the number 404 as its error code.) *)
Theorem uploadFile_retries_at_most_once w api fuel st :
  save_is_no_http_error w ->
  LegacyDrive.uploadFile w api (2 + fuel) st = LegacyDrive.uploadFile w api 2 st /\
  fst (LegacyDrive.uploadFile w api 2 st) <> Unsettled.
Proof.
  intros Hw. cbn [Nat.add]. rewrite !(uploadFile_unfold w api (S _)). split.
  - apply upload_round_ext. intros s Hs. rewrite !uploadFile_unfold.
    apply upload_round_without_id; assumption.
  - apply upload_round_settles. intros s Hs. rewrite uploadFile_unfold.
    apply (upload_round_without_id w api _ never s Hw Hs).
Qed.

Lemma uploadFile_retries_at_most_once_witness :
  LegacyDrive.uploadFile online_world no_drive_api 5 demo_state
  = LegacyDrive.uploadFile online_world no_drive_api 2 demo_state.
Proof.
  refine (proj1 (uploadFile_retries_at_most_once online_world no_drive_api 3
                   demo_state _)).
  intros t c msg. discriminate.
Defined.

Lemma bind_rejected {A B} (m : M A) (k : A -> M B) st e st' :
  m st = (Rejected e, st') -> bind m k st = (Rejected e, st').
Proof. unfold bind. intros ->. reflexivity. Qed.

(** X27. Without client id, client secret or refresh token the OAuth
    module calls nothing: [GOOGLE_DRIVE_UPLOAD] and
    [GOOGLE_DRIVE_DOWNLOAD] answer with the message of the configuration
    error ('Please set Google Client ID and Secret in settings.' or 'Not
    authenticated. Please auth first.') and leave the state as it was: no
    export, no Drive call, no import. *)
Theorem nothing_is_called_without_credentials w api fuel st :
  googleClientId (cfg st) = EmptyString \/
  googleClientSecret (cfg st) = EmptyString \/
  googleRefreshToken (cfg st) = EmptyString ->
  exists msg,
    (msg = "Please set Google Client ID and Secret in settings." \/
     msg = "Not authenticated. Please auth first.") /\
    LegacyDrive.GOOGLE_DRIVE_UPLOAD w api (S fuel) st = (Fulfilled (VStr msg), st) /\
    LegacyDrive.GOOGLE_DRIVE_DOWNLOAD w api st = (Fulfilled (VStr msg), st).
Proof.
  intros H.
  assert (Hc : exists msg,
            (msg = "Please set Google Client ID and Secret in settings." \/
             msg = "Not authenticated. Please auth first.") /\
            LegacyDrive.getDriveClient st
            = (Rejected (error ConfigurationError msg), st)).
  { rewrite getDriveClient_run.
    destruct (negb (str_truthy (googleClientId (cfg st)))
              || negb (str_truthy (googleClientSecret (cfg st)))) eqn:E.
    - eexists. split; [left; reflexivity|reflexivity].
    - destruct (str_truthy (googleRefreshToken (cfg st))) eqn:T.
      + exfalso. apply orb_false_elim in E. destruct E as (E1 & E2).
        destruct H as [H | [H | H]]; rewrite H in *; discriminate.
      + eexists. split; [right; reflexivity|reflexivity]. }
  destruct Hc as (msg & Hmsg & Hc). exists msg. split; [exact Hmsg|].
  unfold LegacyDrive.GOOGLE_DRIVE_UPLOAD, LegacyDrive.GOOGLE_DRIVE_DOWNLOAD,
    LegacyDrive.downloadFile, try_catch.
  rewrite uploadFile_unfold. unfold upload_round.
  rewrite !(bind_rejected _ _ _ _ _ Hc). split; reflexivity.
Qed.

Lemma nothing_is_called_without_credentials_witness :
  exists msg,
    (msg = "Please set Google Client ID and Secret in settings." \/
     msg = "Not authenticated. Please auth first.") /\
    LegacyDrive.GOOGLE_DRIVE_UPLOAD online_world serving_api 1 signed_out_state
    = (Fulfilled (VStr msg), signed_out_state) /\
    LegacyDrive.GOOGLE_DRIVE_DOWNLOAD online_world serving_api signed_out_state
    = (Fulfilled (VStr msg), signed_out_state).
Proof.
  apply (nothing_is_called_without_credentials online_world serving_api 0
           signed_out_state).
  right. right. reflexivity.
Defined.


(** X28. [downloadFile] is fulfilled only with ['success'], after
    exactly one [files.get] of the configured file and one
    [importUgif30Json] of what it returned, which has an [info] and a
    [list]; the configuration is left alone.  Without a file id it is
    rejected at once and nothing is called; and when it is rejected for
    another reason than the import itself, nothing was imported. *)
Theorem downloadFile_imports_only_what_it_fetched w api st :
  (forall v st',
     LegacyDrive.downloadFile w api st = (Fulfilled v, st') ->
     v = VStr "success" /\
     exists data,
       LegacyDrive.files_get api (tick st) (googleDriveFileId (cfg st)) = Returns data /\
       truthy (prop data "info") = true /\ truthy (prop data "list") = true /\
       log st' = (log st ++ [EvDriveApi "files.get"; EvImport30 data])%list /\
       cfg st' = cfg st) /\
  (googleDriveFileId (cfg st) = EmptyString ->
   exists e, LegacyDrive.downloadFile w api st = (Rejected e, st) /\
             kind e = ConfigurationError) /\
  (forall e st',
     LegacyDrive.downloadFile w api st = (Rejected e, st') ->
     kind e <> ImportError ->
     Forall (fun ev => ~ is_import ev) (drop (length (log st)) (log st'))).
Proof.
  assert (Hnone : forall (r : outcome value * state) e,
            r = (Rejected e, st) -> kind e = ConfigurationError ->
            (forall v st', r = (Fulfilled v, st') ->
               v = VStr "success" /\
               exists data,
                 LegacyDrive.files_get api (tick st) (googleDriveFileId (cfg st))
                 = Returns data /\
                 truthy (prop data "info") = true /\ truthy (prop data "list") = true /\
                 log st' = (log st ++ [EvDriveApi "files.get"; EvImport30 data])%list /\
                 cfg st' = cfg st) /\
            (googleDriveFileId (cfg st) = EmptyString ->
             exists e, r = (Rejected e, st) /\ kind e = ConfigurationError) /\
            (forall e st', r = (Rejected e, st') -> kind e <> ImportError ->
               Forall (fun ev => ~ is_import ev) (drop (length (log st)) (log st')))).
  { intros r e -> Hk. split; [discriminate|]. split; [eauto|].
    intros e0 st' [= <- <-] _. rewrite drop_all. constructor. }
  unfold LegacyDrive.downloadFile, bind, get_cfg.
  rewrite getDriveClient_run.
  destruct (negb _ || negb _).
  { eapply Hnone; reflexivity. }
  destruct (str_truthy (googleRefreshToken (cfg st))).
  2: { eapply Hnone; reflexivity. }
  cbv iota beta.
  destruct (str_truthy (googleDriveFileId (cfg st))) eqn:Hid; cbn [negb].
  2: { eapply Hnone; reflexivity. }
  clear Hnone.
  split; [|split].
  - intros v st' H. unfold call at 1 in H.
    destruct (LegacyDrive.files_get api (tick st) (googleDriveFileId (cfg st)))
      as [data|msg c] eqn:G; [|discriminate].
    destruct (truthy data && truthy (prop data "info") && truthy (prop data "list")) eqn:T;
      [|discriminate].
    apply andb_prop in T. destruct T as (T & Hl). apply andb_prop in T.
    destruct T as (_ & Hi).
    unfold call in H.
    destruct (importUgif30Json w _ data); [|discriminate].
    inversion H; subst. split; [reflexivity|]. exists data.
    repeat split; auto. simpl. rewrite <- app_assoc. reflexivity.
  - intros Hempty. rewrite Hempty in Hid. discriminate.
  - intros e st' H Hk. unfold call at 1 in H.
    destruct (LegacyDrive.files_get api (tick st) (googleDriveFileId (cfg st)))
      as [data|msg c] eqn:G.
    + destruct (truthy data && truthy (prop data "info") && truthy (prop data "list")).
      * unfold call in H. destruct (importUgif30Json w _ data); [discriminate|].
        inversion H; subst. simpl in Hk. congruence.
      * inversion H; subst. simpl. rewrite drop_app_length.
        repeat constructor. simpl. auto.
    + inversion H; subst. simpl. rewrite drop_app_length.
      repeat constructor. simpl. auto.
Qed.

Lemma downloadFile_imports_only_what_it_fetched_witness :
  exists data,
    LegacyDrive.files_get serving_api (tick demo_state)
                          (googleDriveFileId (cfg demo_state)) = Returns data /\
    log (snd (LegacyDrive.downloadFile online_world serving_api demo_state))
    = (log demo_state ++ [EvDriveApi "files.get"; EvImport30 data])%list.
Proof.
  destruct (proj1 (downloadFile_imports_only_what_it_fetched online_world serving_api
                     demo_state)
                  (VStr "success")
                  (snd (LegacyDrive.downloadFile online_world serving_api demo_state)))
    as (_ & data & Hget & _ & _ & Hlog & _).
  - rewrite (surjective_pairing (LegacyDrive.downloadFile _ _ _)).
    apply f_equal2; [vm_compute; reflexivity|reflexivity].
  - exists data. auto.
Defined.

(** ** The settings view *)

Section SettingViewFacts.
Import SettingView.
Variable r : renderer.

Lemma silent_vret {A} (a : A) : silent (vret a).
Proof. intros v. exists (Done a), v. repeat split; auto; discriminate. Qed.

Lemma silent_vthrow {A} msg : silent (@vthrow A msg).
Proof. intros v. exists (Thrown msg), v. repeat split; auto; discriminate. Qed.

Lemma silent_vlift {A} (x : res A) : silent (vlift x).
Proof. destruct x; [apply silent_vret|apply silent_vthrow]. Qed.

Lemma silent_modify f :
  (forall v, trace (f v) = trace v /\ settingForm (f v) = settingForm v) ->
  silent (modify f).
Proof.
  intros Hf v. destruct (Hf v) as (Ht & Hs).
  exists (Done tt), (f v). repeat split; auto; discriminate.
Qed.

Lemma silent_vbind {A B} (m : V A) (k : A -> V B) :
  silent m -> (forall a, silent (k a)) -> silent (vbind m k).
Proof.
  intros Hm Hk v. unfold vbind.
  destruct (Hm v) as (o & v1 & -> & Hp & Ht & Hs).
  destruct o as [a|msg|]; [| |congruence].
  - destruct (Hk a v1) as (o2 & v2 & E & Hp2 & Ht2 & Hs2).
    exists o2, v2. rewrite E. repeat split; auto; congruence.
  - exists (Thrown msg), v1. repeat split; auto.
Qed.

Lemma silent_call_toLocaleString x : silent (call_toLocaleString r x).
Proof. destruct x; simpl; first [apply silent_vret | apply silent_vthrow]. Qed.

Ltac silent_steps :=
  repeat first
    [ assumption | apply silent_vret | apply silent_vthrow | apply silent_vlift
    | apply silent_call_toLocaleString
    | apply silent_modify; intros ?; split; reflexivity
    | apply silent_vbind; [|intros ?] ].

Lemma silent_comparisonData result : silent (comparisonData r result).
Proof. unfold comparisonData. silent_steps. Qed.

Lemma silent_open_dialog action result : silent (open_dialog r action result).
Proof. unfold open_dialog. pose proof (silent_comparisonData result). silent_steps. Qed.

(** The query for the metadata, followed inside [try ... catch ... finally]
    by a step that is silent or is one message box. *)
Lemma asked_then (body : value -> V unit) (after : view -> view) v :
  (forall result,
     invoke r (moment v) "CLOUD_SYNC_GET_METADATA" [] = Some (Returns result) ->
     silent (body result) \/
     exists level text, body result = message_box level text) ->
  (forall v, trace (after v) = trace v /\ settingForm (after v) = settingForm v) ->
  only_asked v
    (snd (try_catch_finally
            (wait result <- ipc r "CLOUD_SYNC_GET_METADATA" []; body result)
            (fun msg => message_box "error" (shown_error r msg)) after v)).
Proof.
  intros Hbody Hafter. unfold try_catch_finally, vbind, ipc, only_asked.
  set (v0 := later (note (Invoke "CLOUD_SYNC_GET_METADATA" []) v)).
  assert (H0 : trace v0 = (trace v ++ [Invoke "CLOUD_SYNC_GET_METADATA" []])%list
               /\ settingForm v0 = settingForm v) by (split; reflexivity).
  destruct H0 as (Ht0 & Hs0).
  destruct (invoke r (moment v) "CLOUD_SYNC_GET_METADATA" []) as [[result|msg c]|].
  - destruct (Hbody result eq_refl) as [Hq | (level & text & ->)].
    + destruct (Hq v0) as (o & v1 & -> & Hp & Ht & Hs).
      destruct o as [[]|msg|]; [| |congruence]; cbn [snd].
      * exists []. destruct (Hafter v1) as (-> & ->). rewrite Ht, Hs, Ht0, Hs0.
        rewrite <- ?app_assoc. repeat split; auto; simpl; lia.
      * eexists [_]. unfold message_box, modify. cbn [snd].
        destruct (Hafter (note (Message "error" (shown_error r msg)) v1)) as (-> & ->).
        cbn [trace settingForm note]. rewrite Ht, Hs, Ht0, Hs0.
        rewrite <- ?app_assoc. repeat split; auto; repeat constructor.
    + eexists [_]. unfold message_box, modify. cbn [snd].
      destruct (Hafter (note (Message level text) v0)) as (-> & ->).
      cbn [trace settingForm note]. rewrite Ht0, Hs0.
      rewrite <- ?app_assoc. repeat split; auto; repeat constructor.
  - eexists [_]. unfold message_box, modify. cbn [snd].
    destruct (Hafter (note (Message "error" (shown_error r msg)) v0)) as (-> & ->).
    cbn [trace settingForm note]. rewrite Ht0, Hs0.
    rewrite <- ?app_assoc. repeat split; auto; repeat constructor.
  - exists []. cbn [snd]. rewrite Ht0, Hs0. repeat split; auto; simpl; lia.
Qed.

End SettingViewFacts.

Lemma vbind_vret {A B} (a : A) (k : A -> SettingView.V B) :
  SettingView.vbind (SettingView.vret a) k = k a.
Proof. reflexivity. Qed.

Lemma vbind_vthrow {A B} msg (k : A -> SettingView.V B) :
  SettingView.vbind (SettingView.vthrow msg) k = SettingView.vthrow msg.
Proof. reflexivity. Qed.

(** X29. The view asks before it overwrites.  [handleCloudDownload]
    does nothing but query the metadata and then show at most one message
    or fill in the confirmation dialog: it never starts the download and
    saves no setting.  The same holds of [handleCloudUpload] whenever the
    metadata say that the cloud has data: the upload is then left to the
    dialog. *)
Theorem the_view_asks_before_it_overwrites r v :
  only_asked v (snd (SettingView.handleCloudDownload r v)) /\
  (forall result,
     SettingView.invoke r (SettingView.moment v) "CLOUD_SYNC_GET_METADATA" []
     = Some (Returns result) ->
     truthy (prop (prop result "cloud") "exists") = true ->
     only_asked v (snd (SettingView.handleCloudUpload r v))).
Proof.
  split.
  - unfold SettingView.handleCloudDownload.
    unfold SettingView.vbind at 1. unfold SettingView.modify at 1.
    apply (asked_then r _ _ (SettingView.set_loading true v));
      [|intros; split; reflexivity].
    intros result _.
    destruct (get_prop result "status") as [status|e]; cbn [SettingView.vlift];
      rewrite ?vbind_vret, ?vbind_vthrow; [|left; apply silent_vthrow].
    destruct (strict_eq status (VStr "error")); [right; eauto|].
    destruct (get_prop result "cloud") as [cloud|e]; cbn [SettingView.vlift];
      rewrite ?vbind_vret, ?vbind_vthrow; [|left; apply silent_vthrow].
    destruct (get_prop cloud "exists") as [exists_|e]; cbn [SettingView.vlift];
      rewrite ?vbind_vret, ?vbind_vthrow; [|left; apply silent_vthrow].
    destruct (truthy exists_); cbn [negb].
    + left. apply silent_open_dialog.
    + right. eauto.
  - intros result Hres Hexists.
    assert (Hcloud : get_prop result "cloud" = Ok (prop result "cloud")).
    { destruct result; cbn in Hexists; try discriminate. reflexivity. }
    assert (Hex : get_prop (prop result "cloud") "exists"
                  = Ok (prop (prop result "cloud") "exists")).
    { destruct (prop result "cloud"); cbn in Hexists; try discriminate. reflexivity. }
    assert (Hstatus : get_prop result "status" = Ok (prop result "status")).
    { destruct result; cbn in Hexists; try discriminate. reflexivity. }
    unfold SettingView.handleCloudUpload.
    unfold SettingView.vbind at 1. unfold SettingView.modify at 1.
    apply (asked_then r _ _ (SettingView.set_loading true v));
      [|intros; split; reflexivity].
    cbn [SettingView.moment SettingView.set_loading].
    intros result' Hres'. rewrite Hres in Hres'. inversion Hres'; subst result'.
    rewrite Hstatus. cbn [SettingView.vlift]. rewrite vbind_vret.
    destruct (strict_eq (prop result "status") (VStr "error")); [right; eauto|].
    rewrite Hcloud. cbn [SettingView.vlift]. rewrite vbind_vret.
    rewrite Hex. cbn [SettingView.vlift]. rewrite vbind_vret.
    rewrite Hexists. left. apply silent_open_dialog.
Qed.

Lemma the_view_asks_before_it_overwrites_witness :
  only_asked demo_view
             (snd (SettingView.handleCloudUpload
                     (renderer_answering metadata_with_cloud_data) demo_view)).
Proof.
  apply (proj2 (the_view_asks_before_it_overwrites
                  (renderer_answering metadata_with_cloud_data) demo_view)
               metadata_with_cloud_data).
  - reflexivity.
  - reflexivity.
Defined.


Section SyncButtons.
Import SettingView.
Variable r : renderer.

Lemma try_catch_finally_done (body : V unit) (text : string -> value) after v o v' :
  try_catch_finally body (fun msg => message_box "error" (text msg)) after v = (o, v') ->
  o = Pending \/ (o = Done tt /\ exists v1, v' = after v1).
Proof.
  unfold try_catch_finally, message_box, modify.
  destruct (body v) as [[[]|msg|] v1]; intros [= <- <-]; eauto.
Qed.

Lemma failed_sync channel (rest : value -> V unit) after v text :
  answered_with_failure r v channel text ->
  (forall v0, trace (after v0) = trace v0 /\ settingForm (after v0) = settingForm v0) ->
  exists v1,
    try_catch_finally
      (wait result <- ipc r channel [];
       wait status <- vlift (get_prop result "status");
       if strict_eq status (VStr "error")
       then message_box "error" (prop result "error")
       else rest result)
      (fun msg => message_box "error" (shown_error r msg)) after v
    = (Done tt, after v1) /\
    trace v1 = (trace v ++ [Invoke channel []; Message "error" text])%list /\
    settingForm v1 = settingForm v.
Proof.
  unfold answered_with_failure, try_catch_finally, vbind, ipc. intros H Hafter.
  destruct (invoke r (moment v) channel []) as [[result|msg c]|]; [| |contradiction].
  - destruct H as [(Hn & ->) | (Hs & ->)].
    + destruct result; try discriminate Hn; cbn; eexists; (split; [reflexivity|]);
        cbn; rewrite <- app_assoc; split; reflexivity.
    + assert (Hg : get_prop result "status" = Ok (VStr "error")).
      { destruct result; cbn in Hs; try discriminate. cbn.
        unfold prop in Hs. rewrite Hs. reflexivity. }
      rewrite Hg. cbn. eexists. split; [reflexivity|].
      cbn. rewrite <- app_assoc. split; reflexivity.
  - subst text. cbn. eexists. split; [reflexivity|].
    cbn. rewrite <- app_assoc. split; reflexivity.
Qed.

End SyncButtons.

(** X30. [performUpload] and [performDownload] never throw, and when
    they are done their busy flag is off again.  When the main process
    did not carry out the operation (the promise is rejected, or fulfilled
    with [status: 'error'] or with [null]), they have shown one error
    message, saved no setting, and left [settingForm], the time of the
    last sync included, as it was. *)
Theorem a_failed_sync_changes_no_setting r v :
  (forall o v',
     SettingView.performUpload r v = (o, v') ->
     o = SettingView.Pending \/
     (o = SettingView.Done tt /\ SettingView.uploading v' = false)) /\
  (forall o v',
     SettingView.performDownload r v = (o, v') ->
     o = SettingView.Pending \/
     (o = SettingView.Done tt /\ SettingView.downloading v' = false)) /\
  (forall text,
     answered_with_failure r v "CLOUD_SYNC_UPLOAD" text ->
     exists v',
       SettingView.performUpload r v = (SettingView.Done tt, v') /\
       SettingView.settingForm v' = SettingView.settingForm v /\
       SettingView.trace v'
       = (SettingView.trace v
          ++ [SettingView.Invoke "CLOUD_SYNC_UPLOAD" [];
              SettingView.Message "error" text])%list) /\
  (forall text,
     answered_with_failure r v "CLOUD_SYNC_DOWNLOAD" text ->
     exists v',
       SettingView.performDownload r v = (SettingView.Done tt, v') /\
       SettingView.settingForm v' = SettingView.settingForm v /\
       SettingView.trace v'
       = (SettingView.trace v
          ++ [SettingView.Invoke "CLOUD_SYNC_DOWNLOAD" [];
              SettingView.Message "error" text])%list).
Proof.
  split; [|split; [|split]].
  - intros o v'. unfold SettingView.performUpload.
    unfold SettingView.vbind at 1. unfold SettingView.modify at 1.
    intros H. apply try_catch_finally_done in H.
    destruct H as [-> | (-> & v1 & ->)]; [left; reflexivity|right; auto].
  - intros o v'. unfold SettingView.performDownload.
    unfold SettingView.vbind at 1. unfold SettingView.modify at 1.
    intros H. apply try_catch_finally_done in H.
    destruct H as [-> | (-> & v1 & ->)]; [left; reflexivity|right; auto].
  - intros text H. unfold SettingView.performUpload.
    unfold SettingView.vbind at 1. unfold SettingView.modify at 1.
    match goal with |- context [SettingView.try_catch_finally
                                  (SettingView.vbind _ (fun result =>
                                     SettingView.vbind _ (fun status =>
                                       if _ then _ else @?rest result))) _ ?after ?v0] =>
      destruct (failed_sync r "CLOUD_SYNC_UPLOAD" rest after v0 text H)
        as (v1 & E & Ht & Hs); [intros; split; reflexivity|]
    end.
    eexists. split; [exact E|]. cbn [SettingView.settingForm SettingView.trace
                                      SettingView.set_uploading].
    rewrite Ht, Hs. split; reflexivity.
  - intros text H. unfold SettingView.performDownload.
    unfold SettingView.vbind at 1. unfold SettingView.modify at 1.
    match goal with |- context [SettingView.try_catch_finally
                                  (SettingView.vbind _ (fun result =>
                                     SettingView.vbind _ (fun status =>
                                       if _ then _ else @?rest result))) _ ?after ?v0] =>
      destruct (failed_sync r "CLOUD_SYNC_DOWNLOAD" rest after v0 text H)
        as (v1 & E & Ht & Hs); [intros; split; reflexivity|]
    end.
    eexists. split; [exact E|]. cbn [SettingView.settingForm SettingView.trace
                                      SettingView.set_downloading].
    rewrite Ht, Hs. split; reflexivity.
Qed.

Lemma a_failed_sync_changes_no_setting_witness :
  exists v',
    SettingView.performDownload (renderer_answering failure_answer) demo_view
    = (SettingView.Done tt, v') /\
    SettingView.settingForm v' = SettingView.settingForm demo_view /\
    SettingView.trace v'
    = (SettingView.trace demo_view
       ++ [SettingView.Invoke "CLOUD_SYNC_DOWNLOAD" [];
           SettingView.Message "error" (VStr "Request timeout")])%list.
Proof.
  apply (proj2 (proj2 (proj2 (a_failed_sync_changes_no_setting
                                (renderer_answering failure_answer) demo_view)))).
  right. split; reflexivity.
Defined.
